(** * bridges_top_n: a shallow embedding of the DeFiLlama bridges ETL script

    The development follows [src/bridges_top_n.py] function by function.

    Conventions of the embedding.
    - Python [str] values are modelled as [string] (sequences of 8-bit
      characters); only ASCII whitespace and ASCII digits are recognised.
    - Python [float] values are modelled by [float] below: exact rationals
      extended with the two infinities and NaN.  Conversions into floats
      honour the range of a binary64 (an out-of-range decimal literal reads as
      an infinity, an out-of-range integer raises [OverflowError]); arithmetic
      on finite values is exact (rounding and signed zeros are not modelled).
    - JSON payloads are modelled by [json]; a JSON object is an association
      list whose first binding of a key is the one a Python [dict] holds.
    - Effects (HTTP requests, sleeping, printing, writing files, exiting) are
      threaded through a state-and-exception monad over a [world] that
      records every event in order. *)

From Stdlib Require Import ZArith QArith Qcanon String Ascii List Bool Lia.
From Stdlib Require Import Permutation Sorted.
Import ListNotations.

Local Open Scope string_scope.
Local Open Scope list_scope.
Local Open Scope Z_scope.

(* ===================================================================== *)
(** ** Python strings *)
(* ===================================================================== *)

Module PyStr.

Definition code (c : ascii) : Z := Z.of_N (N_of_ascii c).

(** [str.isspace] restricted to ASCII: TAB..CR, FS..US and the blank. *)
Definition is_space (c : ascii) : bool :=
  let n := code c in
  ((9 <=? n) && (n <=? 13)) || ((28 <=? n) && (n <=? 32)).

Fixpoint lstrip (s : string) : string :=
  match s with
  | EmptyString => EmptyString
  | String c s' => if is_space c then lstrip s' else s
  end.

Fixpoint rstrip (s : string) : string :=
  match s with
  | EmptyString => EmptyString
  | String c s' =>
      match rstrip s' with
      | EmptyString => if is_space c then EmptyString else String c EmptyString
      | r => String c r
      end
  end.

(** [s.strip()] *)
Definition strip (s : string) : string := rstrip (lstrip s).

(** The blanks that [float(s)] and [int(s)] skip around an ASCII string:
    TAB..CR and the blank, without FS..US. *)
Definition is_blank (c : ascii) : bool :=
  let n := code c in ((9 <=? n) && (n <=? 13)) || (n =? 32).

Fixpoint ltrim (s : string) : string :=
  match s with
  | EmptyString => EmptyString
  | String c s' => if is_blank c then ltrim s' else s
  end.

Fixpoint rtrim (s : string) : string :=
  match s with
  | EmptyString => EmptyString
  | String c s' =>
      match rtrim s' with
      | EmptyString => if is_blank c then EmptyString else String c EmptyString
      | r => String c r
      end
  end.

Definition trim (s : string) : string := rtrim (ltrim s).

(** [s.replace(c, by)] for a one-character pattern [c]. *)
Fixpoint replace (c : ascii) (by_ : string) (s : string) : string :=
  match s with
  | EmptyString => EmptyString
  | String a s' =>
      if Ascii.eqb a c then (by_ ++ replace c by_ s')%string
      else String a (replace c by_ s')
  end.

Definition lower_char (c : ascii) : ascii :=
  let n := code c in
  if (65 <=? n) && (n <=? 90) then ascii_of_N (Z.to_N (n + 32)) else c.

Fixpoint lower (s : string) : string :=
  match s with
  | EmptyString => EmptyString
  | String c s' => String (lower_char c) (lower s')
  end.

Definition digit_of (c : ascii) : option Z :=
  let n := code c in
  if (48 <=? n) && (n <=? 57) then Some (n - 48) else None.

Definition is_digit (c : ascii) : bool :=
  match digit_of c with Some _ => true | None => false end.

(** [needle in s] for strings: substring test. *)
Fixpoint contains (needle s : string) : bool :=
  prefix needle s ||
  match s with
  | EmptyString => false
  | String _ s' => contains needle s'
  end.

(** Decimal rendering of an integer, as in an f-string [f"{n}"]. *)
Fixpoint digits_of_pos_fuel (fuel : nat) (n : Z) (acc : string) : string :=
  match fuel with
  | O => acc
  | S fuel' =>
      let d := ascii_of_N (Z.to_N (48 + n mod 10)) in
      if n <? 10 then String d acc
      else digits_of_pos_fuel fuel' (n / 10) (String d acc)
  end.

Definition of_int (n : Z) : string :=
  let m := Z.abs n in
  let body := digits_of_pos_fuel (S (Z.to_nat (Z.log2 m))) m EmptyString in
  if n <? 0 then String "-" body else body.

(** [f"{n:0{w}d}"] for a non-negative [n]: left-padded with zeros. *)
Fixpoint zeros (k : nat) : string :=
  match k with O => EmptyString | S k' => String "0" (zeros k') end.

Definition of_int_pad (w : nat) (n : Z) : string :=
  let body := of_int n in
  (zeros (w - String.length body) ++ body)%string.

End PyStr.

(* ===================================================================== *)
(** ** Python floats *)
(* ===================================================================== *)

Module Float.

Inductive float : Type :=
| Fin (q : Qc)
| Inf (neg : bool)
| NaN.

Definition zero : float := Fin (Q2Qc 0).
Definition of_Z (z : Z) : float := Fin (Q2Qc (inject_Z z)).
Definition of_Q (q : Q) : float := Fin (Q2Qc q).

Definition is_nan (x : float) : bool :=
  match x with NaN => true | _ => false end.

Definition qzero (q : Qc) : bool := Qeq_bool q 0.
Definition qneg (q : Qc) : bool :=
  match (q ?= Q2Qc 0)%Qc with Lt => true | _ => false end.
Definition qltb (a b : Qc) : bool :=
  match (a ?= b)%Qc with Lt => true | _ => false end.

Definition fneg (x : float) : float :=
  match x with
  | Fin q => Fin (- q)%Qc
  | Inf s => Inf (negb s)
  | NaN => NaN
  end.

Definition fadd (x y : float) : float :=
  match x, y with
  | NaN, _ | _, NaN => NaN
  | Fin a, Fin b => Fin (a + b)%Qc
  | Inf s, Fin _ | Fin _, Inf s => Inf s
  | Inf s, Inf t => if Bool.eqb s t then Inf s else NaN
  end.

Definition fsub (x y : float) : float := fadd x (fneg y).

Definition fmul (x y : float) : float :=
  match x, y with
  | NaN, _ | _, NaN => NaN
  | Fin a, Fin b => Fin (a * b)%Qc
  | Inf s, Fin b | Fin b, Inf s =>
      if qzero b then NaN else Inf (xorb s (qneg b))
  | Inf s, Inf t => Inf (xorb s t)
  end.

(** Division as numpy performs it on float64 columns: no exception, a
    non-zero value over zero is an infinity and zero over zero is NaN. *)
Definition fdiv (x y : float) : float :=
  match x, y with
  | NaN, _ | _, NaN => NaN
  | Fin a, Fin b =>
      if qzero b then (if qzero a then NaN else Inf (qneg a))
      else Fin (a / b)%Qc
  | Fin _, Inf _ => zero
  | Inf s, Fin b => Inf (xorb s (qneg b))
  | Inf _, Inf _ => NaN
  end.

(** [x < y] on floats: false as soon as one side is NaN. *)
Definition fltb (x y : float) : bool :=
  match x, y with
  | NaN, _ | _, NaN => false
  | Fin a, Fin b => qltb a b
  | Fin _, Inf s => negb s
  | Inf s, Fin _ => s
  | Inf s, Inf t => s && negb t
  end.

(** [min(x, y)] of Python: the first argument unless the second is smaller. *)
Definition fmin (x y : float) : float := if fltb y x then y else x.

(** [series.fillna(v)] on one cell. *)
Definition fillna (v x : float) : float := if is_nan x then v else x.

(** Round half to even to the nearest integer ([numpy.rint]). *)
Definition rint (q : Qc) : Z :=
  let n := Qnum q in
  let d := Zpos (Qden q) in
  let fl := n / d in
  let r := 2 * (n - fl * d) in
  if r <? d then fl
  else if d <? r then fl + 1
  else if Z.even fl then fl else fl + 1.

(** [series.round(2)]: scale by 100, round half to even, scale back. *)
Definition round2 (x : float) : float :=
  match x with
  | Fin q => Fin (Q2Qc (rint (q * Q2Qc 100)%Qc # 100))
  | _ => x
  end.

(** Truncation toward zero, [int(x)] on a finite float. *)
Definition trunc (q : Qc) : Z := Z.quot (Qnum q) (Zpos (Qden q)).

(** The first magnitude that no longer rounds to a finite binary64. *)
Definition overflow_threshold : Z := 2 ^ 1024 - 2 ^ 970.

(** A decimal value read into a float: beyond the binary64 range it is an
    infinity. *)
Definition of_decimal (q : Q) : float :=
  if Qle_bool (inject_Z overflow_threshold) (Z.abs (Qnum q) # Qden q)
  then Inf (Qnum q <? 0)
  else of_Q q.

End Float.

(* ===================================================================== *)
(** ** Exceptions, JSON values and the builtin conversions *)
(* ===================================================================== *)

Module Py.
Import PyStr Float.

Local Unset Elimination Schemes.

(** JSON documents as [requests]' [r.json()] returns them. *)
Inductive json : Type :=
| JNull
| JBool (b : bool)
| JInt (z : Z)
| JFloat (f : float)
| JStr (s : string)
| JArr (items : list json)
| JObj (fields : list (string * json)).

(** Query parameters of a GET request. *)
Definition params : Type := option (list (string * Z)).

(** The exceptions the script can meet.  [TransportError] stands for whatever
    [requests.get], [raise_for_status] or [r.json()] raise; the three
    [RuntimeError]s of the script are kept apart by constructor. *)
Inductive exn : Type :=
| TransportError (detail : string)
| GetFailed (url : string) (p : params) (last : option exn)
| UnexpectedCatalog (url : string) (data : json)
| UnexpectedHistory (bridge_id : Z) (data : json)
| NoDateField (bridge_id : Z) (head : list json)
| ValueError
| TypeError
| OverflowError
| AttributeError.
Local Set Elimination Schemes.

Inductive result (A : Type) : Type :=
| Ok (a : A)
| Raise (e : exn).
Arguments Ok {A} a.
Arguments Raise {A} e.

(** [d.get(key)] on a parsed JSON object; [None] when the key is absent. *)
Fixpoint assoc (key : string) (fields : list (string * json)) : option json :=
  match fields with
  | [] => None
  | (k, v) :: rest => if String.eqb k key then Some v else assoc key rest
  end.

(** [r.get(key)]: only a dict has the method. *)
Definition get (r : json) (key : string) : result json :=
  match r with
  | JObj fields =>
      match assoc key fields with Some v => Ok v | None => Ok JNull end
  | _ => Raise AttributeError
  end.

(** Truth value of a JSON value, as [if v:] or [a or b] test it. *)
Definition truthy (v : json) : bool :=
  match v with
  | JNull => false
  | JBool b => b
  | JInt z => negb (z =? 0)
  | JFloat (Fin q) => negb (qzero q)
  | JFloat _ => true
  | JStr s => negb (String.eqb s "")
  | JArr l => match l with [] => false | _ => true end
  | JObj l => match l with [] => false | _ => true end
  end.

(** *** Reading numbers out of strings *)

(** The screen CPython applies before parsing a numeric string: an underscore
    must sit between two digits. *)
Fixpoint drop_underscores (prev : ascii) (s : string) : option string :=
  match s with
  | EmptyString => if Ascii.eqb prev "_" then None else Some EmptyString
  | String c s' =>
      if Ascii.eqb c "_" then
        if is_digit prev then drop_underscores c s' else None
      else if Ascii.eqb prev "_" && negb (is_digit c) then None
      else option_map (String c) (drop_underscores c s')
  end.

Fixpoint take_digits (s : string) (acc : Z) (n : nat) : Z * nat * string :=
  match s with
  | EmptyString => (acc, n, s)
  | String c s' =>
      match digit_of c with
      | Some d => take_digits s' (10 * acc + d) (S n)
      | None => (acc, n, s)
      end
  end.

Definition take_sign (s : string) : bool * string :=
  match s with
  | String "-" s' => (true, s')
  | String "+" s' => (false, s')
  | _ => (false, s)
  end.

(** [m * 10^e] as a rational. *)
Definition scale10 (m e : Z) : Q :=
  if 0 <=? e then inject_Z (m * 10 ^ e) else m # Z.to_pos (10 ^ (- e)).

(** An unsigned decimal literal: digits, an optional fraction, an optional
    exponent; at least one digit in the mantissa; nothing may follow. *)
Definition parse_decimal (s : string) : option Q :=
  let '(ip, ni, r1) := take_digits s 0 0 in
  let '(m, nf, r2) :=
    match r1 with
    | String "." r => take_digits r ip 0
    | _ => (ip, O, r1)
    end in
  if (ni + nf =? 0)%nat then None
  else
    match r2 with
    | EmptyString => Some (scale10 m (- Z.of_nat nf))
    | String c r =>
        if Ascii.eqb c "e" || Ascii.eqb c "E" then
          let '(es, r3) := take_sign r in
          let '(ev, ne, r4) := take_digits r3 0 0 in
          if (ne =? 0)%nat then None
          else
            match r4 with
            | EmptyString =>
                Some (scale10 m ((if es then - ev else ev) - Z.of_nat nf))
            | _ => None
            end
        else None
    end.

(** [float(s)] on a string; [None] stands for the [ValueError]. *)
Definition float_of_string (s : string) : option float :=
  match drop_underscores "000" (trim s) with
  | None => None
  | Some u =>
      let '(neg, body) := take_sign u in
      let lb := lower body in
      if String.eqb lb "inf" || String.eqb lb "infinity" then Some (Inf neg)
      else if String.eqb lb "nan" then Some NaN
      else
        match parse_decimal body with
        | Some q => Some (of_decimal (if neg then Qopp q else q))
        | None => None
        end
  end.

(** [float(n)] on an integer: [OverflowError] beyond the binary64 range. *)
Definition float_of_int (z : Z) : result float :=
  if Z.abs z <? overflow_threshold then Ok (of_Z z) else Raise OverflowError.

(** [int(s)] on a string; [None] stands for the [ValueError]. *)
Definition int_of_string (s : string) : option Z :=
  match drop_underscores "000" (trim s) with
  | None => None
  | Some u =>
      let '(neg, body) := take_sign u in
      let '(v, n, rest) := take_digits body 0 0 in
      if (n =? 0)%nat then None
      else
        match rest with
        | EmptyString => Some (if neg then - v else v)
        | _ => None
        end
  end.

(** [int(v)] on a JSON value. *)
Definition int_of (v : json) : result Z :=
  match v with
  | JNull => Raise TypeError
  | JBool b => Ok (if b then 1 else 0)
  | JInt z => Ok z
  | JFloat (Fin q) => Ok (trunc q)
  | JFloat (Inf _) => Raise OverflowError
  | JFloat NaN => Raise ValueError
  | JStr s =>
      match int_of_string s with Some z => Ok z | None => Raise ValueError end
  | JArr _ | JObj _ => Raise TypeError
  end.

(** *** [nz] and [to_float] *)

Definition nz (v fb : json) : json :=
  match v with
  | JNull => fb
  | JStr s => if String.eqb (strip s) "" then fb else v
  | _ => v
  end.

(** The three normalisation attempts of [to_float], in source order. *)
Definition candidates (s : string) : list string :=
  [ replace " " "" s;
    replace "," "." (replace "." "" s);
    replace "," "" s ].

(** The [for cand in candidates: try: return float(cand)] loop; [None] when
    the loop falls through. *)
Fixpoint first_float (cands : list string) : option float :=
  match cands with
  | [] => None
  | cand :: rest =>
      match float_of_string cand with
      | Some f => Some f
      | None => first_float rest
      end
  end.

Definition to_float (x : json) : result float :=
  match x with
  | JNull => Ok zero
  | JBool b => float_of_int (if b then 1 else 0)
  | JInt z => float_of_int z
  | JFloat f => Ok f
  | JStr x =>
      let s := strip x in
      if String.eqb s "" then Ok zero
      else
        match first_float (candidates s) with
        | Some f => Ok f
        | None => Ok zero
        end
  | JArr _ | JObj _ => Ok zero
  end.

End Py.

(* ===================================================================== *)
(** ** Calendar dates *)
(* ===================================================================== *)

Module Dates.
Import PyStr.

(** A proleptic Gregorian date: year, month, day. *)
Definition civil : Type := (Z * Z * Z)%type.

(** Day count since 1970-01-01 to civil date. *)
Definition civil_from_days (days : Z) : civil :=
  let z := days + 719468 in
  let era := z / 146097 in
  let doe := z - era * 146097 in
  let yoe := (doe - doe / 1460 + doe / 36524 - doe / 146096) / 365 in
  let y := yoe + era * 400 in
  let doy := doe - (365 * yoe + yoe / 4 - yoe / 100) in
  let mp := (5 * doy + 2) / 153 in
  let d := doy - (153 * mp + 2) / 5 + 1 in
  let m := if mp <? 10 then mp + 3 else mp - 9 in
  (if m <=? 2 then y + 1 else y, m, d).

(** [date.isoformat()] *)
Definition isoformat (c : civil) : string :=
  let '(y, m, d) := c in
  (of_int_pad 4 y ++ "-" ++ of_int_pad 2 m ++ "-" ++ of_int_pad 2 d)%string.

(** The last second [datetime] can represent: 9999-12-31T23:59:59. *)
Definition max_timestamp : Z := 253402300799.

(** The calendar date of a Unix timestamp, in UTC. *)
Definition utc_date (ts : Z) : civil := civil_from_days (ts / 86400).

Definition is_leap (y : Z) : bool :=
  ((y mod 4 =? 0) && negb (y mod 100 =? 0)) || (y mod 400 =? 0).

Definition days_in_month (y m : Z) : Z :=
  if m =? 2 then (if is_leap y then 29 else 28)
  else if (m =? 4) || (m =? 6) || (m =? 9) || (m =? 11) then 30
  else 31.

(** Lexicographic order on dates. *)
Definition civil_leb (a b : civil) : bool :=
  let '(y1, m1, d1) := a in
  let '(y2, m2, d2) := b in
  (y1 <? y2) || ((y1 =? y2) && ((m1 <? m2) || ((m1 =? m2) && (d1 <=? d2)))).

(** The days a nanosecond-resolution pandas timestamp can hold at midnight. *)
Definition pandas_min : civil := (1677, 9, 22).
Definition pandas_max : civil := (2262, 4, 11).

Definition all_digits (s : string) : bool :=
  forallb is_digit (list_ascii_of_string s).

Definition number_of (s : string) : Z :=
  fold_left (fun acc c => 10 * acc + match digit_of c with Some d => d | None => 0 end)
            (list_ascii_of_string s) 0.

(** [pd.to_datetime(s, format="%Y-%m-%d", errors="coerce")] on the strings
    [isoformat] produces (four, two and two digits); [None] is NaT: a string
    of another shape, an impossible date, or a date outside the range of
    nanosecond timestamps (pandas 2). *)
Definition to_datetime (s : string) : option civil :=
  let ys := substring 0 4 s in
  let ms := substring 5 2 s in
  let ds := substring 8 2 s in
  if (String.length s =? 10)%nat
     && String.eqb (substring 4 1 s) "-" && String.eqb (substring 7 1 s) "-"
     && all_digits ys && all_digits ms && all_digits ds
  then
    let y := number_of ys in
    let m := number_of ms in
    let d := number_of ds in
    if (1 <=? m) && (m <=? 12) && (1 <=? d) && (d <=? days_in_month y m)
       && civil_leb pandas_min (y, m, d) && civil_leb (y, m, d) pandas_max
    then Some (y, m, d)
    else None
  else None.

(** [series.dt.year] and [series.dt.strftime("%Y-%m")] on one cell. *)
Definition year_of (c : civil) : Z := let '(y, _, _) := c in y.
Definition strftime_Ym (c : civil) : string :=
  let '(y, m, _) := c in (of_int_pad 4 y ++ "-" ++ of_int_pad 2 m)%string.

End Dates.

(* ===================================================================== *)
(** ** Data model *)
(* ===================================================================== *)

Module Data.
Import Float.

(** One dict appended by [collect_daily_rows]. *)
Record daily_row : Type := mk_daily {
  bridgeId : Z;
  bridgeName : string;
  date : string;
  depositUSD : float;
  withdrawUSD : float;
  totalUSD : float;
  netUSD : float
}.

(** One line of the data frame [main] builds from the daily rows: the date
    parsed by pandas ([None] is NaT) and the derived [year] and [month]
    columns ([None] is NaN). *)
Record frame_row : Type := mk_frame {
  f_bridgeId : Z;
  f_bridgeName : string;
  f_date : option Dates.civil;
  f_year : option Z;
  f_month : option string;
  f_depositUSD : float;
  f_withdrawUSD : float;
  f_totalUSD : float;
  f_netUSD : float
}.

(** One line of the monthly ([P] is [string]) or yearly ([P] is [Z]) table. *)
Record agg_row (P : Type) : Type := mk_agg {
  a_period : P;
  a_bridgeId : Z;
  a_bridgeName : string;
  a_depositUSD : float;
  a_withdrawUSD : float;
  a_totalUSD : float;
  a_netUSD : float
}.
Arguments mk_agg {P}.
Arguments a_period {P}.
Arguments a_bridgeId {P}.
Arguments a_bridgeName {P}.
Arguments a_depositUSD {P}.
Arguments a_withdrawUSD {P}.
Arguments a_totalUSD {P}.
Arguments a_netUSD {P}.

(** One line of a top-N table: the aggregate and its share of the period. *)
Record top_row (P : Type) : Type := mk_top {
  t_agg : agg_row P;
  t_shares : float
}.
Arguments mk_top {P}.
Arguments t_agg {P}.
Arguments t_shares {P}.

(** The columns written to a top-N CSV:
    period, bridgeId, bridgeName, totalUSD, netUSD, shares. *)
Definition top_csv_row (P : Type) : Type :=
  (P * Z * string * float * float * float)%type.

Definition top_csv_of {P : Type} (r : top_row P) : top_csv_row P :=
  (a_period (t_agg r), a_bridgeId (t_agg r), a_bridgeName (t_agg r),
   a_totalUSD (t_agg r), a_netUSD (t_agg r), t_shares r).

(** What a CSV file holds. *)
Inductive table : Type :=
| DailyCsv (rows : list daily_row)
| MonthlyCsv (rows : list (agg_row string))
| YearlyCsv (rows : list (agg_row Z))
| MonthlyTopCsv (rows : list (top_csv_row string))
| YearlyTopCsv (rows : list (top_csv_row Z)).

End Data.

(* ===================================================================== *)
(** ** Effects *)
(* ===================================================================== *)

Module IO.
Import Float Py Data.

(** What [requests.get] is called with. *)
Record request : Type := mk_request {
  req_url : string;
  req_params : params;
  req_timeout : Z;
  req_user_agent : string
}.

(** What one [requests.get(...)] / [raise_for_status()] / [r.json()] sequence
    comes to: an exception or the parsed body. *)
Inductive response : Type :=
| Failure (detail : string)
| Payload (body : json).

(** The remote service: the answer to the [k]-th request of the run. *)
Definition network : Type := nat -> request -> response.

(** Lines printed by the script, by print statement. *)
Inductive message : Type :=
| MsgFetchingOverview
| MsgCatalogFailed
| MsgLimit (max_bridges : Z)
| MsgProgress (i total : Z) (bridge_id : Z)
| MsgSkipped (bridge_id : Z) (cause : exn)
| MsgSaved (path : string)
| MsgNoRows
| MsgLastActiveMonth (month : string) (rows : list (top_row string))
| MsgTopLastYear (top_n : Z) (year : Z) (rows : list (top_row Z))
| MsgDone (outdir : string).

Inductive event : Type :=
| EGet (r : request)
| ESleep (secs : float)
| EStdout (m : message)
| EStderr (m : message)
| EMkdir (path : string)
| EWrite (path : string) (content : table).

(** The world is the chronological record of what happened so far. *)
Definition world : Type := list event.

Definition is_get (e : event) : bool :=
  match e with EGet _ => true | _ => false end.

(** Number of requests issued so far. *)
Definition requests_made (w : world) : nat := List.length (filter is_get w).

(** [sys.exit(code)] raises [SystemExit], which [except Exception] lets
    through; every other failure is an [exn]. *)
Inductive failure : Type :=
| Exception (e : exn)
| SystemExit (code : Z).

Inductive outcome (A : Type) : Type :=
| Return (a : A)
| Fail (f : failure).
Arguments Return {A} a.
Arguments Fail {A} f.

Definition M (A : Type) : Type := world -> outcome A * world.

Definition ret {A} (a : A) : M A := fun w => (Return a, w).

Definition bind {A B} (m : M A) (k : A -> M B) : M B :=
  fun w =>
    match m w with
    | (Return a, w') => k a w'
    | (Fail f, w') => (Fail f, w')
    end.

Definition raise {A} (e : exn) : M A := fun w => (Fail (Exception e), w).

Definition exit {A} (code : Z) : M A := fun w => (Fail (SystemExit code), w).

Definition lift {A} (r : result A) : M A :=
  match r with Ok a => ret a | Raise e => raise e end.

(** [try: m  except Exception as e: ...]: runs [m] and hands its
    [Exception], if any, to the handler as a value. *)
Definition attempt {A} (m : M A) : M (result A) :=
  fun w =>
    match m w with
    | (Return a, w') => (Return (Ok a), w')
    | (Fail (Exception e), w') => (Return (Raise e), w')
    | (Fail (SystemExit c), w') => (Fail (SystemExit c), w')
    end.

Definition emit (e : event) : M unit := fun w => (Return tt, w ++ [e]).

Definition print (m : message) : M unit := emit (EStdout m).
Definition print_err (m : message) : M unit := emit (EStderr m).

(** [time.sleep(secs)] refuses a negative or non-finite duration. *)
Definition sleep (secs : float) : M unit :=
  match secs with
  | Fin q => if qneg q then raise ValueError else emit (ESleep secs)
  | Inf _ => raise OverflowError
  | NaN => raise ValueError
  end.

Definition write_file (path : string) (content : table) : M unit :=
  emit (EWrite path content).

Definition mkdir (path : string) : M unit := emit (EMkdir path).

End IO.

Declare Scope io_scope.
Delimit Scope io_scope with io.
Notation "x <- m ;; k" := (IO.bind m (fun x => k))
  (at level 61, m at next level, right associativity) : io_scope.
Notation "m ;; k" := (IO.bind m (fun _ => k))
  (at level 61, right associativity) : io_scope.

Declare Scope res_scope.
Delimit Scope res_scope with res.
Notation "x <-- r ;; k" :=
  (match r with Py.Ok x => k | Py.Raise e => Py.Raise e end)
  (at level 61, r at next level, right associativity) : res_scope.

(* ===================================================================== *)
(** ** Retrieval: [http_get_json] and the two loaders *)
(* ===================================================================== *)

Module Fetch.
Import Float Py Data IO.
Local Open Scope io_scope.

Definition BRIDGES_URL : string := "https://bridges.llama.fi/bridges".
Definition BRIDGE_VOLUME_URL : string :=
  "https://bridges.llama.fi/bridgevolume/all".

Definition TIMEOUT : Z := 90.
Definition USER_AGENT : string := "defillama-bridges-topn/1.0 (+no-tracking)".

(** [requests.get(url, params=params, timeout=90, headers=headers)] *)
Definition get_request (url : string) (p : params) : request :=
  {| req_url := url; req_params := p;
     req_timeout := TIMEOUT; req_user_agent := USER_AGENT |}.

Definition DEFAULT_MAX_RETRIES : Z := 5.
Definition DEFAULT_INITIAL_DELAY : float := of_Q (4 # 10).

(** [range(lo, hi)] *)
Definition range (lo hi : Z) : list Z :=
  map (fun k => lo + Z.of_nat k) (seq 0 (Z.to_nat (hi - lo))).

Section WithNetwork.
Variable net : network.

(** The body of the [try] in [http_get_json]: one request, answered by the
    network according to how many requests came before. *)
Definition http_get (url : string) (p : params) : M json :=
  fun w =>
    let r := get_request url p in
    match net (requests_made w) r with
    | Payload body => (Return body, w ++ [EGet r])
    | Failure d => (Fail (Exception (TransportError d)), w ++ [EGet r])
    end.

(** The [for attempt in range(1, max_retries + 1)] loop with its two loop
    variables [delay] and [last_exc]; running out of attempts, or the
    [break] of the last attempt, reaches the final [raise RuntimeError]. *)
Fixpoint retry_loop (url : string) (p : params) (max_retries : Z)
    (attempts : list Z) (delay : float) (last_exc : option exn) : M json :=
  match attempts with
  | [] => raise (GetFailed url p last_exc)
  | n :: rest =>
      r <- attempt (http_get url p) ;;
      match r with
      | Ok body => ret body
      | Raise e =>
          if n =? max_retries then raise (GetFailed url p (Some e))
          else
            sleep delay ;;
            retry_loop url p max_retries rest
                       (fmin (fmul delay (of_Z 2)) (of_Z 8)) (Some e)
      end
  end.

Definition http_get_json (url : string) (p : params)
    (max_retries : Z) (initial_delay : float) : M json :=
  retry_loop url p max_retries (range 1 (max_retries + 1)) initial_delay None.

Definition fetch_bridges_overview : M json :=
  data <- http_get_json BRIDGES_URL None
                        DEFAULT_MAX_RETRIES DEFAULT_INITIAL_DELAY ;;
  match data with
  | JObj fields =>
      match assoc "bridges" fields with
      | Some v => ret v
      | None => raise (UnexpectedCatalog BRIDGES_URL data)
      end
  | _ => raise (UnexpectedCatalog BRIDGES_URL data)
  end.

(** ["date" in v]: key of a dict, substring of a string, element of a list;
    the other JSON values are not containers. *)
Definition has_date (v : json) : result bool :=
  match v with
  | JObj fields =>
      Ok (match assoc "date" fields with Some _ => true | None => false end)
  | JStr s => Ok (PyStr.contains "date" s)
  | JArr items =>
      Ok (existsb (fun x => match x with
                            | JStr s => String.eqb s "date"
                            | _ => false
                            end) items)
  | _ => Raise TypeError
  end.

Definition fetch_bridge_daily_all (bridge_id : Z) : M (list json) :=
  data <- http_get_json BRIDGE_VOLUME_URL (Some [("id", bridge_id)])
                        DEFAULT_MAX_RETRIES DEFAULT_INITIAL_DELAY ;;
  match data with
  | JArr items =>
      match items with
      | [] => raise (NoDateField bridge_id [])
      | first :: _ =>
          ok <- lift (has_date first) ;;
          if ok then ret items
          else raise (NoDateField bridge_id (firstn 2 items))
      end
  | _ => raise (UnexpectedHistory bridge_id data)
  end.

End WithNetwork.
End Fetch.

(* ===================================================================== *)
(** ** [collect_daily_rows] *)
(* ===================================================================== *)

Module Collect.
Import Float Py Data IO Fetch.

(** [name_map]: a dict from bridge id to display name, in insertion order. *)
Definition name_map : Type := list (Z * string).

Fixpoint name_get (m : name_map) (bid : Z) : option string :=
  match m with
  | [] => None
  | (k, v) :: rest => if k =? bid then Some v else name_get rest bid
  end.

(** [m[bid] = v] *)
Fixpoint name_set (m : name_map) (bid : Z) (v : string) : name_map :=
  match m with
  | [] => [(bid, v)]
  | (k, old) :: rest =>
      if k =? bid then (k, v) :: rest else (k, old) :: name_set rest bid v
  end.

(** [f"bridge-{bid}"] *)
Definition fallback_name (bid : Z) : string :=
  ("bridge-" ++ PyStr.of_int bid)%string.

(** [name_map.get(bid, f"bridge-{bid}")] *)
Definition display_name (m : name_map) (bid : Z) : string :=
  match name_get m bid with Some v => v | None => fallback_name bid end.

(** [try: ts = int(nz(r.get("date"), 0))  except Exception: ts = 0] *)
Definition timestamp_of (r : json) : Z :=
  match get r "date" with
  | Ok v => match int_of (nz v (JInt 0)) with Ok z => z | Raise _ => 0 end
  | Raise _ => 0
  end.

(** [dt.datetime.utcfromtimestamp(ts).date().isoformat()]: years past 9999
    are refused (with a [ValueError], or for huge values an [OSError] or
    [OverflowError] depending on the platform; the model raises
    [ValueError] within a 64-bit [time_t] and [OverflowError] beyond). *)
Definition utcfromtimestamp_iso (ts : Z) : result string :=
  if ts <=? Dates.max_timestamp then Ok (Dates.isoformat (Dates.utc_date ts))
  else if ts <? 2 ^ 63 then Raise ValueError
  else Raise OverflowError.

Definition EPOCH_DATE : string := "1970-01-01".

(** [... if ts > 0 else "1970-01-01"] *)
Definition date_iso_of (ts : Z) : result string :=
  if 0 <? ts then utcfromtimestamp_iso ts else Ok EPOCH_DATE.

(** The body of [for r in hist]: the dict appended for one raw record, or
    the exception that leaves the loop. *)
Definition row_of_record (names : name_map) (bid : Z) (r : json)
  : result daily_row :=
  (let ts := timestamp_of r in
   date_iso <-- date_iso_of ts ;;
   dv <-- get r "depositUSD" ;;
   dep <-- to_float (nz dv (JInt 0)) ;;
   wv <-- get r "withdrawUSD" ;;
   wd <-- to_float (nz wv (JInt 0)) ;;
   Ok {| bridgeId := bid;
         bridgeName := display_name names bid;
         date := date_iso;
         depositUSD := dep;
         withdrawUSD := wd;
         totalUSD := fadd dep wd;
         netUSD := fsub dep wd |})%res.

(** [for r in hist: ... rows.append(...)]: [rows] is the shared list, so the
    rows appended before an exception stay in it. *)
Fixpoint append_rows (names : name_map) (bid : Z) (hist : list json)
    (rows : list daily_row) : list daily_row * option exn :=
  match hist with
  | [] => (rows, None)
  | r :: rest =>
      match row_of_record names bid r with
      | Ok row => append_rows names bid rest (rows ++ [row])
      | Raise e => (rows, Some e)
      end
  end.

Local Open Scope io_scope.

(** [if delay_ms and delay_ms > 0: time.sleep(delay_ms / 1000.0)] *)
Definition pace (delay_ms : Z) : M unit :=
  if negb (delay_ms =? 0) && (0 <? delay_ms) then
    d <- lift (float_of_int delay_ms) ;;
    sleep (fdiv d (of_Z 1000))
  else ret tt.

Section WithNetwork.
Variable net : network.

(** [for i, bid in enumerate(ids_all, start=1)] with the list [rows] it
    grows. *)
Fixpoint collect_loop (names : name_map) (delay_ms : Z) (total : Z)
    (i : Z) (ids : list Z) (rows : list daily_row) : M (list daily_row) :=
  match ids with
  | [] => ret rows
  | bid :: rest =>
      print (MsgProgress i total bid) ;;
      loaded <- attempt (fetch_bridge_daily_all net bid) ;;
      rows' <- match loaded with
               | Ok hist =>
                   match append_rows names bid hist rows with
                   | (rows1, None) => ret rows1
                   | (rows1, Some e) => print_err (MsgSkipped bid e) ;; ret rows1
                   end
               | Raise e => print_err (MsgSkipped bid e) ;; ret rows
               end ;;
      pace delay_ms ;;
      collect_loop names delay_ms total (i + 1) rest rows'
  end.

Definition collect_daily_rows (ids_all : list Z) (names : name_map)
    (delay_ms : Z) : M (list daily_row) :=
  collect_loop names delay_ms (Z.of_nat (List.length ids_all)) 1 ids_all [].

End WithNetwork.
End Collect.

(* ===================================================================== *)
(** ** The pandas pipeline: filtering, aggregation, top-N and shares *)
(* ===================================================================== *)

Module Frame.
Import Float Py Data.

(** A period column: month strings (ordered as strings) or years. *)
Class Period (P : Type) : Type := { pcmp : P -> P -> comparison }.

#[export] Instance month_period : Period string := {| pcmp := String.compare |}.
#[export] Instance year_period : Period Z := {| pcmp := Z.compare |}.

(** [df = pd.DataFrame(rows)] followed by the three column assignments
    [date], [year] and [month]. *)
Definition frame_of_row (r : daily_row) : frame_row :=
  let d := Dates.to_datetime (date r) in
  {| f_bridgeId := bridgeId r;
     f_bridgeName := bridgeName r;
     f_date := d;
     f_year := option_map Dates.year_of d;
     f_month := option_map Dates.strftime_Ym d;
     f_depositUSD := depositUSD r;
     f_withdrawUSD := withdrawUSD r;
     f_totalUSD := totalUSD r;
     f_netUSD := netUSD r |}.

Definition build_frame (rows : list daily_row) : list frame_row :=
  map frame_of_row rows.

(** One cell of [df["month"] >= start_month]; a NaN month compares false. *)
Definition month_ge (start_month : string) (r : frame_row) : bool :=
  match f_month r with
  | Some m => String.leb start_month m
  | None => false
  end.

(** One cell of [df["month"] <= end_month]. *)
Definition month_le (end_month : string) (r : frame_row) : bool :=
  match f_month r with
  | Some m => String.leb m end_month
  | None => false
  end.

(** [if args.start_month: df = df[...]] and [if args.end_month: df = df[...]]:
    an empty string is falsy and leaves the frame as it is. *)
Definition filter_months (start_month end_month : string)
    (df : list frame_row) : list frame_row :=
  let df1 :=
    if negb (String.eqb start_month "") then filter (month_ge start_month) df
    else df in
  if negb (String.eqb end_month "") then filter (month_le end_month) df1
  else df1.

(** [df[col] = pd.to_numeric(df[col], errors="coerce").fillna(0.0)] for the
    four USD columns. *)
Definition clean_row (r : frame_row) : frame_row :=
  {| f_bridgeId := f_bridgeId r;
     f_bridgeName := f_bridgeName r;
     f_date := f_date r;
     f_year := f_year r;
     f_month := f_month r;
     f_depositUSD := fillna zero (f_depositUSD r);
     f_withdrawUSD := fillna zero (f_withdrawUSD r);
     f_totalUSD := fillna zero (f_totalUSD r);
     f_netUSD := fillna zero (f_netUSD r) |}.

Definition clean_numeric (df : list frame_row) : list frame_row :=
  map clean_row df.

(** A pandas sum skips NaN cells. *)
Definition nanadd (acc x : float) : float :=
  if is_nan x then acc else fadd acc x.

Definition nansum (l : list float) : float := fold_left nanadd l zero.

(** The plain left-to-right sum. *)
Definition fsum (l : list float) : float := fold_left fadd l zero.

Section Tables.
Context {P : Type} `{Period P}.

Definition peqb (a b : P) : bool :=
  match pcmp a b with Eq => true | _ => false end.

(** *** [groupby([bridgeId, bridgeName, period]).agg(sum)] *)

Definition key : Type := (Z * string * P)%type.

Definition key_cmp (a b : key) : comparison :=
  let '(i1, n1, p1) := a in
  let '(i2, n2, p2) := b in
  match i1 ?= i2 with
  | Eq => match String.compare n1 n2 with
          | Eq => pcmp p1 p2
          | c => c
          end
  | c => c
  end.

Definition agg_key (g : agg_row P) : key :=
  (a_bridgeId g, a_bridgeName g, a_period g).

Definition new_group (k : key) (r : frame_row) : agg_row P :=
  let '(i, n, p) := k in
  {| a_period := p;
     a_bridgeId := i;
     a_bridgeName := n;
     a_depositUSD := nanadd zero (f_depositUSD r);
     a_withdrawUSD := nanadd zero (f_withdrawUSD r);
     a_totalUSD := nanadd zero (f_totalUSD r);
     a_netUSD := nanadd zero (f_netUSD r) |}.

Definition add_to_group (g : agg_row P) (r : frame_row) : agg_row P :=
  {| a_period := a_period g;
     a_bridgeId := a_bridgeId g;
     a_bridgeName := a_bridgeName g;
     a_depositUSD := nanadd (a_depositUSD g) (f_depositUSD r);
     a_withdrawUSD := nanadd (a_withdrawUSD g) (f_withdrawUSD r);
     a_totalUSD := nanadd (a_totalUSD g) (f_totalUSD r);
     a_netUSD := nanadd (a_netUSD g) (f_netUSD r) |}.

(** Adds one frame line to its group; groups are kept in key order, which
    is the order [groupby(..., sort=True)] returns them in. *)
Fixpoint upsert (k : key) (r : frame_row) (groups : list (agg_row P))
  : list (agg_row P) :=
  match groups with
  | [] => [new_group k r]
  | g :: rest =>
      match key_cmp k (agg_key g) with
      | Eq => add_to_group g r :: rest
      | Lt => new_group k r :: groups
      | Gt => g :: upsert k r rest
      end
  end.

(** Lines whose period is NaN belong to no group ([dropna=True]). *)
Definition groupby_sum (period_of : frame_row -> option P)
    (df : list frame_row) : list (agg_row P) :=
  fold_left
    (fun groups r =>
       match period_of r with
       | Some p => upsert (f_bridgeId r, f_bridgeName r, p) r groups
       | None => groups
       end)
    df [].

(** *** [sort_values([period, "totalUSD"], ascending=[True, False])] *)

(** Descending order on totals with NaN last: [x] comes strictly first. *)
Definition total_before (x y : float) : bool :=
  match x, y with
  | NaN, _ => false
  | _, NaN => true
  | _, _ => fltb y x
  end.

Definition row_before (a b : agg_row P) : bool :=
  match pcmp (a_period a) (a_period b) with
  | Lt => true
  | Gt => false
  | Eq => total_before (a_totalUSD a) (a_totalUSD b)
  end.

(** The sort is stable: a line goes in front of the lines it ties with,
    which came after it in the table. *)
Fixpoint insert_sorted (x : agg_row P) (l : list (agg_row P))
  : list (agg_row P) :=
  match l with
  | [] => [x]
  | y :: l' => if row_before y x then y :: insert_sorted x l' else x :: l
  end.

Fixpoint sort_values (l : list (agg_row P)) : list (agg_row P) :=
  match l with
  | [] => []
  | x :: l' => insert_sorted x (sort_values l')
  end.

(** *** [groupby(period, sort=False).head(n)] *)

Definition same_period (a b : agg_row P) : bool :=
  peqb (a_period a) (a_period b).

(** Number of lines of [l] in the period of [r]. *)
Definition group_count (r : agg_row P) (l : list (agg_row P)) : Z :=
  Z.of_nat (List.length (filter (same_period r) l)).

(** A line is kept when its position inside its group is below [n]; for a
    negative [n], below the group size plus [n] (all but the last [-n]
    lines of each group, as pandas does since version 1.4).  [seen] holds
    the lines already passed. *)
Fixpoint head_from (n : Z) (whole seen l : list (agg_row P))
  : list (agg_row P) :=
  match l with
  | [] => []
  | r :: rest =>
      let limit := if 0 <=? n then n else group_count r whole + n in
      if group_count r seen <? limit
      then r :: head_from n whole (seen ++ [r]) rest
      else head_from n whole (seen ++ [r]) rest
  end.

Definition head (n : Z) (l : list (agg_row P)) : list (agg_row P) :=
  head_from n l [] l.

Definition top_n_per_period (df : list (agg_row P)) (top_n : Z)
  : list (agg_row P) :=
  head top_n (sort_values df).

(** *** Period totals, the left merge and the shares *)

Fixpoint add_total (p : P) (x : float) (totals : list (P * float))
  : list (P * float) :=
  match totals with
  | [] => [(p, nanadd zero x)]
  | (q, s) :: rest =>
      match pcmp p q with
      | Eq => (q, nanadd s x) :: rest
      | Lt => (p, nanadd zero x) :: totals
      | Gt => (q, s) :: add_total p x rest
      end
  end.

(** [table.groupby(period, as_index=False)["totalUSD"].sum()] *)
Definition period_totals (table : list (agg_row P)) : list (P * float) :=
  fold_left (fun acc r => add_total (a_period r) (a_totalUSD r) acc) table [].

(** The cell a left merge on the period brings in; NaN without a match. *)
Fixpoint lookup_total (p : P) (totals : list (P * float)) : float :=
  match totals with
  | [] => NaN
  | (q, s) :: rest => if peqb p q then s else lookup_total p rest
  end.

(** [((total / period_total) * 100.0).fillna(0.0).round(2)] on one line. *)
Definition share (total period_total : float) : float :=
  round2 (fillna zero (fmul (fdiv total period_total) (of_Z 100))).

(** [top.merge(totals, on=period, how="left")], the [shares] column, and
    the drop of the merged column. *)
Definition with_shares (top : list (agg_row P)) (totals : list (P * float))
  : list (top_row P) :=
  map (fun r => {| t_agg := r;
                   t_shares := share (a_totalUSD r)
                                     (lookup_total (a_period r) totals) |})
      top.

(** The top-N table of [main]: sort, head, merge with the totals of the
    whole table, shares. *)
Definition top_n_with_shares (table : list (agg_row P)) (top_n : Z)
  : list (top_row P) :=
  with_shares (head top_n (sort_values table)) (period_totals table).

End Tables.

Definition aggregate_monthly_yearly (df : list frame_row)
  : list (agg_row string) * list (agg_row Z) :=
  let monthly := groupby_sum f_month df in
  let yearly := groupby_sum f_year df in
  (monthly, sort_values yearly).

End Frame.

(* ===================================================================== *)
(** ** [main] *)
(* ===================================================================== *)

Module Main.
Import Float Py Data IO Fetch Collect Frame.

(** The namespace [parse_args] returns. *)
Record args : Type := mk_args {
  max_bridges : Z;
  delay_ms : Z;
  outdir : string;
  start_month : string;
  end_month : string;
  top_n : Z
}.

Definition DEFAULT_TOP_N : Z := 5.
Definition DEFAULT_START_MONTH : string := "2022-10".
Definition DEFAULT_END_MONTH : string := "2025-08".

Definition default_args : args :=
  {| max_bridges := 0;
     delay_ms := 200;
     outdir := ".";
     start_month := DEFAULT_START_MONTH;
     end_month := DEFAULT_END_MONTH;
     top_n := DEFAULT_TOP_N |}.

(** The exit statuses of the two [sys.exit] calls. *)
Definition EXIT_NO_CATALOG : Z := 2.
Definition EXIT_NO_ROWS : Z := 1.

(** [outdir / name] *)
Definition path_join (dir name : string) : string :=
  (dir ++ "/" ++ name)%string.

Definition daily_csv (a : args) : string :=
  path_join (outdir a) "all_bridges_daily.csv".
Definition monthly_csv (a : args) : string :=
  path_join (outdir a) "bridges_monthly.csv".
Definition yearly_csv (a : args) : string :=
  path_join (outdir a) "bridges_yearly.csv".
Definition monthly_top_csv (a : args) : string :=
  path_join (outdir a)
    ("bridges_monthly_top_" ++ PyStr.of_int (top_n a) ++ ".csv")%string.
Definition yearly_top_csv (a : args) : string :=
  path_join (outdir a)
    ("bridges_yearly_top_" ++ PyStr.of_int (top_n a) ++ ".csv")%string.

(** [for b in overview]: what iterating a JSON value yields. *)
Definition iterate (v : json) : result (list json) :=
  match v with
  | JArr items => Ok items
  | JObj fields => Ok (map (fun kv => JStr (fst kv)) fields)
  | JStr s =>
      Ok (map (fun c => JStr (String c EmptyString)) (list_ascii_of_string s))
  | _ => Raise TypeError
  end.

(** The text of a name field.  [name_map] is declared [Dict[int, str]]: a
    field that holds no string is read as absent. *)
Definition text_of (v : json) : string :=
  match v with JStr s => s | _ => "" end.

(** [b.get("displayName") or b.get("name") or b.get("slug") or
    f"bridge-{bid}"] *)
Definition display_of (b : json) (bid : Z) : result string :=
  (dn <-- get b "displayName" ;;
   if negb (String.eqb (text_of dn) "") then Ok (text_of dn)
   else
     nm <-- get b "name" ;;
     if negb (String.eqb (text_of nm) "") then Ok (text_of nm)
     else
       sl <-- get b "slug" ;;
       if negb (String.eqb (text_of sl) "") then Ok (text_of sl)
       else Ok (fallback_name bid))%res.

(** The loop filling [ids_all] and [name_map]. *)
Fixpoint catalog_loop (items : list json) (ids : list Z) (names : name_map)
  : result (list Z * name_map) :=
  match items with
  | [] => Ok (ids, names)
  | b :: rest =>
      (idv <-- get b "id" ;;
       bid <-- int_of idv ;;
       disp <-- display_of b bid ;;
       catalog_loop rest (ids ++ [bid]) (name_set names bid disp))%res
  end.

(** [save_csv]: creates the parent directory, then writes the file. *)
Definition save_csv (parent path : string) (rows : list daily_row) : M unit :=
  (mkdir parent ;; write_file path (DailyCsv rows))%io.

(** The data frame handed to [aggregate_monthly_yearly]. *)
Definition prepare_frame (a : args) (rows : list daily_row) : list frame_row :=
  clean_numeric
    (filter_months (start_month a) (end_month a) (build_frame rows)).

(** The greatest month among the lines with a positive total, if any. *)
Definition last_active_month (monthly : list (agg_row string))
  : option string :=
  fold_left
    (fun best r =>
       if fltb zero (a_totalUSD r) then
         match best with
         | Some m => if String.ltb m (a_period r) then Some (a_period r)
                     else best
         | None => Some (a_period r)
         end
       else best)
    monthly None.

(** The greatest year of a top-N table, if the table has a line. *)
Definition last_year (top : list (top_row Z)) : option Z :=
  fold_left
    (fun best r =>
       match best with
       | Some y => Some (Z.max y (a_period (t_agg r)))
       | None => Some (a_period (t_agg r))
       end)
    top None.

Local Open Scope io_scope.

(** The closing console report.  The printed lines are those of the top-N
    table for the period, which already come in descending order of total. *)
Definition report (a : args) (monthly : list (agg_row string))
    (monthly_top_n : list (top_row string)) (yearly_top_n : list (top_row Z))
  : M unit :=
  match last_active_month monthly with
  | Some m =>
      print (MsgLastActiveMonth m
               (filter (fun r => String.eqb (a_period (t_agg r)) m)
                       monthly_top_n))
  | None => ret tt
  end ;;
  match last_year yearly_top_n with
  | Some y =>
      print (MsgTopLastYear (top_n a) y
               (filter (fun r => a_period (t_agg r) =? y) yearly_top_n))
  | None => ret tt
  end ;;
  print (MsgDone (outdir a)).

(** Everything [main] does once it holds a non-empty list of daily rows. *)
Definition aggregate_and_write (a : args) (rows : list daily_row) : M unit :=
  let df := prepare_frame a rows in
  let '(monthly, yearly) := aggregate_monthly_yearly df in
  write_file (monthly_csv a) (MonthlyCsv monthly) ;;
  write_file (yearly_csv a) (YearlyCsv yearly) ;;
  print (MsgSaved (monthly_csv a)) ;;
  print (MsgSaved (yearly_csv a)) ;;
  let monthly_top_n := top_n_with_shares monthly (top_n a) in
  write_file (monthly_top_csv a) (MonthlyTopCsv (map top_csv_of monthly_top_n)) ;;
  print (MsgSaved (monthly_top_csv a)) ;;
  let yearly_top_n := top_n_with_shares yearly (top_n a) in
  write_file (yearly_top_csv a) (YearlyTopCsv (map top_csv_of yearly_top_n)) ;;
  print (MsgSaved (yearly_top_csv a)) ;;
  report a monthly monthly_top_n yearly_top_n.

Section WithNetwork.
Variable net : network.

(** The first part of [main]: the catalog, [ids_all] and [name_map]. *)
Definition load_catalog (a : args) : M (list Z * name_map) :=
  mkdir (outdir a) ;;
  print MsgFetchingOverview ;;
  overview <- fetch_bridges_overview net ;;
  if negb (truthy overview) then
    print_err MsgCatalogFailed ;; exit EXIT_NO_CATALOG
  else
    items <- lift (iterate overview) ;;
    cat <- lift (catalog_loop items [] []) ;;
    let '(ids_all, names) := cat in
    if negb (max_bridges a =? 0) && (0 <? max_bridges a) then
      print (MsgLimit (max_bridges a)) ;;
      ret (firstn (Z.to_nat (max_bridges a)) ids_all, names)
    else ret (ids_all, names).

Definition main (a : args) : M unit :=
  cat <- load_catalog a ;;
  let '(ids_all, names) := cat in
  rows <- collect_daily_rows net ids_all names (delay_ms a) ;;
  save_csv (outdir a) (daily_csv a) rows ;;
  print (MsgSaved (daily_csv a)) ;;
  match rows with
  | [] => print_err MsgNoRows ;; exit EXIT_NO_ROWS
  | _ :: _ => aggregate_and_write a rows
  end.

End WithNetwork.

(** The files written in a run, in order. *)
Fixpoint files_written (w : world) : list string :=
  match w with
  | [] => []
  | EWrite path _ :: rest => path :: files_written rest
  | _ :: rest => files_written rest
  end.

(** The exit status the interpreter reports for a run of [main]: the
    argument of [sys.exit], 1 for an uncaught exception, 0 otherwise. *)
Definition exit_status (o : outcome unit) : Z :=
  match o with
  | Return _ => 0
  | Fail (SystemExit c) => c
  | Fail (Exception _) => 1
  end.

End Main.

(* ===================================================================== *)
(** ** Specification vocabulary *)
(* ===================================================================== *)

Module Spec.
Import Float Py Data IO Fetch Collect Frame Main.

(** *** Daily rows *)


(** *** Effects *)

(** An action only appends events, and every event it appends satisfies
    [Q]. *)
Definition emits {A} (Q : event -> Prop) (m : M A) : Prop :=
  forall w, exists s, snd (m w) = w ++ s /\ Forall Q s.

(** Anything but the writing of a file. *)
Definition not_a_write (e : event) : Prop :=
  match e with EWrite _ _ => False | _ => True end.

(** *** Retries *)

(** The delay after one more failure: doubled, capped at 8 seconds. *)
Definition next_delay (d : float) : float := fmin (fmul d (of_Z 2)) (of_Z 8).

(** The delay slept after the failure number [k], counting from 0. *)
Definition delay_at (d0 : float) (k : nat) : float := Nat.iter k next_delay d0.

(** The events of [k] failed attempts, each followed by its sleep. *)
Fixpoint failed_rounds (r : request) (d : float) (k : nat) : list event :=
  match k with
  | O => []
  | S k' => EGet r :: ESleep d :: failed_rounds r (next_delay d) k'
  end.

(** The durations slept in a run. *)
Fixpoint sleeps (w : world) : list float :=
  match w with
  | [] => []
  | ESleep d :: rest => d :: sleeps rest
  | _ :: rest => sleeps rest
  end.

(** A finite, non-negative duration or amount. *)
Definition nonneg (x : float) : Prop := exists q, x = Fin q /\ (0 <= q)%Qc.

(** The requests number [n0] to [n0 + k - 1] for [r] all fail. *)
Definition failing (net : network) (r : request) (n0 k : nat) : Prop :=
  forall j, (j < k)%nat -> exists d, net (n0 + j)%nat r = Failure d.

(** *** Periods and tables *)

(** The laws of a period order: a strict total order whose [Eq] is
    equality. *)
Class PeriodLaws (P : Type) `{Period P} : Prop := {
  pcmp_eq : forall a b : P, pcmp a b = Eq <-> a = b;
  pcmp_antisym : forall a b : P, pcmp b a = CompOpp (pcmp a b);
  pcmp_lt_trans :
    forall a b c : P, pcmp a b = Lt -> pcmp b c = Lt -> pcmp a c = Lt
}.


(** A frame column and the aggregate column [groupby_sum] fills from it. *)
Record summed {P : Type} (fcol : frame_row -> float)
    (acol : agg_row P -> float) : Prop := {
  summed_new : forall k r, acol (new_group k r) = nanadd zero (fcol r);
  summed_add : forall g r, acol (add_to_group g r) = nanadd (acol g) (fcol r)
}.


Section Tables.
Context {P : Type} `{Period P}.

(** The lines of a table that belong to period [p]. *)
Definition in_period (p : P) (g : agg_row P) : bool := peqb (a_period g) p.





(** Number of lines of the table in period [p]. *)
Definition rows_in_period (p : P) (table : list (agg_row P)) : Z :=
  Z.of_nat (List.length (filter (in_period p) table)).

(** [x] is in the period of [r] and its total is strictly greater. *)
Definition exceeds (r x : agg_row P) : bool :=
  same_period r x && fltb (a_totalUSD r) (a_totalUSD x).

(** Number of lines of the table whose total strictly exceeds that of [r]
    in the period of [r]. *)
Definition exceeded_by (r : agg_row P) (table : list (agg_row P)) : Z :=
  Z.of_nat (List.length (filter (exceeds r) table)).

(** The total volume of period [p]: the pandas sum of [totalUSD] over every
    line of the table in that period. *)
Definition period_total (table : list (agg_row P)) (p : P) : float :=
  nansum (map a_totalUSD (filter (in_period p) table)).



(** [a] does not come strictly after [b] in the order of [sort_values]. *)
Definition not_after (a b : agg_row P) : Prop := row_before b a = false.

End Tables.
End Spec.

(* ===================================================================== *)
(** ** Concrete runs *)
(* ===================================================================== *)

Module Scenario.
Import Float Py Data IO Fetch Collect Frame Main.

(** A raw daily record. *)
Definition record (ts : json) (dep wd : json) : json :=
  JObj [("date", ts); ("depositUSD", dep); ("withdrawUSD", wd)].

Definition bridge (id : Z) (name : string) : json :=
  JObj [("id", JInt id); ("name", JStr name)].

Definition catalog (bridges : list json) : json :=
  JObj [("bridges", JArr bridges)].

(** 2023-01-01, 2023-01-02 and 2023-01-03 at midnight UTC. *)
Definition jan1 : Z := 1672531200.
Definition jan2 : Z := 1672617600.
Definition jan3 : Z := 1672704000.

(** Two bridges with histories in January 2023: A totals 100, B totals 300. *)
Definition net_AB : network := fun _ r =>
  match req_params r with
  | None => Payload (catalog [bridge 1 "A"; bridge 2 "B"])
  | Some [(_, 1)] => Payload (JArr [record (JInt jan1) (JInt 60) (JStr "40")])
  | Some [(_, 2)] =>
      Payload (JArr [record (JInt jan2) (JInt 100) (JInt 100);
                     record (JInt jan3) (JStr "1e2") JNull])
  | _ => Failure "unknown bridge"
  end.

Definition names_AB : name_map := [(1, "A"); (2, "B")].

Definition args_top1 : args :=
  {| max_bridges := 0; delay_ms := 0; outdir := "out";
     start_month := "2022-10"; end_month := "2025-08"; top_n := 1 |}.



(** A service that never answers. *)
Definition net_down : network := fun _ _ => Failure "connection refused".

(** Three bridges; the history of bridge 2 is an object, not a list. *)
Definition net_iso : network := fun _ r =>
  match req_params r with
  | None => Payload (catalog [bridge 1 "A"; bridge 2 "B"; bridge 3 "C"])
  | Some [(_, 1)] => Payload (JArr [record (JInt jan1) (JInt 60) (JInt 40)])
  | Some [(_, 2)] => Payload (JObj [("error", JStr "not found")])
  | Some [(_, 3)] => Payload (JArr [record (JInt jan2) (JInt 7) (JInt 3)])
  | _ => Failure "unknown bridge"
  end.

Definition names_iso : name_map := [(1, "A"); (2, "B"); (3, "C")].

(** One bridge in the catalog whose history is an empty list. *)
Definition net_norows : network := fun _ r =>
  match req_params r with
  | None => Payload (catalog [bridge 1 "A"])
  | _ => Payload (JArr [])
  end.



(** A record dated one day before the epoch. *)
Definition record_1969 : json := record (JInt (-86400)) (JInt 1) (JInt 2).

Definition agg (month : string) (id : Z) (name : string) (total : Z)
  : agg_row string :=
  {| a_period := month; a_bridgeId := id; a_bridgeName := name;
     a_depositUSD := of_Z total; a_withdrawUSD := zero;
     a_totalUSD := of_Z total; a_netUSD := of_Z total |}.

(** A monthly table with three bridges in one month. *)
Definition table3 : list (agg_row string) :=
  [agg "2023-01" 1 "A" 100; agg "2023-01" 2 "B" 300; agg "2023-01" 3 "C" 200].

(** A frame line of the given month. *)
Definition line (month : string) : frame_row :=
  {| f_bridgeId := 1; f_bridgeName := "A";
     f_date := None; f_year := None; f_month := Some month;
     f_depositUSD := zero; f_withdrawUSD := zero;
     f_totalUSD := zero; f_netUSD := zero |}.


Fixpoint written_monthly_top (w : world) : list (top_csv_row string) :=
  match w with
  | [] => []
  | EWrite _ (MonthlyTopCsv rows) :: _ => rows
  | _ :: rest => written_monthly_top rest
  end.

(** What a run leaves behind. *)
Definition rows_of (o : outcome (list daily_row)) : list daily_row :=
  match o with Return rows => rows | Fail _ => [] end.

End Scenario.
(* ===================================================================== *)
(** ** Further vocabulary *)
(* ===================================================================== *)

Module Props.
Import Float Py Data IO Fetch Collect Frame Main Spec.

(** An action that never ends in [SystemExit]. *)
Definition never_exits {A} (m : M A) : Prop :=
  forall w c w', m w <> (Fail (SystemExit c), w').

(** The rows of one bridge: its id and the display name the map gives it. *)
Definition row_of_bridge (names : name_map) (bid : Z) (row : daily_row) : Prop :=
  bridgeId row = bid /\ bridgeName row = display_name names bid.

(** The request [fetch_bridge_daily_all] sends for a bridge, and the one
    [fetch_bridges_overview] sends. *)
Definition history_request (bid : Z) : request :=
  get_request BRIDGE_VOLUME_URL (Some [("id", bid)]).

Definition catalog_request : request := get_request BRIDGES_URL None.





Section Tables.
Context {P : Type} `{Period P}.

(** A table in strictly ascending order of its grouping key. *)
Definition key_ascending (table : list (agg_row P)) : Prop :=
  StronglySorted (fun a b => key_cmp (agg_key a) (agg_key b) = Lt) table.

(** The grouping key of a frame line, if its period is not NaN. *)
Definition frame_key (period_of : frame_row -> option P) (r : frame_row)
  : option key :=
  option_map (fun p => (f_bridgeId r, f_bridgeName r, p)) (period_of r).

(** Two lines the sort does not tell apart: the same period, and equal
    totals or two NaN. *)
Definition tied (a b : agg_row P) : bool :=
  negb (row_before a b) && negb (row_before b a).

(** The number of leading lines of period [p] that [head] keeps. *)
Definition head_limit (n : Z) (p : P) (table : list (agg_row P)) : Z :=
  if 0 <=? n then n else rows_in_period p table + n.

(** The frame line belongs to the group of key [k]. *)
Definition has_key (period_of : frame_row -> option P) (k : key)
    (r : frame_row) : bool :=
  match period_of r with
  | Some p =>
      match key_cmp (f_bridgeId r, f_bridgeName r, p) k with
      | Eq => true
      | _ => false
      end
  | None => false
  end.

(** The pandas sum of a column over the frame lines of one group. *)
Definition group_sum (fcol : frame_row -> float)
    (period_of : frame_row -> option P) (k : key) (df : list frame_row)
  : float :=
  nansum (map fcol (filter (has_key period_of k) df)).

(** The state of the grouping after the lines [seen]: the groups are in
    key order, their keys are those met so far, and the column [acol] of
    each holds the sum of [fcol] over the lines of its key. *)
Definition grouped (period_of : frame_row -> option P)
    (fcol : frame_row -> float) (acol : agg_row P -> float)
    (groups : list (agg_row P)) (seen : list frame_row) : Prop :=
  key_ascending groups /\
  (forall k, In k (map agg_key groups)
             <-> exists r, In r seen /\ frame_key period_of r = Some k) /\
  (forall g, In g groups ->
             acol g = group_sum fcol period_of (agg_key g) seen).

End Tables.

(** The month lies inside the window the arguments ask for; an empty bound
    is no bound. *)
Definition in_window (a : args) (m : string) : Prop :=
  (start_month a = "" \/ String.leb (start_month a) m = true) /\
  (end_month a = "" \/ String.leb m (end_month a) = true).

(** A line of the monthly table with a positive total. *)
Definition active (r : agg_row string) : bool := fltb zero (a_totalUSD r).





(** One of the two requests of the script: the one for the catalog or the
    one for the history of some bridge. *)
Definition known_request (r : request) : Prop :=
  r = catalog_request \/ exists bid, r = history_request bid.

(** Any event but a request of another kind. *)
Definition expected (e : event) : Prop :=
  match e with EGet r => known_request r | _ => True end.

End Props.


(* ===================================================================== *)
(** * Properties *)
(* ===================================================================== *)

(** Closes goals that compare evaluated structures holding rationals: the
    canonical-form proofs inside [Qc] values are compared through
    [Qc_is_canon]. *)
Ltac qc_refl :=
  vm_compute;
  repeat (first [ reflexivity
                | apply Qc_is_canon; vm_compute; reflexivity
                | progress f_equal ]).

(** ** Numeric coercion *)

Module CoerceFacts.
Import PyStr Float Py.

(** For a non-blank string, [to_float] is the first candidate that parses,
    in the order of the source, and 0.0 when none does. *)
Lemma to_float_first_candidate (x : string) :
  strip x <> "" ->
  to_float (JStr x)
  = Ok (match first_float (candidates (strip x)) with
        | Some f => f
        | None => zero
        end).
Proof.
  intros Hx. unfold to_float.
  destruct (String.eqb_spec (strip x) "") as [E|_]; [contradiction|].
  destruct (first_float _); reflexivity.
Qed.

Lemma to_float_blank (x : string) : strip x = "" -> to_float (JStr x) = Ok zero.
Proof. intros Hx. unfold to_float. now rewrite Hx. Qed.

(** C1 (evaluation of the code at the spec's test values).  Four of the
    five values are as the spec gives them.  For ["1,234.56"] the first
    candidate does not parse, the second one (dots removed, comma turned
    into a dot) is ["1.23456"] and parses, so [to_float] returns 1.23456;
    the third candidate, which would read 1234.56, is never tried. *)
Theorem to_float_test_values :
  to_float (JStr "1.234,56") = Ok (of_Q (123456 # 100)) /\
  to_float (JStr "") = Ok zero /\
  to_float JNull = Ok zero /\
  to_float (JStr "abc") = Ok zero /\
  candidates "1,234.56" = ["1,234.56"; "1.23456"; "1234.56"] /\
  float_of_string "1,234.56" = None /\
  float_of_string "1.23456" = Some (of_Q (123456 # 100000)) /\
  float_of_string "1234.56" = Some (of_Q (123456 # 100)) /\
  to_float (JStr "1,234.56") = Ok (of_Q (123456 # 100000)) /\
  to_float (JStr "1,234.56") <> Ok (of_Q (123456 # 100)).
Proof.
  repeat split; try qc_refl.
  intro H.
  apply (f_equal (fun r => match r with
                           | Ok (Fin q) => Qeq_bool q (123456 # 100)
                           | _ => false
                           end)) in H.
  vm_compute in H. discriminate.
Qed.

(** The grammar of [float(s)] and [int(s)] on a few strings. *)
Example float_of_string_samples :
  float_of_string "1_000" = Some (of_Z 1000) /\
  float_of_string " -.5e1 " = Some (of_Z (-5)) /\
  float_of_string "1." = Some (of_Z 1) /\
  float_of_string "+Infinity" = Some (Inf false) /\
  float_of_string "-nan" = Some NaN /\
  float_of_string "1e400" = Some (Inf false) /\
  float_of_string "." = None /\
  float_of_string "1e" = None /\
  float_of_string "1__0" = None /\
  float_of_string "1 2" = None /\
  float_of_string "0x10" = None.
Proof. repeat split; qc_refl. Qed.

Example int_of_string_samples :
  int_of_string " 00012 " = Some 12 /\
  int_of_string "-1_000" = Some (-1000) /\
  int_of_string "+7" = Some 7 /\
  int_of_string "1.5" = None /\
  int_of_string "1e5" = None /\
  int_of_string "" = None /\
  int_of_string "_1" = None.
Proof. repeat split; reflexivity. Qed.

End CoerceFacts.

(** ** Dates *)

Module DateFacts.
Import Dates.

(** A day before the epoch lies in a year before 1970. *)
Lemma before_epoch (d : Z) : d < 0 -> year_of (civil_from_days d) < 1970.
Proof.
  intros H. unfold civil_from_days, year_of.
  set (z := d + 719468).
  set (era := z / 146097).
  set (doe := z - era * 146097).
  set (yoe := (doe - doe / 1460 + doe / 36524 - doe / 146096) / 365).
  set (doy := doe - (365 * yoe + yoe / 4 - yoe / 100)).
  set (mp := (5 * doy + 2) / 153).
  cbv zeta.
  assert (Hz : z < 719468) by (unfold z; lia).
  assert (He : era <= 4) by (unfold era; Z.div_mod_to_equations; lia).
  assert (Hd : 0 <= doe < 146097)
    by (unfold doe, era; Z.div_mod_to_equations; lia).
  assert (Hy : 0 <= yoe <= 399) by (unfold yoe; Z.div_mod_to_equations; lia).
  destruct (Z.eq_dec era 4) as [E4|N4].
  - assert (Hd2 : doe <= 135079) by (unfold doe; lia).
    assert (Hy2 : yoe <= 369) by (unfold yoe; Z.div_mod_to_equations; lia).
    destruct (Z.eq_dec yoe 369) as [E|N].
    + assert (Hdoy : doy <= 305) by (unfold doy; rewrite E; simpl; lia).
      assert (Hdoy0 : 0 <= doy).
      { unfold doy. rewrite E. simpl. unfold yoe in E.
        Z.div_mod_to_equations. lia. }
      assert (Hmp : mp < 10) by (unfold mp; Z.div_mod_to_equations; lia).
      assert (Hmp0 : 0 <= mp) by (unfold mp; Z.div_mod_to_equations; lia).
      destruct (mp <? 10) eqn:E1; [|apply Z.ltb_ge in E1; lia].
      destruct (mp + 3 <=? 2) eqn:E2; [apply Z.leb_le in E2; lia|]. lia.
    + destruct (_ <=? 2); lia.
  - destruct (_ <=? 2); lia.
Qed.

Lemma negative_timestamp_year (ts : Z) : ts < 0 -> year_of (utc_date ts) < 1970.
Proof.
  intros H. unfold utc_date. apply before_epoch.
  Z.div_mod_to_equations. lia.
Qed.

Example epoch_date_parses :
  to_datetime Collect.EPOCH_DATE = Some (1970, 1, 1) /\
  isoformat (1970, 1, 1) = Collect.EPOCH_DATE.
Proof. split; reflexivity. Qed.

Example known_dates :
  isoformat (utc_date 1664582400) = "2022-10-01" /\
  isoformat (utc_date 1664582399) = "2022-09-30" /\
  isoformat (utc_date 951782400) = "2000-02-29" /\
  isoformat (utc_date 4107542400) = "2100-03-01" /\
  isoformat (utc_date (-1)) = "1969-12-31".
Proof. repeat split; reflexivity. Qed.

End DateFacts.

(** ** Effects *)

Module IOFacts.
Import Float Py Data IO Fetch Collect Main Spec.

Lemma bind_cases {A B} (m : M A) (k : A -> M B) w :
  (exists a w', m w = (Return a, w') /\ bind m k w = k a w') \/
  (exists f w', m w = (Fail f, w') /\ bind m k w = (Fail f, w')).
Proof.
  unfold bind. destruct (m w) as [[a|f] w'].
  - left. eauto.
  - right. eauto.
Qed.

Section Emits.
Variable Q : event -> Prop.

Lemma emits_ret {A} (a : A) : emits Q (ret a).
Proof. intros w. exists []. simpl. now rewrite app_nil_r. Qed.

Lemma emits_raise {A} e : emits Q (@raise A e).
Proof. intros w. exists []. simpl. now rewrite app_nil_r. Qed.

Lemma emits_exit {A} c : emits Q (@exit A c).
Proof. intros w. exists []. simpl. now rewrite app_nil_r. Qed.

Lemma emits_emit e : Q e -> emits Q (emit e).
Proof. intros He w. exists [e]. split; [reflexivity | now constructor]. Qed.

Lemma emits_bind {A B} (m : M A) (k : A -> M B) :
  emits Q m -> (forall a, emits Q (k a)) -> emits Q (bind m k).
Proof.
  intros Hm Hk w. unfold bind. destruct (Hm w) as (s & Hs & Hq).
  destruct (m w) as [[a|f] w1]; simpl in *; subst w1.
  - destruct (Hk a (w ++ s)) as (s' & Hs' & Hq'). exists (s ++ s').
    rewrite Hs', app_assoc. split; [reflexivity | now apply Forall_app].
  - eauto.
Qed.

Lemma emits_lift {A} (r : result A) : emits Q (lift r).
Proof. destruct r; [apply emits_ret | apply emits_raise]. Qed.

Lemma emits_attempt {A} (m : M A) : emits Q m -> emits Q (attempt m).
Proof.
  intros Hm w. destruct (Hm w) as (s & Hs & Hq). exists s. unfold attempt.
  destruct (m w) as [[a|[e|c]] w1]; simpl in *; auto.
Qed.

Hypothesis Q_get : forall r, Q (EGet r).
Hypothesis Q_sleep : forall d, Q (ESleep d).
Hypothesis Q_out : forall m, Q (EStdout m).
Hypothesis Q_err : forall m, Q (EStderr m).
Hypothesis Q_mkdir : forall p, Q (EMkdir p).

Lemma emits_sleep d : emits Q (sleep d).
Proof.
  unfold sleep. destruct d as [q|s|]; [destruct (qneg q)|..];
    auto using emits_raise, emits_emit.
Qed.

Lemma emits_http_get net url p : emits Q (http_get net url p).
Proof.
  intros w. unfold http_get. exists [EGet (get_request url p)].
  destruct (net _ _); simpl; auto.
Qed.

Lemma emits_retry_loop net url p max_retries attempts :
  forall delay last,
  emits Q (retry_loop net url p max_retries attempts delay last).
Proof.
  induction attempts as [|n rest IH]; intros delay last; simpl.
  - apply emits_raise.
  - apply emits_bind; [apply emits_attempt, emits_http_get|].
    intros [body|e]; [apply emits_ret|].
    destruct (n =? max_retries); [apply emits_raise|].
    apply emits_bind; [apply emits_sleep|]. intros _. apply IH.
Qed.

Lemma emits_fetch_bridge_daily_all net bid :
  emits Q (fetch_bridge_daily_all net bid).
Proof.
  unfold fetch_bridge_daily_all, http_get_json.
  apply emits_bind; [apply emits_retry_loop|].
  intros data. destruct data; try apply emits_raise.
  destruct items; [apply emits_raise|].
  apply emits_bind; [apply emits_lift|].
  intros [|]; [apply emits_ret | apply emits_raise].
Qed.

Lemma emits_fetch_bridges_overview net : emits Q (fetch_bridges_overview net).
Proof.
  unfold fetch_bridges_overview, http_get_json.
  apply emits_bind; [apply emits_retry_loop|].
  intros data. destruct data; try apply emits_raise.
  destruct (assoc _ _); [apply emits_ret | apply emits_raise].
Qed.

Lemma emits_pace delay_ms : emits Q (pace delay_ms).
Proof.
  unfold pace. destruct (_ && _); [|apply emits_ret].
  apply emits_bind; [apply emits_lift|]. intros d. apply emits_sleep.
Qed.

Lemma emits_collect_loop net names delay_ms total ids :
  forall i rows, emits Q (collect_loop net names delay_ms total i ids rows).
Proof.
  induction ids as [|bid ids IH]; intros i rows; simpl.
  - apply emits_ret.
  - apply emits_bind; [apply emits_emit, Q_out|]. intros _.
    apply emits_bind; [apply emits_attempt, emits_fetch_bridge_daily_all|].
    intros loaded. apply emits_bind.
    + destruct loaded as [hist|e].
      * destruct (append_rows names bid hist rows) as [rows1 [e|]].
        -- apply emits_bind; [apply emits_emit, Q_err|]. intros _.
           apply emits_ret.
        -- apply emits_ret.
      * apply emits_bind; [apply emits_emit, Q_err|]. intros _.
        apply emits_ret.
    + intros rows'. apply emits_bind; [apply emits_pace|]. intros _. apply IH.
Qed.

Lemma emits_load_catalog net a : emits Q (load_catalog net a).
Proof.
  unfold load_catalog.
  apply emits_bind; [apply emits_emit, Q_mkdir|]. intros _.
  apply emits_bind; [apply emits_emit, Q_out|]. intros _.
  apply emits_bind; [apply emits_fetch_bridges_overview|]. intros overview.
  destruct (negb (truthy overview)).
  - apply emits_bind; [apply emits_emit, Q_err|]. intros _. apply emits_exit.
  - apply emits_bind; [apply emits_lift|]. intros items.
    apply emits_bind; [apply emits_lift|]. intros [ids names].
    destruct (_ && _); [|apply emits_ret].
    apply emits_bind; [apply emits_emit, Q_out|]. intros _. apply emits_ret.
Qed.

End Emits.

Lemma emits_run {A} Q (m : M A) w o w' :
  emits Q m -> m w = (o, w') -> exists s, w' = w ++ s /\ Forall Q s.
Proof.
  intros Hm H. destruct (Hm w) as (s & Hs & Hq). rewrite H in Hs. eauto.
Qed.

Lemma files_written_app w1 w2 :
  files_written (w1 ++ w2) = files_written w1 ++ files_written w2.
Proof.
  induction w1 as [|e w1 IH]; simpl; auto.
  destruct e; simpl; auto. now rewrite IH.
Qed.

Lemma files_written_quiet s : Forall not_a_write s -> files_written s = [].
Proof.
  induction 1 as [|e s He _ IH]; simpl; auto.
  destruct e; auto. contradiction.
Qed.

(** An action that writes no file leaves the list of written files as it
    was. *)
Lemma quiet_run {A} (m : M A) w o w' :
  emits not_a_write m -> m w = (o, w') -> files_written w' = files_written w.
Proof.
  intros Hm H. destruct (emits_run _ _ _ _ _ Hm H) as (s & -> & Hs).
  rewrite files_written_app, (files_written_quiet _ Hs). apply app_nil_r.
Qed.

End IOFacts.

(** ** The retry policy of [http_get_json] *)

Module FetchFacts.
Import Float Py Data IO Fetch Spec IOFacts.

Lemma requests_made_app w1 w2 :
  requests_made (w1 ++ w2) = (requests_made w1 + requests_made w2)%nat.
Proof. unfold requests_made. rewrite filter_app, length_app. reflexivity. Qed.


Ltac rm_norm :=
  repeat rewrite requests_made_app in *;
  unfold requests_made in *; simpl in *.

Lemma range_nil lo hi : hi <= lo -> range lo hi = [].
Proof.
  intros H. unfold range. replace (Z.to_nat (hi - lo)) with O by lia.
  reflexivity.
Qed.

Lemma range_cons lo hi : lo < hi -> range lo hi = lo :: range (lo + 1) hi.
Proof.
  intros H. unfold range.
  replace (Z.to_nat (hi - lo)) with (S (Z.to_nat (hi - (lo + 1)))) by lia.
  simpl. f_equal; [lia|].
  rewrite <- seq_shift, map_map. apply map_ext. intros k. lia.
Qed.


Lemma qneg_nonneg q : (0 <= q)%Qc -> qneg q = false.
Proof.
  intros H. unfold qneg. destruct (q ?= Q2Qc 0)%Qc eqn:E; auto.
  apply Qclt_alt in E. exfalso. apply (Qcle_not_lt _ _ H). exact E.
Qed.

Lemma sleep_nonneg d w : nonneg d -> sleep d w = (Return tt, w ++ [ESleep d]).
Proof.
  intros (q & -> & Hq). unfold sleep. rewrite (qneg_nonneg q Hq). reflexivity.
Qed.

Lemma next_delay_nonneg d : nonneg d -> nonneg (next_delay d).
Proof.
  intros (q & -> & Hq). unfold next_delay, fmin, fmul, of_Z. simpl.
  destruct (qltb _ _).
  - eexists. split; [reflexivity|]. discriminate.
  - eexists. split; [reflexivity|].
    replace 0%Qc with (0 * Q2Qc (inject_Z 2))%Qc by ring.
    apply Qcmult_le_compat_r; auto. discriminate.
Qed.

Lemma sleep_requests d w : requests_made (snd (sleep d w)) = requests_made w.
Proof.
  unfold sleep. destruct d as [q|s|]; simpl; auto.
  destruct (qneg q); simpl; auto. rm_norm. lia.
Qed.



Section WithNetwork.
Variable net : network.
Variables (url : string) (p : params).
Let r := get_request url p.

Lemma http_get_payload w body :
  net (requests_made w) r = Payload body ->
  http_get net url p w = (Return body, w ++ [EGet r]).
Proof. intros H. unfold http_get. fold r. rewrite H. reflexivity. Qed.

Lemma http_get_failure w d :
  net (requests_made w) r = Failure d ->
  http_get net url p w
  = (Fail (Exception (TransportError d)), w ++ [EGet r]).
Proof. intros H. unfold http_get. fold r. rewrite H. reflexivity. Qed.

(** The three ways one turn of the loop can go. *)
Lemma retry_step_payload max_retries n rest delay last w body :
  net (requests_made w) r = Payload body ->
  retry_loop net url p max_retries (n :: rest) delay last w
  = (Return body, w ++ [EGet r]).
Proof.
  intros H. simpl. unfold bind, attempt.
  rewrite (http_get_payload _ _ H). reflexivity.
Qed.

Lemma retry_step_last max_retries rest delay last w d :
  net (requests_made w) r = Failure d ->
  retry_loop net url p max_retries (max_retries :: rest) delay last w
  = (Fail (Exception (GetFailed url p (Some (TransportError d)))),
     w ++ [EGet r]).
Proof.
  intros H. simpl. unfold bind, attempt. rewrite (http_get_failure _ _ H).
  rewrite Z.eqb_refl. reflexivity.
Qed.

Lemma retry_step_again max_retries n rest delay last w d :
  net (requests_made w) r = Failure d -> n <> max_retries -> nonneg delay ->
  retry_loop net url p max_retries (n :: rest) delay last w
  = retry_loop net url p max_retries rest (next_delay delay)
      (Some (TransportError d)) (w ++ [EGet r; ESleep delay]).
Proof.
  intros H Hn Hd. simpl. unfold bind at 1, attempt.
  rewrite (http_get_failure _ _ H).
  apply Z.eqb_neq in Hn. rewrite Hn.
  unfold bind. rewrite (sleep_nonneg _ _ Hd).
  rewrite <- app_assoc. reflexivity.
Qed.

Lemma requests_made_round w delay :
  requests_made (w ++ [EGet r; ESleep delay]) = S (requests_made w).
Proof. rewrite requests_made_app. unfold requests_made. simpl. lia. Qed.




Lemma retry_loop_bounded max_retries attempts : forall delay last w,
  (requests_made (snd (retry_loop net url p max_retries attempts delay last w))
   <= requests_made w + List.length attempts)%nat.
Proof.
  induction attempts as [|n rest IH]; intros delay last w.
  - simpl. lia.
  - simpl. unfold bind at 1, attempt, http_get.
    destruct (net (requests_made w) _) as [d|body]; simpl.
    + destruct (n =? max_retries); simpl.
      * rm_norm; lia.
      * unfold bind.
        pose proof (sleep_requests delay
                      (w ++ [EGet (get_request url p)])) as Hs.
        destruct (sleep delay _) as [[[]|f] w1]; simpl in *.
        -- specialize (IH (fmin (fmul delay (of_Z 2)) (of_Z 8))
                           (Some (TransportError d)) w1).
           rewrite Hs in IH. rm_norm. lia.
        -- rewrite Hs. rm_norm. lia.
    + rm_norm; lia.
Qed.


End WithNetwork.


Import Scenario.

Lemma default_delay_nonneg : nonneg DEFAULT_INITIAL_DELAY.
Proof. eexists. split; [reflexivity | discriminate]. Qed.


(** The delays of the default policy: 0.4, 0.8, 1.6, 3.2, 6.4, 8, 8. *)
Example default_backoff :
  map (delay_at DEFAULT_INITIAL_DELAY) (seq 0 7)
  = [of_Q (4 # 10); of_Q (8 # 10); of_Q (16 # 10); of_Q (32 # 10);
     of_Q (64 # 10); of_Z 8; of_Z 8].
Proof. qc_refl. Qed.

(** A service that is down: five requests, four sleeps, then the terminal
    error with the last failure. *)
Example unreachable_service :
  let run := http_get_json net_down BRIDGES_URL None DEFAULT_MAX_RETRIES
                           DEFAULT_INITIAL_DELAY [] in
  fst run = Fail (Exception (GetFailed BRIDGES_URL None
                    (Some (TransportError "connection refused")))) /\
  requests_made (snd run) = 5%nat /\
  List.length (sleeps (snd run)) = 4%nat.
Proof. repeat split; vm_compute; reflexivity. Qed.

End FetchFacts.

(** ** The daily row collector *)

Module CollectFacts.
Import Float Py Data IO Fetch Collect Spec IOFacts.
Local Open Scope io_scope.

(** What a record turns into when it yields a row. *)
Lemma row_of_record_inv names bid r row :
  row_of_record names bid r = Ok row ->
  exists d dep wd,
    date_iso_of (timestamp_of r) = Ok d /\
    row = mk_daily bid (display_name names bid) d dep wd
                   (fadd dep wd) (fsub dep wd).
Proof.
  unfold row_of_record.
  destruct (date_iso_of _) as [d|]; [|discriminate].
  destruct (get r "depositUSD") as [dv|]; [|discriminate].
  destruct (to_float (nz dv _)) as [dep|]; [|discriminate].
  destruct (get r "withdrawUSD") as [wv|]; [|discriminate].
  destruct (to_float (nz wv _)) as [wd|]; [|discriminate].
  intros [= <-]. eauto.
Qed.


Lemma row_of_record_bridge names bid r row :
  row_of_record names bid r = Ok row -> bridgeId row = bid.
Proof.
  intros H. apply row_of_record_inv in H as (d & dep & wd & _ & ->).
  reflexivity.
Qed.

(** [append_rows] keeps the rows it is given and adds rows built by
    [row_of_record]. *)
Lemma append_rows_extends (Q : daily_row -> Prop) names bid :
  (forall r row, row_of_record names bid r = Ok row -> Q row) ->
  forall hist rows,
  exists extra,
    fst (append_rows names bid hist rows) = rows ++ extra /\ Forall Q extra.
Proof.
  intros HQ. induction hist as [|r hist IH]; intros rows; simpl.
  - exists []. rewrite app_nil_r. auto.
  - destruct (row_of_record names bid r) as [row|e] eqn:E.
    + destruct (IH (rows ++ [row])) as (extra & -> & HF).
      exists (row :: extra). rewrite <- app_assoc. simpl. split; auto.
      constructor; eauto.
    + exists []. rewrite app_nil_r. auto.
Qed.

Section Loop.
Variable net : network.
Variable names : name_map.
Variable delay_ms : Z.
Variable total : Z.

(** The rows the loop returns are the rows it started from followed by rows
    built by [row_of_record] for the ids it went through. *)
Lemma collect_loop_extends (Q : Z -> daily_row -> Prop) :
  (forall bid r row, row_of_record names bid r = Ok row -> Q bid row) ->
  forall ids i rows w out w',
  collect_loop net names delay_ms total i ids rows w = (Return out, w') ->
  exists extra,
    out = rows ++ extra /\
    Forall (fun row => exists bid, In bid ids /\ Q bid row) extra.
Proof.
  intros HQ. induction ids as [|bid ids IH]; intros i rows w out w' H.
  - simpl in H. injection H as <- <-. exists []. rewrite app_nil_r. auto.
  - simpl in H. unfold bind at 1 in H. simpl in H.
    unfold bind at 1 in H. unfold attempt at 1 in H.
    set (w1 := w ++ [EStdout (MsgProgress i total bid)]) in *.
    assert (Hstep : forall rows1 w2,
      (exists extra1, rows1 = rows ++ extra1 /\ Forall (Q bid) extra1) ->
      (pace delay_ms ;;
       collect_loop net names delay_ms total (i + 1) ids rows1) w2
      = (Return out, w') ->
      exists extra, out = rows ++ extra /\
        Forall (fun row => exists b, In b (bid :: ids) /\ Q b row) extra).
    { intros rows1 w2 (extra1 & -> & HF1) Hk.
      destruct (bind_cases (pace delay_ms)
                  (fun _ => collect_loop net names delay_ms total (i + 1) ids
                                         (rows ++ extra1)) w2)
        as [([] & w3 & _ & Hp)|(f & w3 & _ & Hp)];
        rewrite Hp in Hk; [|discriminate].
      apply IH in Hk as (extra & -> & HF).
      exists (extra1 ++ extra). rewrite app_assoc. split; auto.
      apply Forall_app. split.
      - eapply Forall_impl; [|exact HF1]. intros row Hrow.
        exists bid. simpl; auto.
      - eapply Forall_impl; [|exact HF]. intros row (b & Hb & Hrow).
        exists b. simpl; auto. }
    destruct (fetch_bridge_daily_all net bid w1) as [[hist|[e|c]] w2].
    + destruct (append_rows_extends (Q bid) names bid (HQ bid) hist rows)
        as (extra1 & Hx & HF1).
      destruct (append_rows names bid hist rows) as [rows1 [e|]];
        simpl in Hx; subst rows1.
      * unfold bind at 1 in H. simpl in H. eapply Hstep; eauto.
      * unfold bind at 1 in H. simpl in H. eapply Hstep; eauto.
    + unfold bind at 1 in H. simpl in H. unfold bind at 1 in H. simpl in H.
      eapply Hstep; [|exact H]. exists []. rewrite app_nil_r. auto.
    + discriminate.
Qed.

(** Going through [pre ++ rest] is going through [pre], then through [rest]
    from where [pre] left the rows and the world. *)
Lemma collect_loop_prefix pre : forall i rows0 w0 rows1 w1 rest,
  collect_loop net names delay_ms total i pre rows0 w0 = (Return rows1, w1) ->
  collect_loop net names delay_ms total i (pre ++ rest) rows0 w0
  = collect_loop net names delay_ms total
                 (i + Z.of_nat (List.length pre)) rest rows1 w1.
Proof.
  induction pre as [|bid pre IH]; intros i rows0 w0 rows1 w1 rest H.
  - simpl in H. injection H as <- <-. simpl. now rewrite Z.add_0_r.
  - replace (i + Z.of_nat (List.length (bid :: pre)))
      with ((i + 1) + Z.of_nat (List.length pre))
      by (simpl List.length; lia).
    simpl in *. unfold bind at 1. unfold bind at 1 in H.
    destruct (print _ w0) as [[[]|f] wa]; [|discriminate].
    unfold bind at 1. unfold bind at 1 in H.
    destruct (attempt _ wa) as [[loaded|f] wb]; [|discriminate].
    unfold bind at 1. unfold bind at 1 in H.
    match goal with
    | |- context [match ?m wb with _ => _ end] =>
        destruct (m wb) as [[rows'|f] wc]
    end; [|discriminate].
    unfold bind at 1. unfold bind at 1 in H.
    destruct (pace delay_ms wc) as [[[]|f] wd]; [|discriminate].
    apply IH. exact H.
Qed.

(** A bridge whose history cannot be loaded: a warning, no row, and on to
    the next bridge. *)
Lemma collect_loop_skip i bid post rows w e w2 :
  fetch_bridge_daily_all net bid (w ++ [EStdout (MsgProgress i total bid)])
  = (Fail (Exception e), w2) ->
  collect_loop net names delay_ms total i (bid :: post) rows w
  = (pace delay_ms ;;
     collect_loop net names delay_ms total (i + 1) post rows)
      (w2 ++ [EStderr (MsgSkipped bid e)]).
Proof.
  intros H. simpl. unfold bind at 1. simpl.
  unfold bind at 1. unfold attempt. rewrite H.
  unfold bind at 1. simpl. reflexivity.
Qed.

(** A bridge whose history loads: its records are turned into rows after
    the rows collected so far (with a warning if a record raises), and on
    to the next bridge. *)
Lemma collect_loop_load i bid post rows w hist w2 :
  fetch_bridge_daily_all net bid (w ++ [EStdout (MsgProgress i total bid)])
  = (Return hist, w2) ->
  collect_loop net names delay_ms total i (bid :: post) rows w
  = (pace delay_ms ;;
     collect_loop net names delay_ms total (i + 1) post
                  (fst (append_rows names bid hist rows)))
      (w2 ++ match snd (append_rows names bid hist rows) with
             | Some e => [EStderr (MsgSkipped bid e)]
             | None => []
             end).
Proof.
  intros H. simpl. unfold bind at 1. simpl.
  unfold bind at 1. unfold attempt. rewrite H.
  destruct (append_rows names bid hist rows) as [rows1 [e|]]; simpl.
  - unfold bind at 1. simpl. reflexivity.
  - unfold bind at 1. simpl. now rewrite app_nil_r.
Qed.

End Loop.


Lemma collected_rows_bridges net names delay_ms total ids i w out w' :
  collect_loop net names delay_ms total i ids [] w = (Return out, w') ->
  Forall (fun row => In (bridgeId row) ids) out.
Proof.
  intros H.
  apply (collect_loop_extends net names delay_ms total
           (fun bid row => bridgeId row = bid)) in H.
  - destruct H as (extra & -> & HF). simpl.
    eapply Forall_impl; [|exact HF]. intros row (b & Hb & <-). exact Hb.
  - intros bid r row. apply row_of_record_bridge.
Qed.

(** C9.  Let the history of [bid] fail to load, after the bridges [pre]
    gave the rows [rows1].  Then the collector warns about [bid] with the
    error, adds no row for it, and carries on with the bridges [post] from
    the rows [rows1]: the run is the run of the remaining bridges.  When it
    returns, its rows are [rows1] followed by rows of the bridges in
    [post], and no row bears the id [bid] unless the id occurs again in the
    list.  The rows of any bridge of the list whose history loads are in
    the result, right after the rows of the bridges before it. *)
Theorem failed_bridge_is_skipped net names delay_ms pre bid post
    w0 rows1 w1 e w2 :
  let ids := pre ++ bid :: post in
  let total := Z.of_nat (List.length ids) in
  let i := 1 + Z.of_nat (List.length pre) in
  collect_loop net names delay_ms total 1 pre [] w0 = (Return rows1, w1) ->
  fetch_bridge_daily_all net bid (w1 ++ [EStdout (MsgProgress i total bid)])
  = (Fail (Exception e), w2) ->
  collect_daily_rows net ids names delay_ms w0
  = (pace delay_ms ;;
     collect_loop net names delay_ms total (i + 1) post rows1)
      (w2 ++ [EStderr (MsgSkipped bid e)]) /\
  Forall (fun row => In (bridgeId row) pre) rows1 /\
  (forall rows w',
     collect_daily_rows net ids names delay_ms w0 = (Return rows, w') ->
     In (EStderr (MsgSkipped bid e)) w' /\
     (exists rows_post,
        rows = rows1 ++ rows_post /\
        Forall (fun row => In (bridgeId row) post) rows_post) /\
     (~ In bid pre -> ~ In bid post ->
      Forall (fun row => bridgeId row <> bid) rows)) /\
  (forall pre' b post' rows' w' hist w'' rows w,
     ids = pre' ++ b :: post' ->
     collect_loop net names delay_ms total 1 pre' [] w0 = (Return rows', w') ->
     fetch_bridge_daily_all net b
       (w' ++ [EStdout (MsgProgress (1 + Z.of_nat (List.length pre')) total b)])
     = (Return hist, w'') ->
     collect_daily_rows net ids names delay_ms w0 = (Return rows, w) ->
     exists rest,
       rows = fst (append_rows names b hist rows') ++ rest).
Proof.
  intros ids total i Hpre Hfail.
  assert (Hloaded : forall pre' b post' rows' w' hist w'' rows w,
     ids = pre' ++ b :: post' ->
     collect_loop net names delay_ms total 1 pre' [] w0 = (Return rows', w') ->
     fetch_bridge_daily_all net b
       (w' ++ [EStdout (MsgProgress (1 + Z.of_nat (List.length pre')) total b)])
     = (Return hist, w'') ->
     collect_daily_rows net ids names delay_ms w0 = (Return rows, w) ->
     exists rest,
       rows = fst (append_rows names b hist rows') ++ rest).
  { intros pre' b post' rows' w' hist w'' rows w Hids Hpre' Hload Hret.
    unfold collect_daily_rows in Hret.
    change (Z.of_nat (List.length ids)) with total in Hret.
    rewrite Hids in Hret.
    rewrite (collect_loop_prefix net names delay_ms total pre' 1 [] w0 rows' w'
               (b :: post') Hpre') in Hret.
    rewrite (collect_loop_load net names delay_ms total _ _ _ _ _ _ _ Hload)
      in Hret.
    match type of Hret with
    | (pace _ ;; ?k) ?wx = _ =>
        destruct (bind_cases (pace delay_ms) (fun _ => k) wx)
          as [([] & w3 & _ & Hb)|(f & w3 & _ & Hb)]
    end; rewrite Hb in Hret; [|discriminate].
    apply (collect_loop_extends net names delay_ms total (fun _ _ => True))
      in Hret; [|auto].
    destruct Hret as (extra & -> & _). eauto. }
  cut (collect_daily_rows net ids names delay_ms w0
       = (pace delay_ms ;;
          collect_loop net names delay_ms total (i + 1) post rows1)
           (w2 ++ [EStderr (MsgSkipped bid e)]) /\
       Forall (fun row => In (bridgeId row) pre) rows1 /\
       (forall rows w',
          collect_daily_rows net ids names delay_ms w0 = (Return rows, w') ->
          In (EStderr (MsgSkipped bid e)) w' /\
          (exists rows_post,
             rows = rows1 ++ rows_post /\
             Forall (fun row => In (bridgeId row) post) rows_post) /\
          (~ In bid pre -> ~ In bid post ->
           Forall (fun row => bridgeId row <> bid) rows))).
  { intros (H1 & H2 & H3).
    split; [exact H1|]. split; [exact H2|]. split; [exact H3 | exact Hloaded]. }
  assert (Hrun : collect_daily_rows net ids names delay_ms w0
                 = (pace delay_ms ;;
                    collect_loop net names delay_ms total (i + 1) post rows1)
                     (w2 ++ [EStderr (MsgSkipped bid e)])).
  { unfold collect_daily_rows.
    change (Z.of_nat (List.length ids)) with total. unfold ids.
    rewrite (collect_loop_prefix net names delay_ms total pre 1 [] w0 rows1 w1
               (bid :: post) Hpre).
    apply collect_loop_skip. exact Hfail. }
  pose proof (collected_rows_bridges _ _ _ _ _ _ _ _ _ Hpre) as Hrows1.
  split; [exact Hrun|]. split; [exact Hrows1|].
  intros rows w' Hret. rewrite Hrun in Hret.
  destruct (bind_cases (pace delay_ms)
              (fun _ => collect_loop net names delay_ms total (i + 1) post rows1)
              (w2 ++ [EStderr (MsgSkipped bid e)]))
    as [([] & w3 & Hp & Hb)|(f & w3 & _ & Hb)];
    rewrite Hb in Hret; [|discriminate].
  assert (Hpost : exists rows_post,
             rows = rows1 ++ rows_post /\
             Forall (fun row => In (bridgeId row) post) rows_post).
  { apply (collect_loop_extends net names delay_ms total
             (fun b row => bridgeId row = b)) in Hret.
    - destruct Hret as (extra & -> & HF). exists extra. split; auto.
      eapply Forall_impl; [|exact HF]. intros row (b & Hin & <-). exact Hin.
    - intros b r row. apply row_of_record_bridge. }
  split; [|split; [exact Hpost|]].
  - destruct (emits_run (fun _ => True) _ _ _ _
                (emits_pace _ (fun _ => I) delay_ms) Hp) as (s1 & -> & _).
    destruct (emits_run (fun _ => True) _ _ _ _
                (emits_collect_loop _ (fun _ => I) (fun _ => I) (fun _ => I)
                   (fun _ => I) net names delay_ms total post (i + 1) rows1)
                Hret) as (s2 & -> & _).
    apply in_or_app. left. apply in_or_app. left.
    apply in_or_app. right. now left.
  - intros Hn1 Hn2. destruct Hpost as (rows_post & -> & HF).
    apply Forall_app. split.
    + eapply Forall_impl; [|exact Hrows1]. intros row Hin E.
      apply Hn1. rewrite <- E. exact Hin.
    + eapply Forall_impl; [|exact HF]. intros row Hin E.
      apply Hn2. rewrite <- E. exact Hin.
Qed.

(** C10.  A record whose timestamp coerces to an integer that is zero or
    negative gets the date "1970-01-01"; for a negative timestamp that is
    not its calendar date, which lies in a year before 1970. *)
Theorem nonpositive_timestamp_gets_epoch names bid r :
  timestamp_of r <= 0 ->
  date_iso_of (timestamp_of r) = Ok EPOCH_DATE /\
  (forall row, row_of_record names bid r = Ok row -> date row = EPOCH_DATE) /\
  (timestamp_of r < 0 ->
   Dates.year_of (Dates.utc_date (timestamp_of r)) < 1970).
Proof.
  intros Hts.
  assert (Hd : date_iso_of (timestamp_of r) = Ok EPOCH_DATE).
  { unfold date_iso_of. destruct (0 <? timestamp_of r) eqn:E; auto.
    apply Z.ltb_lt in E. lia. }
  split; [exact Hd|]. split.
  - intros row Hrow.
    apply row_of_record_inv in Hrow as (d & dep & wd & Hd' & ->).
    rewrite Hd in Hd'. now injection Hd' as <-.
  - apply DateFacts.negative_timestamp_year.
Qed.

Import Scenario.


(** The isolation scenario of the spec: the history of bridge 2 is
    malformed; bridges 1 and 3 give their rows and none bears the id 2. *)
Lemma failed_bridge_is_skipped_witness :
  map bridgeId
      (rows_of (fst (collect_daily_rows net_iso [1; 2; 3] names_iso 0 [])))
  = [1; 3] /\
  In (EStderr (MsgSkipped 2
                 (UnexpectedHistory 2 (JObj [("error", JStr "not found")]))))
     (snd (collect_daily_rows net_iso [1; 2; 3] names_iso 0 [])) /\
  Forall (fun row => bridgeId row <> 2)
         (rows_of (fst (collect_daily_rows net_iso [1; 2; 3] names_iso 0 []))).
Proof.
  split; [vm_compute; reflexivity|].
  pose proof (failed_bridge_is_skipped net_iso names_iso 0 [1] 2 [3] []
                (rows_of (fst (collect_loop net_iso names_iso 0 3 1 [1] [] [])))
                (snd (collect_loop net_iso names_iso 0 3 1 [1] [] []))
                (UnexpectedHistory 2 (JObj [("error", JStr "not found")]))
                (snd (fetch_bridge_daily_all net_iso 2
                        (snd (collect_loop net_iso names_iso 0 3 1 [1] [] [])
                         ++ [EStdout (MsgProgress 2 3 2)]))))
    as H.
  cbv zeta in H.
  destruct H as (_ & _ & H & _); [vm_compute; reflexivity ..|].
  destruct (H (rows_of (fst (collect_daily_rows net_iso [1; 2; 3] names_iso 0 [])))
              (snd (collect_daily_rows net_iso [1; 2; 3] names_iso 0 [])))
    as (Hw & _ & Hn); [vm_compute; reflexivity|].
  split; [exact Hw|].
  apply Hn; simpl; intros [E|[]]; discriminate E.
Defined.

(** A record dated 1969-12-31 is filed under 1970-01-01. *)
Lemma nonpositive_timestamp_witness :
  timestamp_of record_1969 = -86400 /\
  Dates.isoformat (Dates.utc_date (-86400)) = "1969-12-31" /\
  option_map date
    (match row_of_record names_AB 1 record_1969 with
     | Ok row => Some row
     | Raise _ => None
     end) = Some "1970-01-01".
Proof.
  split; [reflexivity|]. split; [reflexivity|].
  destruct (row_of_record names_AB 1 record_1969) as [row|e] eqn:E.
  - simpl. f_equal.
    refine (proj1 (proj2 (nonpositive_timestamp_gets_epoch names_AB 1
                            record_1969 _)) row E).
    vm_compute. discriminate.
  - vm_compute in E. discriminate E.
Defined.

(** The [try] of the collector also covers the loop over the records: a
    record that raises after the first row of its bridge was appended
    leaves that row in the list, next to the warning. *)
Example malformed_record_keeps_earlier_rows :
  let hist := [record (JInt jan1) (JInt 1) (JInt 2); JStr "date"] in
  let net : network := fun _ _ => Payload (JArr hist) in
  map bridgeId (rows_of (fst (collect_daily_rows net [7] [] 0 []))) = [7] /\
  In (EStderr (MsgSkipped 7 AttributeError))
     (snd (collect_daily_rows net [7] [] 0 [])).
Proof. split; vm_compute; [reflexivity | right; right; left; reflexivity]. Qed.

End CollectFacts.

(** ** Float arithmetic *)

Module FloatFacts.
Import Float.

Lemma fadd_comm x y : fadd x y = fadd y x.
Proof.
  destruct x as [a|s|], y as [b|t|]; simpl; auto.
  - f_equal. ring.
  - destruct s, t; reflexivity.
Qed.

Lemma fadd_assoc x y z : fadd (fadd x y) z = fadd x (fadd y z).
Proof.
  destruct x as [a|s|], y as [b|t|], z as [c|u|]; simpl; auto;
    try (f_equal; ring);
    try (destruct s; try destruct t; try destruct u; reflexivity);
    try (destruct t; try destruct u; reflexivity).
Qed.

Lemma fadd_zero_l x : fadd zero x = x.
Proof. destruct x as [a|s|]; simpl; auto. f_equal. unfold zero. ring. Qed.

Lemma fadd_zero_r x : fadd x zero = x.
Proof. rewrite fadd_comm. apply fadd_zero_l. Qed.

End FloatFacts.


(** ** Aggregation *)

Module FrameFacts.
Import Float Py Data Frame Spec FloatFacts.

#[local] Arguments fadd : simpl never.
#[local] Arguments fsum : simpl never.
#[local] Arguments nanadd : simpl never.
#[local] Arguments zero : simpl never.


Lemma fold_fadd l : forall a, fold_left fadd l a = fadd a (fsum l).
Proof.
  unfold fsum. induction l as [|x l IH]; intros a; cbn [fold_left].
  - now rewrite fadd_zero_r.
  - rewrite IH, (IH (fadd zero x)), fadd_zero_l, fadd_assoc. reflexivity.
Qed.

Lemma fsum_nil : fsum [] = zero.
Proof. reflexivity. Qed.

Lemma fsum_cons x l : fsum (x :: l) = fadd x (fsum l).
Proof.
  unfold fsum at 1. cbn [fold_left].
  rewrite fold_fadd, fadd_zero_l. reflexivity.
Qed.

Lemma fsum_app l1 l2 : fsum (l1 ++ l2) = fadd (fsum l1) (fsum l2).
Proof.
  induction l1 as [|x l1 IH]; simpl.
  - now rewrite fsum_nil, fadd_zero_l.
  - now rewrite !fsum_cons, IH, fadd_assoc.
Qed.


Section Conservation.
Context {P : Type} `{PeriodLaws P}.


Lemma peqb_eq (p q : P) : peqb p q = true <-> p = q.
Proof.
  unfold peqb. split.
  - destruct (pcmp p q) eqn:E; try discriminate. intros _. now apply pcmp_eq.
  - intros ->. now rewrite (proj2 (pcmp_eq q q) eq_refl).
Qed.



Variables (fcol : frame_row -> float) (acol : agg_row P -> float).
Hypothesis Hcol : summed fcol acol.





End Conservation.
End FrameFacts.

(** ** Period orders *)

Module OrderFacts.
Import Float Py Data Frame Spec.

Lemma ascii_compare_lt_trans (a b c : ascii) :
  Ascii.compare a b = Lt -> Ascii.compare b c = Lt -> Ascii.compare a c = Lt.
Proof.
  unfold Ascii.compare. rewrite !N.compare_lt_iff. apply N.lt_trans.
Qed.

Lemma ascii_compare_refl (a : ascii) : Ascii.compare a a = Eq.
Proof. unfold Ascii.compare. apply N.compare_refl. Qed.

Lemma string_compare_refl (s : string) : String.compare s s = Eq.
Proof. induction s as [|c s IH]; simpl; auto. now rewrite ascii_compare_refl. Qed.

Lemma string_compare_lt_trans (a b c : string) :
  String.compare a b = Lt -> String.compare b c = Lt -> String.compare a c = Lt.
Proof.
  revert b c.
  induction a as [|x a IH]; intros [|y b] [|z c]; simpl;
    try discriminate; auto.
  destruct (Ascii.compare x y) eqn:Exy; try discriminate;
  destruct (Ascii.compare y z) eqn:Eyz; try discriminate; intros H1 H2.
  - apply Ascii.compare_eq_iff in Exy, Eyz. subst. rewrite ascii_compare_refl. eauto.
  - apply Ascii.compare_eq_iff in Exy. subst. now rewrite Eyz.
  - apply Ascii.compare_eq_iff in Eyz. subst. now rewrite Exy.
  - now rewrite (ascii_compare_lt_trans _ _ _ Exy Eyz).
Qed.

#[export] Instance month_laws : PeriodLaws string.
Proof.
  constructor; simpl.
  - intros a b. split; [apply String.compare_eq_iff|].
    intros ->. apply string_compare_refl.
  - intros a b. apply String.compare_antisym.
  - apply string_compare_lt_trans.
Qed.

#[export] Instance year_laws : PeriodLaws Z.
Proof.
  constructor; simpl.
  - apply Z.compare_eq_iff.
  - intros a b. apply Z.compare_antisym.
  - intros a b c. rewrite !Z.compare_lt_iff. apply Z.lt_trans.
Qed.

Lemma leb_empty (m : string) : String.leb "" m = true.
Proof. destruct m; reflexivity. Qed.

End OrderFacts.


(** ** Sorting *)

Module SortFacts.
Import Float Py Data Frame Spec FloatFacts FrameFacts.

Section Sorting.
Context {P : Type} `{PeriodLaws P}.

Lemma insert_sorted_perm (x : agg_row P) l : Permutation (insert_sorted x l) (x :: l).
Proof.
  induction l as [|y l IH]; simpl; auto.
  destruct (row_before y x); auto.
  etransitivity; [apply perm_skip, IH | apply perm_swap].
Qed.

Lemma sort_values_perm (l : list (agg_row P)) : Permutation (sort_values l) l.
Proof.
  induction l as [|x l IH]; simpl; auto.
  etransitivity; [apply insert_sorted_perm | apply perm_skip, IH].
Qed.


End Sorting.
End SortFacts.


(** ** Conservation of volume *)

Module ConservationFacts.
Import Float Py Data Frame Main Spec FloatFacts FrameFacts OrderFacts SortFacts.



Lemma summed_deposit P : @summed P f_depositUSD a_depositUSD.
Proof. split; [intros [[i n] p] r|]; reflexivity. Qed.
Lemma summed_withdraw P : @summed P f_withdrawUSD a_withdrawUSD.
Proof. split; [intros [[i n] p] r|]; reflexivity. Qed.
Lemma summed_total P : @summed P f_totalUSD a_totalUSD.
Proof. split; [intros [[i n] p] r|]; reflexivity. Qed.
Lemma summed_net P : @summed P f_netUSD a_netUSD.
Proof. split; [intros [[i n] p] r|]; reflexivity. Qed.






Import Scenario Collect.


End ConservationFacts.

(** ** Top-N ranking *)

Module RankFacts.
Import Float Py Data Frame Spec FloatFacts FrameFacts OrderFacts SortFacts.

Lemma qltb_lt a b : qltb a b = true <-> (a < b)%Qc.
Proof.
  unfold qltb. rewrite Qclt_alt. destruct (a ?= b)%Qc; split; congruence.
Qed.

Lemma fltb_irrefl x : fltb x x = false.
Proof.
  destruct x as [a|s|]; simpl; auto.
  - destruct (qltb a a) eqn:E; auto. apply qltb_lt in E. exfalso.
    exact (Qcle_not_lt a a (Qcle_refl a) E).
  - now destruct s.
Qed.

Lemma fltb_asym x y : fltb x y = true -> fltb y x = false.
Proof.
  destruct x as [a|[|]|], y as [b|[|]|]; simpl; intros E; try discriminate; auto.
  apply qltb_lt in E. destruct (qltb b a) eqn:E'; auto.
  apply qltb_lt in E'. exfalso. exact (Qclt_not_le a b E (Qclt_le_weak b a E')).
Qed.

(** If [x < z] then any [y] that is not NaN is above [x] or below [z]. *)
Lemma fltb_cotrans x y z :
  fltb x z = true -> is_nan y = false -> fltb y z = true \/ fltb x y = true.
Proof.
  destruct x as [a|[|]|], y as [b|[|]|], z as [c|[|]|]; simpl; intros E N;
    try discriminate; auto.
  apply qltb_lt in E. destruct (Qclt_le_dec b c) as [L|L].
  - left. now apply qltb_lt.
  - right. apply qltb_lt. eapply Qclt_le_trans; eauto.
Qed.

Lemma total_before_asym x y : total_before x y = true -> total_before y x = false.
Proof.
  destruct x as [a|s|], y as [b|t|]; unfold total_before; auto; try discriminate;
    apply fltb_asym.
Qed.

Lemma total_before_cotrans x y z :
  total_before z x = true -> total_before z y = true \/ total_before y x = true.
Proof.
  intros Hzx.
  destruct y as [b|t|]; [| |left; destruct z; auto; discriminate].
  - destruct x as [a|s|]; [| |right; reflexivity];
      (destruct z as [c|u|]; try discriminate; unfold total_before in *;
       destruct (fltb_cotrans _ (Fin b) _ Hzx eq_refl); auto).
  - destruct x as [a|s|]; [| |right; reflexivity];
      (destruct z as [c|u|]; try discriminate; unfold total_before in *;
       destruct (fltb_cotrans _ (Inf t) _ Hzx eq_refl); auto).
Qed.

Section Ranking.
Context {P : Type} `{PeriodLaws P}.

Lemma pcmp_refl (p : P) : pcmp p p = Eq.
Proof. now apply pcmp_eq. Qed.

Lemma pcmp_gt_lt (p q : P) : pcmp p q = Gt <-> pcmp q p = Lt.
Proof.
  rewrite (pcmp_antisym q p). destruct (pcmp q p); simpl; split; congruence.
Qed.

Lemma row_before_asym a b : row_before a b = true -> not_after a b.
Proof.
  unfold not_after, row_before. rewrite (pcmp_antisym (a_period a) (a_period b)).
  destruct (pcmp (a_period a) (a_period b)); simpl; auto; try discriminate.
  apply total_before_asym.
Qed.

Lemma not_after_trans a b c : not_after a b -> not_after b c -> not_after a c.
Proof.
  unfold not_after, row_before. intros Hab Hbc.
  destruct (pcmp (a_period b) (a_period a)) eqn:Eba; try discriminate;
  destruct (pcmp (a_period c) (a_period b)) eqn:Ecb; try discriminate.
  - apply pcmp_eq in Eba, Ecb. rewrite Ecb, Eba, pcmp_refl.
    destruct (total_before (a_totalUSD c) (a_totalUSD a)) eqn:E; auto.
    destruct (total_before_cotrans _ (a_totalUSD b) _ E); congruence.
  - apply pcmp_eq in Eba. rewrite <- Eba, Ecb. reflexivity.
  - apply pcmp_eq in Ecb. rewrite Ecb, Eba. reflexivity.
  - apply pcmp_gt_lt in Eba, Ecb.
    pose proof (pcmp_lt_trans _ _ _ Eba Ecb) as Hac.
    apply pcmp_gt_lt in Hac. now rewrite Hac.
Qed.

Lemma insert_sorted_sorted x l :
  StronglySorted not_after l -> StronglySorted not_after (insert_sorted x l).
Proof.
  induction l as [|y l IH]; intros Hs; simpl.
  - repeat constructor.
  - inversion Hs as [|? ? Hl Hy]; subst.
    destruct (row_before y x) eqn:E.
    + constructor; auto.
      eapply Permutation_Forall; [symmetry; apply insert_sorted_perm|].
      constructor; auto. now apply row_before_asym.
    + constructor; auto. constructor; auto.
      eapply Forall_impl; [|exact Hy]. intros z Hz.
      eapply not_after_trans; eauto.
Qed.

Lemma sort_values_sorted (l : list (agg_row P)) :
  StronglySorted not_after (sort_values l).
Proof.
  induction l as [|x l IH]; simpl; [constructor | now apply insert_sorted_sorted].
Qed.

Lemma same_period_eq (r x : agg_row P) :
  same_period r x = true <-> a_period r = a_period x.
Proof. apply peqb_eq. Qed.

Lemma group_count_same (r x : agg_row P) l :
  same_period r x = true -> group_count x l = group_count r l.
Proof.
  intros E. apply same_period_eq in E. unfold group_count, same_period. now rewrite E.
Qed.

Lemma group_count_snoc (r x : agg_row P) l :
  group_count r (l ++ [x]) = group_count r l + (if same_period r x then 1 else 0).
Proof.
  unfold group_count. rewrite filter_app, length_app. simpl.
  destruct (same_period r x); simpl; lia.
Qed.

Lemma group_count_cons (r x : agg_row P) l :
  group_count r (x :: l) = (if same_period r x then 1 else 0) + group_count r l.
Proof.
  unfold group_count. simpl.
  destruct (same_period r x); simpl List.length; lia.
Qed.

Lemma group_count_nonneg (r : agg_row P) l : 0 <= group_count r l.
Proof. unfold group_count. lia. Qed.

(** With a non-negative [n], a period keeps at most the [n] lines it still
    has room for. *)
Lemma head_from_count n whole (r : agg_row P) l : forall seen,
  0 <= n ->
  group_count r (head_from n whole seen l) <= Z.max 0 (n - group_count r seen).
Proof.
  induction l as [|x l IH]; intros seen Hn.
  - simpl. unfold group_count. simpl. lia.
  - cbn [head_from]. pose proof (Z.leb_spec 0 n) as Hl.
    destruct (0 <=? n); [|exfalso; inversion Hl; lia].
    specialize (IH (seen ++ [x]) Hn). rewrite group_count_snoc in IH.
    destruct (same_period r x) eqn:E.
    + rewrite (group_count_same r x) by auto.
      destruct (group_count r seen <? n) eqn:E1.
      * apply Z.ltb_lt in E1. rewrite group_count_cons, E. lia.
      * apply Z.ltb_ge in E1. lia.
    + destruct (group_count x seen <? n).
      * rewrite group_count_cons, E. lia.
      * lia.
Qed.

Lemma head_from_split n whole (r : agg_row P) l : forall seen,
  In r (head_from n whole seen l) ->
  exists l1 l2, l = l1 ++ r :: l2 /\
    group_count r (seen ++ l1) < (if 0 <=? n then n else group_count r whole + n).
Proof.
  induction l as [|x l IH]; intros seen Hin; [inversion Hin|].
  cbn [head_from] in Hin.
  assert (Hrest : In r (head_from n whole (seen ++ [x]) l) ->
          exists l1 l2, x :: l = l1 ++ r :: l2 /\
            group_count r (seen ++ l1)
            < (if 0 <=? n then n else group_count r whole + n)).
  { intros Hr. destruct (IH _ Hr) as (l1 & l2 & -> & Hc).
    exists (x :: l1), l2. split; auto. now rewrite <- app_assoc in Hc. }
  destruct (group_count x seen <? _) eqn:E; auto.
  destruct Hin as [->|Hin]; auto.
  exists [], l. split; auto. rewrite app_nil_r. now apply Z.ltb_lt.
Qed.

Lemma head_from_incl n whole (r : agg_row P) l : forall seen,
  In r (head_from n whole seen l) -> In r l.
Proof.
  intros seen Hin. destruct (head_from_split _ _ _ _ _ Hin) as (l1 & l2 & -> & _).
  apply in_or_app. right. now left.
Qed.

Lemma exceeds_before (r x : agg_row P) : exceeds r x = true -> row_before x r = true.
Proof.
  unfold exceeds, row_before. intros E. apply andb_prop in E as [E1 E2].
  apply same_period_eq in E1. rewrite E1, pcmp_refl.
  destruct (a_totalUSD r), (a_totalUSD x); simpl in *; auto; discriminate.
Qed.

Lemma exceeds_same (r x : agg_row P) : exceeds r x = true -> same_period r x = true.
Proof. unfold exceeds. intros E. now apply andb_prop in E. Qed.

Lemma filter_length_le {A} (f g : A -> bool) l :
  (forall x, f x = true -> g x = true) ->
  (List.length (filter f l) <= List.length (filter g l))%nat.
Proof.
  intros Hfg. induction l as [|x l IH]; simpl; auto.
  destruct (f x) eqn:E.
  - rewrite (Hfg _ E). simpl. lia.
  - destruct (g x); simpl; lia.
Qed.

Lemma filter_none {A} (f : A -> bool) l :
  Forall (fun x => f x = false) l -> filter f l = [].
Proof.
  induction 1 as [|x l Hx _ IH]; simpl; auto. now rewrite Hx.
Qed.

Lemma filter_perm {A} (f : A -> bool) l1 l2 :
  Permutation l1 l2 -> Permutation (filter f l1) (filter f l2).
Proof.
  induction 1 as [| x l1 l2 _ IH | x y l | l1 l2 l3 _ IH1 _ IH2]; simpl; auto.
  - destruct (f x); auto.
  - destruct (f x), (f y); auto. apply perm_swap.
  - etransitivity; eauto.
Qed.

Lemma sorted_after {A} (R : A -> A -> Prop) l1 x l2 :
  StronglySorted R (l1 ++ x :: l2) -> Forall (R x) l2.
Proof.
  induction l1 as [|y l1 IH]; simpl; intros Hs; inversion Hs; subst; auto.
Qed.

Lemma top_n_rank (table : list (agg_row P)) n r :
  0 <= n -> In r (top_n_per_period table n) -> exceeded_by r table <= n - 1.
Proof.
  intros Hn Hin. unfold top_n_per_period, head in Hin.
  destruct (head_from_split _ _ _ _ _ Hin) as (l1 & l2 & Hs & Hc).
  simpl in Hc. pose proof (Z.leb_spec 0 n) as Hl.
  destruct (0 <=? n); [|exfalso; inversion Hl; lia].
  unfold exceeded_by.
  rewrite (Permutation_length
             (filter_perm (exceeds r) _ _ (Permutation_sym (sort_values_perm table)))).
  pose proof (sort_values_sorted table) as Hsorted. rewrite Hs in *.
  apply sorted_after in Hsorted. rename Hsorted into Hl2.
  rewrite filter_app. cbn [filter]. unfold exceeds at 2.
  rewrite fltb_irrefl, andb_false_r.
  rewrite (filter_none (exceeds r) l2).
  - rewrite app_nil_r.
    pose proof (filter_length_le (exceeds r) (same_period r) l1 (exceeds_same r)).
    unfold group_count in Hc. lia.
  - eapply Forall_impl; [|exact Hl2]. intros x Hx.
    destruct (exceeds r x) eqn:E; auto. apply exceeds_before in E.
    unfold not_after in Hx. congruence.
Qed.

Lemma top_n_count (table : list (agg_row P)) n p :
  0 <= n -> rows_in_period p (top_n_per_period table n) <= n.
Proof.
  intros Hn. unfold rows_in_period.
  destruct (filter (in_period p) (top_n_per_period table n)) as [|r rest] eqn:E.
  - simpl. lia.
  - assert (Hr : in_period p r = true).
    { assert (Hin : In r (filter (in_period p) (top_n_per_period table n)))
        by (rewrite E; now left).
      now apply filter_In in Hin. }
    rewrite <- E.
    assert (Heq : forall x, in_period p x = same_period r x).
    { intros x. unfold in_period, same_period. apply peqb_eq in Hr. subst p.
      unfold peqb. rewrite (pcmp_antisym (a_period r) (a_period x)).
      destruct (pcmp (a_period r) (a_period x)); reflexivity. }
    rewrite (filter_ext _ _ Heq).
    pose proof (head_from_count n (sort_values table) r (sort_values table)
                  [] Hn) as Hc.
    unfold top_n_per_period, head. unfold group_count in Hc. simpl in Hc. lia.
Qed.

Lemma top_n_in_table (table : list (agg_row P)) n r :
  In r (top_n_per_period table n) -> In r table.
Proof.
  intros Hin. unfold top_n_per_period, head in Hin.
  apply head_from_incl in Hin.
  eapply Permutation_in; [apply sort_values_perm | exact Hin].
Qed.

Lemma top_n_with_shares_rows (table : list (agg_row P)) n :
  map t_agg (top_n_with_shares table n) = top_n_per_period table n.
Proof.
  unfold top_n_with_shares, with_shares, top_n_per_period.
  rewrite map_map. simpl. apply map_id.
Qed.

(** C5 (amended).  For every aggregate table and every [n >= 0], the
    top-N selection keeps at most [n] lines of each period, and every line
    it keeps is a line of the table whose total is strictly exceeded by at
    most [n - 1] lines of the same period.  The top-N tables of [main] are
    this selection. *)
Theorem top_n_selection (table : list (agg_row P)) (n : Z) :
  0 <= n ->
  (forall p, rows_in_period p (top_n_per_period table n) <= n) /\
  (forall r, In r (top_n_per_period table n) ->
             In r table /\ exceeded_by r table <= n - 1) /\
  map t_agg (top_n_with_shares table n) = top_n_per_period table n.
Proof.
  intros Hn. split; [|split].
  - intros p. now apply top_n_count.
  - intros r Hr. split; [eapply top_n_in_table; eauto | now apply top_n_rank].
  - apply top_n_with_shares_rows.
Qed.

End Ranking.

Import Scenario.

(** Top 2 of three bridges: B (300) and C (200); C is exceeded by one. *)
Lemma top_n_selection_witness :
  map a_bridgeName (top_n_per_period table3 2) = ["B"; "C"] /\
  rows_in_period "2023-01" (top_n_per_period table3 2) <= 2 /\
  exceeded_by (agg "2023-01" 3 "C" 200) table3 <= 2 - 1.
Proof.
  split; [vm_compute; reflexivity|].
  destruct (top_n_selection table3 2) as (Hc & Hr & _); [lia|].
  split; [apply Hc|].
  apply Hr. vm_compute. right. left. reflexivity.
Defined.

(** C5 as stated fails for a negative N: [head(-1)] keeps all but the last
    line of each group, here two lines where the claim allows at most -1. *)
Lemma negative_top_n_counterexample :
  map a_bridgeName (top_n_per_period table3 (-1)) = ["B"; "C"] /\
  ~ (rows_in_period "2023-01" (top_n_per_period table3 (-1)) <= -1).
Proof.
  split; [vm_compute; reflexivity|].
  vm_compute. intros H. apply H. reflexivity.
Qed.

Example top_n_ties_keep_table_order :
  map a_bridgeName
      (top_n_per_period
         [agg "2023-01" 1 "A" 100; agg "2023-01" 2 "B" 100;
          agg "2022-12" 3 "C" 5; agg "2023-01" 4 "D" 100] 2)
  = ["C"; "A"; "B"].
Proof. vm_compute. reflexivity. Qed.

End RankFacts.

(** ** Shares *)

Module ShareFacts.
Import Float Py Data Frame Spec FloatFacts FrameFacts OrderFacts SortFacts RankFacts.

#[local] Arguments nanadd : simpl never.
#[local] Arguments zero : simpl never.

Section Totals.
Context {P : Type} `{PeriodLaws P}.


Lemma peqb_sym (p q : P) : peqb p q = peqb q p.
Proof.
  unfold peqb. rewrite (pcmp_antisym q p). destruct (pcmp q p); reflexivity.
Qed.










End Totals.

(** *** The share of one line *)






(** *** Periods without negative totals *)




Section Shares.
Context {P : Type} `{PeriodLaws P}.


End Shares.

Import Scenario.



End ShareFacts.

(** ** The month filter *)

Module FilterFacts.
Import Float Py Data Frame Spec OrderFacts.

(** C7 (amended).  A frame line with a month string is kept exactly when
    [start_month <= month] as strings and either [end_month] is empty or
    [month <= end_month]; a line without a month is kept only when both
    bounds are empty.  With [start_month = "2022-10"], a line of month
    "2022-09" is dropped and a line of month "2022-10" is kept (when the
    end bound admits it). *)
Theorem filter_months_keeps start_month end_month df r :
  (In r (filter_months start_month end_month df) <->
   In r df /\
   match f_month r with
   | Some m => String.leb start_month m = true /\
               (end_month = "" \/ String.leb m end_month = true)
   | None => start_month = "" /\ end_month = ""
   end) /\
  (start_month = "2022-10" -> f_month r = Some "2022-09" ->
   ~ In r (filter_months start_month end_month df)) /\
  (start_month = "2022-10" -> f_month r = Some "2022-10" -> In r df ->
   (end_month = "" \/ String.leb "2022-10" end_month = true) ->
   In r (filter_months start_month end_month df)).
Proof.
  assert (Hiff : In r (filter_months start_month end_month df) <->
   In r df /\
   match f_month r with
   | Some m => String.leb start_month m = true /\
               (end_month = "" \/ String.leb m end_month = true)
   | None => start_month = "" /\ end_month = ""
   end).
  { unfold filter_months.
    destruct (String.eqb_spec start_month "") as [Es|Es];
    destruct (String.eqb_spec end_month "") as [Ee|Ee]; simpl;
      rewrite ?filter_In; unfold month_ge, month_le;
      destruct (f_month r) as [m|]; subst; rewrite ?leb_empty;
      intuition (try discriminate; try congruence). }
  split; [exact Hiff|]. split.
  - intros -> Hm Hin. apply Hiff in Hin as [_ Hin]. rewrite Hm in Hin.
    destruct Hin as [Hin _]. discriminate Hin.
  - intros -> Hm Hin He. apply Hiff. rewrite Hm. repeat split; auto.
Qed.

Import Scenario Main Collect.

Lemma filter_months_keeps_witness :
  ~ In (line "2022-09")
       (filter_months "2022-10" "2025-08" [line "2022-09"; line "2022-10"]) /\
  In (line "2022-10")
     (filter_months "2022-10" "2025-08" [line "2022-09"; line "2022-10"]).
Proof.
  destruct (filter_months_keeps "2022-10" "2025-08"
              [line "2022-09"; line "2022-10"] (line "2022-09"))
    as (_ & Hout & _).
  destruct (filter_months_keeps "2022-10" "2025-08"
              [line "2022-09"; line "2022-10"] (line "2022-10"))
    as (_ & _ & Hin).
  split.
  - apply Hout; reflexivity.
  - apply Hin; [reflexivity | reflexivity | right; left; reflexivity
                | right; reflexivity].
Defined.

(** C7 as stated fails for an empty [end_month]: the line is kept although
    its month does not lie in the (empty) range up to [""]. *)
Lemma empty_end_month_counterexample :
  In (line "2023-01") (filter_months "2022-10" "" [line "2023-01"]) /\
  (String.leb "2022-10" "2023-01" && String.leb "2023-01" "") = false.
Proof. split; [left; reflexivity | reflexivity]. Qed.

(** The filter on rows as the collector dates them: 2022-09-30 is dropped,
    2022-10-01 is kept. *)
Example date_filter_on_daily_rows :
  map f_month
      (prepare_frame default_args
         (fst (append_rows [] 7
                 [record (JInt 1664582399) (JInt 1) (JInt 1);
                  record (JInt 1664582400) (JInt 1) (JInt 1)] [])))
  = [Some "2022-10"].
Proof. vm_compute. reflexivity. Qed.

End FilterFacts.

(** ** Exit behaviour of [main] *)

Module MainFacts.
Import Float Py Data IO Fetch Collect Frame Main Spec IOFacts.
Local Open Scope io_scope.

Lemma load_catalog_quiet net a : emits not_a_write (load_catalog net a).
Proof. apply emits_load_catalog; intros; exact I. Qed.

Lemma collect_daily_rows_quiet net ids names delay_ms :
  emits not_a_write (collect_daily_rows net ids names delay_ms).
Proof. apply emits_collect_loop; intros; exact I. Qed.

(** An empty (or otherwise falsy) catalog: status 2, nothing written. *)
Lemma empty_catalog_exit net a w0 overview w1 :
  fetch_bridges_overview net
    (w0 ++ [EMkdir (outdir a); EStdout MsgFetchingOverview])
  = (Return overview, w1) ->
  truthy overview = false ->
  main net a w0
  = (Fail (SystemExit EXIT_NO_CATALOG), w1 ++ [EStderr MsgCatalogFailed]).
Proof.
  intros Hf Ht. unfold main, load_catalog.
  unfold bind at 1. unfold bind at 1. simpl.
  unfold bind at 1. simpl. rewrite <- app_assoc.
  unfold bind at 1. simpl. rewrite Hf. rewrite Ht. reflexivity.
Qed.

(** A catalog request that raises: the error leaves [main] uncaught. *)
Lemma failed_catalog_crash net a w0 e w1 :
  fetch_bridges_overview net
    (w0 ++ [EMkdir (outdir a); EStdout MsgFetchingOverview])
  = (Fail (Exception e), w1) ->
  main net a w0 = (Fail (Exception e), w1).
Proof.
  intros Hf. unfold main, load_catalog.
  unfold bind at 1. unfold bind at 1. simpl.
  unfold bind at 1. simpl. rewrite <- app_assoc.
  unfold bind at 1. simpl. rewrite Hf. reflexivity.
Qed.

Lemma no_rows_run net a w0 ids names w1 w2 :
  load_catalog net a w0 = (Return (ids, names), w1) ->
  collect_daily_rows net ids names (delay_ms a) w1 = (Return [], w2) ->
  main net a w0
  = (Fail (SystemExit EXIT_NO_ROWS),
     w2 ++ [EMkdir (outdir a); EWrite (daily_csv a) (DailyCsv []);
            EStdout (MsgSaved (daily_csv a)); EStderr MsgNoRows]).
Proof.
  intros Hcat Hrows.
  unfold main. unfold bind at 1. rewrite Hcat.
  unfold bind at 1. rewrite Hrows.
  unfold bind, save_csv, mkdir, write_file, print, print_err, emit, exit.
  simpl. rewrite <- !app_assoc. reflexivity.
Qed.

Lemma fetch_bridges_overview_quiet net :
  emits not_a_write (fetch_bridges_overview net).
Proof. apply emits_fetch_bridges_overview; intros; exact I. Qed.

(** C2 (amended).  How [main] ends, early:
    - when the catalog loads and the collector returns no row, [main]
      writes the daily CSV (without rows), reports it, prints the
      diagnostic and exits with status 1, which is neither 0 nor the status
      2 of an empty catalog; the daily CSV is the only file written;
    - when the catalog is empty, [main] prints the diagnostic and exits
      with status 2, and no file is written;
    - when the catalog request raises, the error leaves [main] uncaught
      (exit status 1), and no file is written. *)
Theorem exit_behaviour net a w0 :
  (forall ids names w1 w2,
     load_catalog net a w0 = (Return (ids, names), w1) ->
     collect_daily_rows net ids names (delay_ms a) w1 = (Return [], w2) ->
     main net a w0
     = (Fail (SystemExit EXIT_NO_ROWS),
        w2 ++ [EMkdir (outdir a); EWrite (daily_csv a) (DailyCsv []);
               EStdout (MsgSaved (daily_csv a)); EStderr MsgNoRows]) /\
     exit_status (fst (main net a w0)) = EXIT_NO_ROWS /\
     EXIT_NO_ROWS <> 0 /\
     EXIT_NO_ROWS <> EXIT_NO_CATALOG /\
     files_written (snd (main net a w0)) = files_written w0 ++ [daily_csv a]) /\
  (forall overview w1,
     fetch_bridges_overview net
       (w0 ++ [EMkdir (outdir a); EStdout MsgFetchingOverview])
     = (Return overview, w1) ->
     truthy overview = false ->
     main net a w0
     = (Fail (SystemExit EXIT_NO_CATALOG), w1 ++ [EStderr MsgCatalogFailed]) /\
     exit_status (fst (main net a w0)) = EXIT_NO_CATALOG /\
     files_written (snd (main net a w0)) = files_written w0) /\
  (forall e w1,
     fetch_bridges_overview net
       (w0 ++ [EMkdir (outdir a); EStdout MsgFetchingOverview])
     = (Fail (Exception e), w1) ->
     main net a w0 = (Fail (Exception e), w1) /\
     exit_status (fst (main net a w0)) = 1 /\
     files_written (snd (main net a w0)) = files_written w0).
Proof.
  split; [|split].
  - intros ids names w1 w2 Hcat Hrows.
    rewrite (no_rows_run _ _ _ _ _ _ _ Hcat Hrows). simpl.
    repeat split; try discriminate.
    rewrite files_written_app.
    rewrite (quiet_run _ _ _ _ (collect_daily_rows_quiet _ _ _ _) Hrows).
    rewrite (quiet_run _ _ _ _ (load_catalog_quiet _ _) Hcat).
    reflexivity.
  - intros overview w1 Hf Ht.
    rewrite (empty_catalog_exit _ _ _ _ _ Hf Ht). simpl.
    repeat split.
    rewrite files_written_app.
    rewrite (quiet_run _ _ _ _ (fetch_bridges_overview_quiet _) Hf).
    rewrite files_written_app. simpl. now rewrite !app_nil_r.
  - intros e w1 Hf.
    rewrite (failed_catalog_crash _ _ _ _ _ Hf). simpl.
    repeat split.
    rewrite (quiet_run _ _ _ _ (fetch_bridges_overview_quiet _) Hf).
    rewrite files_written_app. simpl. now rewrite !app_nil_r.
Qed.

Import Scenario.

Lemma exit_behaviour_witness :
  fst (main net_norows args_top1 []) = Fail (SystemExit 1) /\
  files_written (snd (main net_norows args_top1 []))
  = [] ++ ["out/all_bridges_daily.csv"].
Proof.
  destruct (proj1 (exit_behaviour net_norows args_top1 []) [1] [(1, "A")]
              (snd (load_catalog net_norows args_top1 []))
              (snd (collect_daily_rows net_norows [1] [(1, "A")] 0
                      (snd (load_catalog net_norows args_top1 [])))))
    as (Hm & _ & _ & _ & Hf).
  - vm_compute. reflexivity.
  - vm_compute. reflexivity.
  - split; [rewrite Hm; reflexivity | exact Hf].
Defined.

(** C2 as stated fails on its last part: the catalog loads, the only
    bridge has an empty history, no row is collected, and the run exits
    with status 1 after the daily CSV has been written.  The status 1 is
    also that of a run whose catalog request fails after all retries. *)
Lemma no_rows_counterexample :
  fst (load_catalog net_norows args_top1 []) = Return ([1], [(1, "A")]) /\
  fst (collect_daily_rows net_norows [1] [(1, "A")] 0
         (snd (load_catalog net_norows args_top1 []))) = Return [] /\
  exit_status (fst (main net_norows args_top1 [])) = 1 /\
  files_written (snd (main net_norows args_top1 []))
  = ["out/all_bridges_daily.csv"] /\
  files_written (snd (main net_norows args_top1 [])) <> [] /\
  exit_status (fst (main net_down args_top1 [])) = 1.
Proof. repeat split; try (vm_compute; reflexivity). discriminate. Qed.

(** A catalog that cannot be fetched ends the run with an uncaught error,
    whose exit status is 1 as well; nothing is written. *)
Example unreachable_catalog_status :
  fst (main net_down default_args [])
  = Fail (Exception (GetFailed BRIDGES_URL None
                       (Some (TransportError "connection refused")))) /\
  exit_status (fst (main net_down default_args [])) = 1 /\
  files_written (snd (main net_down default_args [])) = [].
Proof. repeat split; vm_compute; reflexivity. Qed.

(** The end-to-end scenario of the spec: A totals 100 and B totals 300 in
    January 2023; the top 1 is B with 75.00 percent. *)
Example end_to_end_top1 :
  fst (main net_AB args_top1 []) = Return tt /\
  files_written (snd (main net_AB args_top1 []))
  = ["out/all_bridges_daily.csv"; "out/bridges_monthly.csv";
     "out/bridges_yearly.csv"; "out/bridges_monthly_top_1.csv";
     "out/bridges_yearly_top_1.csv"] /\
  written_monthly_top (snd (main net_AB args_top1 []))
  = [("2023-01", 2, "B", of_Z 300, of_Z 100, of_Z 75)].
Proof. repeat split; qc_refl. Qed.

End MainFacts.

(** ** More on the collector *)

Module CollectorFacts.
Import Float Py Data IO Fetch Collect Spec Props IOFacts FetchFacts CollectFacts.
Local Open Scope io_scope.

Lemma never_exits_bind {A B} (m : M A) (k : A -> M B) :
  never_exits m -> (forall a, never_exits (k a)) -> never_exits (bind m k).
Proof.
  intros Hm Hk w c w' H. unfold bind in H.
  destruct (m w) as [[a|f] w1] eqn:E.
  - exact (Hk a w1 c w' H).
  - injection H as -> ->. exact (Hm w c w' E).
Qed.

Lemma never_exits_ret {A} (a : A) : never_exits (ret a).
Proof. intros w c w' H. discriminate H. Qed.

Lemma never_exits_raise {A} e : never_exits (@raise A e).
Proof. intros w c w' H. discriminate H. Qed.

Lemma never_exits_emit e : never_exits (emit e).
Proof. intros w c w' H. discriminate H. Qed.

Lemma never_exits_lift {A} (r : result A) : never_exits (lift r).
Proof. destruct r; [apply never_exits_ret | apply never_exits_raise]. Qed.

Lemma never_exits_sleep d : never_exits (sleep d).
Proof.
  unfold sleep. destruct d as [q|s|]; [destruct (qneg q)|..];
    auto using never_exits_raise, never_exits_emit.
Qed.

Lemma never_exits_attempt {A} (m : M A) : never_exits m -> never_exits (attempt m).
Proof.
  intros Hm w c w' H. unfold attempt in H.
  destruct (m w) as [[a|[e|c']] w1] eqn:E; try discriminate H.
  injection H as -> ->. exact (Hm w c w' E).
Qed.

Lemma never_exits_http_get net url p : never_exits (http_get net url p).
Proof.
  intros w c w' H. unfold http_get in H. destruct (net _ _); discriminate H.
Qed.

Lemma never_exits_retry_loop net url p max_retries attempts :
  forall delay last,
  never_exits (retry_loop net url p max_retries attempts delay last).
Proof.
  induction attempts as [|n rest IH]; intros delay last; simpl.
  - apply never_exits_raise.
  - apply never_exits_bind; [apply never_exits_attempt, never_exits_http_get|].
    intros [body|e]; [apply never_exits_ret|].
    destruct (n =? max_retries); [apply never_exits_raise|].
    apply never_exits_bind; [apply never_exits_sleep|]. intros _. apply IH.
Qed.

Lemma never_exits_fetch_bridge_daily_all net bid :
  never_exits (fetch_bridge_daily_all net bid).
Proof.
  unfold fetch_bridge_daily_all, http_get_json.
  apply never_exits_bind; [apply never_exits_retry_loop|].
  intros data. destruct data; try apply never_exits_raise.
  destruct items; [apply never_exits_raise|].
  apply never_exits_bind; [apply never_exits_lift|].
  intros [|]; [apply never_exits_ret | apply never_exits_raise].
Qed.





Section Loop.
Variable net : network.
Variable names : name_map.
Variable delay_ms : Z.
Variable total : Z.



(** The returned rows come in blocks, one per listed id and in the order of
    the list; the rows of a block bear the id and its display name. *)
Lemma collect_loop_blocks ids : forall i rows w out w',
  collect_loop net names delay_ms total i ids rows w = (Return out, w') ->
  exists blocks,
    out = rows ++ concat blocks /\
    Forall2 (fun bid block => Forall (row_of_bridge names bid) block)
            ids blocks.
Proof.
  induction ids as [|bid ids IH]; intros i rows w out w' H.
  - simpl in H. injection H as <- <-. exists []. simpl.
    rewrite app_nil_r. auto.
  - simpl in H. unfold bind at 1 in H. simpl in H.
    unfold bind at 1 in H. unfold attempt at 1 in H.
    set (w1 := w ++ [EStdout (MsgProgress i total bid)]) in *.
    assert (Hstep : forall rows1 block w2,
      rows1 = rows ++ block ->
      Forall (row_of_bridge names bid) block ->
      (pace delay_ms ;;
       collect_loop net names delay_ms total (i + 1) ids rows1) w2
      = (Return out, w') ->
      exists blocks, out = rows ++ concat blocks /\
        Forall2 (fun b blk => Forall (row_of_bridge names b) blk)
                (bid :: ids) blocks).
    { intros rows1 block w2 -> HF Hk.
      destruct (bind_cases (pace delay_ms)
                  (fun _ => collect_loop net names delay_ms total (i + 1) ids
                                         (rows ++ block)) w2)
        as [([] & w3 & _ & Hp)|(f & w3 & _ & Hp)];
        rewrite Hp in Hk; [|discriminate].
      apply IH in Hk as (blocks & -> & HB).
      exists (block :: blocks). simpl. rewrite app_assoc. split; auto. }
    assert (HQ : forall r row, row_of_record names bid r = Ok row ->
                               row_of_bridge names bid row).
    { intros r row Hr.
      apply row_of_record_inv in Hr as (d & dep & wd & _ & ->).
      split; reflexivity. }
    destruct (fetch_bridge_daily_all net bid w1) as [[hist|[e|c]] w2].
    + destruct (append_rows_extends _ names bid HQ hist rows)
        as (block & Hx & HF).
      destruct (append_rows names bid hist rows) as [rows1 [e|]];
        simpl in Hx; subst rows1.
      * unfold bind at 1 in H. simpl in H. eapply Hstep; eauto.
      * unfold bind at 1 in H. simpl in H. eapply Hstep; eauto.
    + unfold bind at 1 in H. simpl in H. unfold bind at 1 in H. simpl in H.
      eapply (Hstep rows []); [now rewrite app_nil_r | constructor | exact H].
    + discriminate.
Qed.

End Loop.


(** X2.  The rows the collector returns come in blocks, one block per
    listed id (possibly empty) in the order of the list; every row of a
    block bears that id and the display name the map gives it. *)
Theorem collector_rows_in_id_order net ids names delay_ms w rows w' :
  collect_daily_rows net ids names delay_ms w = (Return rows, w') ->
  exists blocks,
    rows = concat blocks /\
    Forall2 (fun bid block => Forall (row_of_bridge names bid) block)
            ids blocks.
Proof.
  intros H. apply collect_loop_blocks in H as (blocks & -> & HB).
  exists blocks. split; [reflexivity | exact HB].
Qed.

Import Scenario.


Lemma collector_rows_in_id_order_witness :
  exists blocks,
    rows_of (fst (collect_daily_rows net_iso [1; 2; 3] names_iso 0 []))
    = concat blocks /\
    Forall2 (fun bid block => Forall (row_of_bridge names_iso bid) block)
            [1; 2; 3] blocks.
Proof.
  refine (collector_rows_in_id_order net_iso [1; 2; 3] names_iso 0 [] _
            (snd (collect_daily_rows net_iso [1; 2; 3] names_iso 0 [])) _).
  vm_compute. reflexivity.
Defined.

End CollectorFacts.

(** ** The retry loop and the two loaders *)

Module LoaderFacts.
Import Float Py Data IO Fetch Collect Spec Props IOFacts FetchFacts CollectFacts CollectorFacts.
Local Open Scope io_scope.

Section Retry.
Variable net : network.
Variables (url : string) (p : params).

(** A body the loop returns is the answer to its last request, and every
    request before that one failed. *)
Lemma retry_loop_returns max_retries attempts : forall delay last w body w',
  nonneg delay ->
  retry_loop net url p max_retries attempts delay last w = (Return body, w') ->
  exists k, (k < List.length attempts)%nat /\
    failing net (get_request url p) (requests_made w) k /\
    net (requests_made w + k)%nat (get_request url p) = Payload body /\
    w' = w ++ failed_rounds (get_request url p) delay k
           ++ [EGet (get_request url p)].
Proof.
  induction attempts as [|n rest IH]; intros delay last w body w' Hd H.
  - discriminate H.
  - destruct (net (requests_made w) (get_request url p)) as [d|b] eqn:E.
    + destruct (Z.eq_dec n max_retries) as [->|Hn].
      * rewrite (retry_step_last net url p _ _ _ _ _ _ E) in H. discriminate H.
      * rewrite (retry_step_again net url p _ _ _ _ _ _ _ E Hn Hd) in H.
        apply IH in H as (k & Hk & Hf & Hp & ->);
          [|apply next_delay_nonneg; exact Hd].
        rewrite requests_made_round in Hf, Hp.
        exists (S k). repeat split.
        -- simpl. lia.
        -- intros j Hj. destruct j as [|j].
           ++ rewrite Nat.add_0_r. eauto.
           ++ destruct (Hf j) as [d' Hd']; [lia|]. exists d'.
              rewrite <- Hd'. f_equal. lia.
        -- rewrite <- Hp. f_equal. lia.
        -- simpl. rewrite <- app_assoc. reflexivity.
    + rewrite (retry_step_payload net url p _ _ _ _ _ _ _ E) in H.
      injection H as <- <-. exists O. repeat split.
      * simpl. lia.
      * intros j Hj. lia.
      * rewrite Nat.add_0_r. exact E.
Qed.

Lemma retry_loop_mono max_retries attempts : forall delay last w,
  (requests_made w
   <= requests_made (snd (retry_loop net url p max_retries attempts delay last w)))%nat.
Proof.
  induction attempts as [|n rest IH]; intros delay last w.
  - simpl. lia.
  - simpl. unfold bind at 1, attempt, http_get.
    destruct (net (requests_made w) _) as [d|body]; simpl.
    + destruct (n =? max_retries); simpl.
      * rm_norm; lia.
      * unfold bind.
        pose proof (sleep_requests delay
                      (w ++ [EGet (get_request url p)])) as Hs.
        destruct (sleep delay _) as [[[]|f] w1]; simpl in *.
        -- specialize (IH (fmin (fmul delay (of_Z 2)) (of_Z 8))
                           (Some (TransportError d)) w1).
           rewrite Hs in IH. rm_norm. lia.
        -- rewrite Hs. rm_norm. lia.
    + rm_norm; lia.
Qed.

(** A turn of the loop sends a request before anything else. *)
Lemma retry_loop_requests_ge max_retries n rest delay last w :
  (S (requests_made w)
   <= requests_made
        (snd (retry_loop net url p max_retries (n :: rest) delay last w)))%nat.
Proof.
  simpl. unfold bind at 1, attempt, http_get.
  destruct (net (requests_made w) _) as [d|body]; simpl.
  - destruct (n =? max_retries); simpl.
    + rm_norm; lia.
    + unfold bind.
      pose proof (sleep_requests delay
                    (w ++ [EGet (get_request url p)])) as Hs.
      destruct (sleep delay _) as [[[]|f] w1]; simpl in *.
      * pose proof (retry_loop_mono max_retries rest
                      (fmin (fmul delay (of_Z 2)) (of_Z 8))
                      (Some (TransportError d)) w1) as Hm.
        rewrite Hs in Hm. rm_norm. lia.
      * rewrite Hs. rm_norm. lia.
  - rm_norm; lia.
Qed.

End Retry.

Lemma default_attempts :
  range 1 (DEFAULT_MAX_RETRIES + 1) = [1; 2; 3; 4; 5].
Proof. reflexivity. Qed.

(** The validation of a payload leaves the world as the retry loop left
    it. *)
Lemma fetch_bridge_daily_all_world net bid w :
  snd (fetch_bridge_daily_all net bid w)
  = snd (http_get_json net BRIDGE_VOLUME_URL (Some [("id", bid)])
           DEFAULT_MAX_RETRIES DEFAULT_INITIAL_DELAY w).
Proof.
  unfold fetch_bridge_daily_all, bind.
  destruct (http_get_json _ _ _ _ _ w) as [[data|f] w1]; [|reflexivity].
  destruct data as [| | | | |items|]; try reflexivity.
  destruct items as [|first rest]; [reflexivity|].
  destruct (has_date first) as [[|]|e]; reflexivity.
Qed.

Lemma fetch_bridge_daily_all_requests net bid w :
  (S (requests_made w) <= requests_made (snd (fetch_bridge_daily_all net bid w))
   <= requests_made w + 5)%nat.
Proof.
  rewrite fetch_bridge_daily_all_world. unfold http_get_json.
  rewrite default_attempts. split.
  - apply retry_loop_requests_ge.
  - apply (retry_loop_bounded net _ _ DEFAULT_MAX_RETRIES [1; 2; 3; 4; 5]).
Qed.

Lemma pace_requests delay_ms w :
  requests_made (snd (pace delay_ms w)) = requests_made w.
Proof.
  unfold pace. destruct (negb (delay_ms =? 0) && (0 <? delay_ms)); [|reflexivity].
  unfold bind. destruct (float_of_int delay_ms) as [d|e]; simpl; [|reflexivity].
  apply sleep_requests.
Qed.

(** X3.  A history [fetch_bridge_daily_all] returns is never empty, its
    first record holds a [date], and it is the list the service answered to
    the last of at most five requests, those before having failed. *)
Theorem history_is_validated net bid w hist w' :
  fetch_bridge_daily_all net bid w = (Return hist, w') ->
  exists first rest k,
    hist = first :: rest /\ has_date first = Ok true /\
    (k < 5)%nat /\
    failing net (history_request bid) (requests_made w) k /\
    net (requests_made w + k)%nat (history_request bid) = Payload (JArr hist) /\
    w' = w ++ failed_rounds (history_request bid) DEFAULT_INITIAL_DELAY k
           ++ [EGet (history_request bid)].
Proof.
  intros H. unfold fetch_bridge_daily_all, http_get_json, bind in H.
  destruct (retry_loop _ _ _ _ _ _ _ w) as [[data|f] w1] eqn:E;
    [|discriminate H].
  apply retry_loop_returns in E as (k & Hk & Hf & Hp & ->);
    [|exact default_delay_nonneg].
  destruct data as [| | | | |items|]; try discriminate H.
  destruct items as [|first rest]; [discriminate H|].
  destruct (has_date first) as [[|]|e] eqn:Eh; try discriminate H.
  injection H as <- <-.
  exists first, rest, k. rewrite default_attempts in Hk. simpl in Hk.
  repeat split; assumption.
Qed.

(** X4.  A payload of the wrong shape is not asked for again: the loader
    raises after the one request.  Only the first record of a list is looked
    at; a first record that is no container raises [TypeError]. *)
Theorem malformed_history_is_not_retried net bid w body :
  net (requests_made w) (history_request bid) = Payload body ->
  let run := fetch_bridge_daily_all net bid w in
  snd run = w ++ [EGet (history_request bid)] /\
  ((forall items, body <> JArr items) ->
   fst run = Fail (Exception (UnexpectedHistory bid body))) /\
  (body = JArr [] -> fst run = Fail (Exception (NoDateField bid []))) /\
  (forall first rest, body = JArr (first :: rest) ->
     (has_date first = Ok true -> fst run = Return (first :: rest)) /\
     (has_date first = Ok false ->
      fst run = Fail (Exception (NoDateField bid (first :: firstn 1 rest)))) /\
     (forall e, has_date first = Raise e ->
      e = TypeError /\ fst run = Fail (Exception TypeError))).
Proof.
  intros H run.
  assert (E : http_get_json net BRIDGE_VOLUME_URL (Some [("id", bid)])
                DEFAULT_MAX_RETRIES DEFAULT_INITIAL_DELAY w
              = (Return body, w ++ [EGet (history_request bid)])).
  { unfold http_get_json. rewrite default_attempts.
    apply retry_step_payload. exact H. }
  subst run. unfold fetch_bridge_daily_all, bind. rewrite E.
  split; [|split; [|split]].
  - destruct body as [| | | | |items|]; try reflexivity.
    destruct items as [|first rest]; [reflexivity|].
    destruct (has_date first) as [[|]|e]; reflexivity.
  - intros Hn. destruct body as [| | | | |items|]; try reflexivity.
    exfalso. exact (Hn items eq_refl).
  - intros ->. reflexivity.
  - intros first rest ->. split; [|split].
    + intros ->. reflexivity.
    + intros ->. reflexivity.
    + intros e He.
      assert (e = TypeError)
        by (unfold has_date in He; destruct first; congruence).
      subst e. rewrite He. split; reflexivity.
Qed.

(** X5.  The catalog [fetch_bridges_overview] returns is the [bridges]
    entry of the object the service answered to the last of at most five
    requests; an answer without that entry raises after the one request. *)
Theorem catalog_is_validated net w :
  (forall v w', fetch_bridges_overview net w = (Return v, w') ->
     exists fields k,
       assoc "bridges" fields = Some v /\ (k < 5)%nat /\
       failing net catalog_request (requests_made w) k /\
       net (requests_made w + k)%nat catalog_request = Payload (JObj fields) /\
       w' = w ++ failed_rounds catalog_request DEFAULT_INITIAL_DELAY k
              ++ [EGet catalog_request]) /\
  (forall body, net (requests_made w) catalog_request = Payload body ->
     (forall fields, body = JObj fields -> assoc "bridges" fields = None) ->
     fetch_bridges_overview net w
     = (Fail (Exception (UnexpectedCatalog BRIDGES_URL body)),
        w ++ [EGet catalog_request])).
Proof.
  split.
  - intros v w' H. unfold fetch_bridges_overview, http_get_json, bind in H.
    destruct (retry_loop _ _ _ _ _ _ _ w) as [[data|f] w1] eqn:E;
      [|discriminate H].
    apply retry_loop_returns in E as (k & Hk & Hf & Hp & ->);
      [|exact default_delay_nonneg].
    destruct data as [| | | | | |fields]; try discriminate H.
    destruct (assoc "bridges" fields) as [v0|] eqn:Ea; [|discriminate H].
    injection H as <- <-.
    exists fields, k. rewrite default_attempts in Hk. simpl in Hk.
    repeat split; assumption.
  - intros body H Hn.
    assert (E : http_get_json net BRIDGES_URL None
                  DEFAULT_MAX_RETRIES DEFAULT_INITIAL_DELAY w
                = (Return body, w ++ [EGet catalog_request])).
    { unfold http_get_json. rewrite default_attempts.
      apply retry_step_payload. exact H. }
    unfold fetch_bridges_overview, bind. rewrite E.
    destruct body as [| | | | | |fields]; try reflexivity.
    rewrite (Hn fields eq_refl). reflexivity.
Qed.

Lemma not_nonneg_sleep d w :
  ~ nonneg d ->
  exists e, (e = ValueError \/ e = OverflowError) /\
            sleep d w = (Fail (Exception e), w).
Proof.
  intros Hd. destruct d as [q|s|]; simpl.
  - destruct (qneg q) eqn:E.
    + exists ValueError. split; [left|]; reflexivity.
    + exfalso. apply Hd. exists q. split; [reflexivity|].
      unfold qneg in E. destruct (q ?= Q2Qc 0)%Qc eqn:Ec; try discriminate E.
      * apply Qceq_alt in Ec. rewrite Ec. apply Qcle_refl.
      * apply Qcgt_alt in Ec. apply Qclt_le_weak. exact Ec.
  - exists OverflowError. split; [right|]; reflexivity.
  - exists ValueError. split; [left|]; reflexivity.
Qed.

(** X6.  Two edges of [http_get_json].  With no attempt allowed it raises
    at once, without a request and without a last exception.  With a delay
    [time.sleep] refuses, the first failed request is the last: the
    exception of [time.sleep] leaves the function. *)
Theorem http_get_json_edges net url p max_retries delay w :
  (max_retries <= 0 ->
   http_get_json net url p max_retries delay w
   = (Fail (Exception (GetFailed url p None)), w)) /\
  (1 < max_retries -> ~ nonneg delay ->
   forall detail,
     net (requests_made w) (get_request url p) = Failure detail ->
     exists e, (e = ValueError \/ e = OverflowError) /\
       http_get_json net url p max_retries delay w
       = (Fail (Exception e), w ++ [EGet (get_request url p)])).
Proof.
  split.
  - intros Hm. unfold http_get_json. rewrite range_nil by lia. reflexivity.
  - intros Hm Hd detail Hf. unfold http_get_json.
    rewrite range_cons by lia. cbn [retry_loop].
    unfold bind at 1, attempt. rewrite (http_get_failure _ _ _ _ _ Hf).
    replace (1 =? max_retries) with false by (symmetry; apply Z.eqb_neq; lia).
    destruct (not_nonneg_sleep delay (w ++ [EGet (get_request url p)]) Hd)
      as (e & He & Hs).
    exists e. split; [exact He|]. unfold bind. rewrite Hs. reflexivity.
Qed.

Section Loop.
Variable net : network.
Variable names : name_map.
Variable delay_ms : Z.
Variable total : Z.

Lemma collect_loop_step i bid ids rows w :
  exists rows1 w2,
    (S (requests_made w) <= requests_made w2 <= requests_made w + 5)%nat /\
    collect_loop net names delay_ms total i (bid :: ids) rows w
    = (pace delay_ms ;;
       collect_loop net names delay_ms total (i + 1) ids rows1) w2.
Proof.
  pose proof (fetch_bridge_daily_all_requests net bid
                (w ++ [EStdout (MsgProgress i total bid)])) as Hr.
  assert (Hw : requests_made (w ++ [EStdout (MsgProgress i total bid)])
               = requests_made w) by (rm_norm; lia).
  rewrite Hw in Hr.
  destruct (fetch_bridge_daily_all net bid
              (w ++ [EStdout (MsgProgress i total bid)]))
    as [[hist|[e|c]] w2] eqn:E; simpl in Hr.
  - rewrite (collect_loop_load net names delay_ms total _ _ _ _ _ _ _ E).
    eexists. eexists. split; [|reflexivity].
    destruct (snd (append_rows names bid hist rows)); rm_norm; lia.
  - rewrite (collect_loop_skip net names delay_ms total _ _ _ _ _ _ _ E).
    eexists. eexists. split; [|reflexivity]. rm_norm; lia.
  - exfalso. exact (never_exits_fetch_bridge_daily_all net bid _ _ _ E).
Qed.

Lemma collect_loop_requests_le ids : forall i rows w,
  (requests_made (snd (collect_loop net names delay_ms total i ids rows w))
   <= requests_made w + 5 * List.length ids)%nat.
Proof.
  induction ids as [|bid ids IH]; intros i rows w.
  - simpl. lia.
  - destruct (collect_loop_step i bid ids rows w) as (rows1 & w2 & Hr & ->).
    unfold bind. pose proof (pace_requests delay_ms w2) as Hp.
    destruct (pace delay_ms w2) as [[[]|f] w3]; simpl in Hp.
    + specialize (IH (i + 1) rows1 w3). simpl List.length. lia.
    + simpl. simpl List.length. lia.
Qed.

Lemma collect_loop_requests_ge ids : forall i rows w out w',
  collect_loop net names delay_ms total i ids rows w = (Return out, w') ->
  (requests_made w + List.length ids <= requests_made w')%nat.
Proof.
  induction ids as [|bid ids IH]; intros i rows w out w' H.
  - simpl in H. injection H as _ <-. simpl. lia.
  - destruct (collect_loop_step i bid ids rows w) as (rows1 & w2 & Hr & E).
    rewrite E in H. unfold bind in H.
    pose proof (pace_requests delay_ms w2) as Hp.
    destruct (pace delay_ms w2) as [[[]|f] w3]; simpl in Hp; [|discriminate H].
    apply IH in H. simpl List.length. lia.
Qed.

End Loop.

(** X7.  The collector sends at most five requests per listed id, and when
    it returns it has sent at least one for each. *)
Theorem collector_request_bound net ids names delay_ms w :
  (requests_made (snd (collect_daily_rows net ids names delay_ms w))
   <= requests_made w + 5 * List.length ids)%nat /\
  (forall rows w',
     collect_daily_rows net ids names delay_ms w = (Return rows, w') ->
     (requests_made w + List.length ids <= requests_made w')%nat).
Proof.
  split.
  - apply collect_loop_requests_le.
  - intros rows w'. apply collect_loop_requests_ge.
Qed.

Import Scenario.

Lemma history_is_validated_witness :
  exists first rest k,
    [record (JInt jan1) (JInt 60) (JStr "40")] = first :: rest /\
    has_date first = Ok true /\
    (k < 5)%nat /\
    failing net_AB (history_request 1) (requests_made []) k /\
    net_AB (requests_made [] + k)%nat (history_request 1)
    = Payload (JArr [record (JInt jan1) (JInt 60) (JStr "40")]) /\
    [EGet (history_request 1)]
    = [] ++ failed_rounds (history_request 1) DEFAULT_INITIAL_DELAY k
         ++ [EGet (history_request 1)].
Proof.
  apply (history_is_validated net_AB 1 []
           [record (JInt jan1) (JInt 60) (JStr "40")]
           [EGet (history_request 1)]).
  vm_compute. reflexivity.
Defined.

Lemma malformed_history_witness :
  snd (fetch_bridge_daily_all net_iso 2 []) = [] ++ [EGet (history_request 2)] /\
  fst (fetch_bridge_daily_all net_iso 2 [])
  = Fail (Exception (UnexpectedHistory 2 (JObj [("error", JStr "not found")]))).
Proof.
  pose proof (malformed_history_is_not_retried net_iso 2 []
                (JObj [("error", JStr "not found")]) eq_refl) as (Hw & Hn & _).
  split; [exact Hw|]. apply Hn. intros items. discriminate.
Defined.

Lemma catalog_is_validated_witness :
  fetch_bridges_overview net_iso []
  = (Fail (Exception (UnexpectedCatalog BRIDGES_URL
                        (catalog [bridge 1 "A"; bridge 2 "B"; bridge 3 "C"]))),
     [] ++ [EGet catalog_request])
  \/ exists fields k,
       assoc "bridges" fields
       = Some (JArr [bridge 1 "A"; bridge 2 "B"; bridge 3 "C"]) /\
       (k < 5)%nat.
Proof.
  right.
  destruct (proj1 (catalog_is_validated net_iso [])
              (JArr [bridge 1 "A"; bridge 2 "B"; bridge 3 "C"])
              [EGet catalog_request] eq_refl)
    as (fields & k & Ha & Hk & _).
  exists fields, k. split; assumption.
Defined.

Lemma http_get_json_edges_witness :
  http_get_json net_down BRIDGES_URL None 0 DEFAULT_INITIAL_DELAY []
  = (Fail (Exception (GetFailed BRIDGES_URL None None)), []) /\
  exists e, (e = ValueError \/ e = OverflowError) /\
    http_get_json net_down BRIDGES_URL None 5 (of_Z (-1)) []
    = (Fail (Exception e), [] ++ [EGet (get_request BRIDGES_URL None)]).
Proof.
  split.
  - apply (proj1 (http_get_json_edges net_down BRIDGES_URL None 0
                    DEFAULT_INITIAL_DELAY [])).
    lia.
  - apply (proj2 (http_get_json_edges net_down BRIDGES_URL None 5
                    (of_Z (-1)) [])) with (detail := "connection refused").
    + lia.
    + intros (q & Hq & Hle). injection Hq as <-. revert Hle.
      vm_compute. intros Hle. apply Hle. reflexivity.
    + reflexivity.
Defined.

Lemma collector_request_bound_witness :
  let ids := [1; 2; 3] in
  (requests_made [] + List.length ids
   <= requests_made (snd (collect_daily_rows net_iso ids names_iso 0 [])))%nat.
Proof.
  apply (proj2 (collector_request_bound net_iso [1; 2; 3] names_iso 0 [])
           (rows_of (fst (collect_daily_rows net_iso [1; 2; 3] names_iso 0 [])))).
  vm_compute. reflexivity.
Defined.

End LoaderFacts.

(** ** The catalog and the runs of [main] *)

Module CatalogFacts.
Import Float Py Data IO Fetch Collect Frame Main Spec Props.
Import IOFacts FetchFacts CollectFacts CollectorFacts LoaderFacts MainFacts.
Local Open Scope io_scope.




















Import Scenario.



End CatalogFacts.

(** ** The tables: grouping keys, the sort, and the head of each period *)

Module TableFacts.
Import Float Py Data Frame Spec Props.
Import FrameFacts OrderFacts SortFacts RankFacts ShareFacts.

Section Keys.
Context {P : Type} `{PeriodLaws P}.

Lemma key_cmp_refl (a : @key P) : key_cmp a a = Eq.
Proof.
  destruct a as [[i n] p]. simpl.
  now rewrite Z.compare_refl, string_compare_refl, pcmp_refl.
Qed.

Lemma key_cmp_eq (a b : @key P) : key_cmp a b = Eq <-> a = b.
Proof.
  split; [|intros ->; apply key_cmp_refl].
  destruct a as [[i1 n1] p1], b as [[i2 n2] p2]. simpl.
  destruct (i1 ?= i2) eqn:Ei; try discriminate.
  destruct (String.compare n1 n2) eqn:En; try discriminate.
  intros Ep. apply Z.compare_eq in Ei. apply String.compare_eq_iff in En.
  apply pcmp_eq in Ep. congruence.
Qed.

Lemma key_cmp_antisym (a b : @key P) : key_cmp b a = CompOpp (key_cmp a b).
Proof.
  destruct a as [[i1 n1] p1], b as [[i2 n2] p2]. simpl.
  pose proof (@pcmp_antisym Z _ year_laws i1 i2) as Hi.
  pose proof (@pcmp_antisym string _ month_laws n1 n2) as Hn.
  simpl in Hi, Hn. rewrite Hi, Hn, (pcmp_antisym p1 p2).
  destruct (i1 ?= i2); simpl; auto.
  destruct (String.compare n1 n2); simpl; auto.
Qed.

Lemma key_cmp_gt_lt (a b : @key P) : key_cmp a b = Gt <-> key_cmp b a = Lt.
Proof.
  rewrite (key_cmp_antisym a b). destruct (key_cmp a b); simpl; split; congruence.
Qed.

Lemma key_cmp_lt_trans (a b c : @key P) :
  key_cmp a b = Lt -> key_cmp b c = Lt -> key_cmp a c = Lt.
Proof.
  destruct a as [[i1 n1] p1], b as [[i2 n2] p2], c as [[i3 n3] p3]. simpl.
  destruct (i1 ?= i2) eqn:E12; try discriminate;
  destruct (i2 ?= i3) eqn:E23; try discriminate.
  - apply Z.compare_eq in E12, E23. subst i2 i3. rewrite Z.compare_refl.
    destruct (String.compare n1 n2) eqn:F12; try discriminate;
    destruct (String.compare n2 n3) eqn:F23; try discriminate.
    + apply String.compare_eq_iff in F12, F23. subst n2 n3.
      rewrite string_compare_refl. apply pcmp_lt_trans.
    + apply String.compare_eq_iff in F12. subst n2. now rewrite F23.
    + apply String.compare_eq_iff in F23. subst n3. now rewrite F12.
    + now rewrite (string_compare_lt_trans _ _ _ F12 F23).
  - apply Z.compare_eq in E12. subst i2. now rewrite E23.
  - apply Z.compare_eq in E23. subst i3. now rewrite E12.
  - rewrite Z.compare_lt_iff in *.
    replace (i1 ?= i3) with Lt; [reflexivity|].
    symmetry. apply Z.compare_lt_iff. lia.
Qed.

Lemma agg_key_new (k : @key P) r : agg_key (new_group k r) = k.
Proof. destruct k as [[i n] p]. reflexivity. Qed.

Lemma agg_key_add (g : agg_row P) r : agg_key (add_to_group g r) = agg_key g.
Proof. reflexivity. Qed.

Lemma upsert_keys (Q : @key P -> Prop) k r groups :
  Q k -> Forall (fun g => Q (agg_key g)) groups ->
  Forall (fun g => Q (agg_key g)) (upsert k r groups).
Proof.
  intros Hk. induction 1 as [|g rest Hg Hrest IH]; cbn [upsert].
  - constructor; [now rewrite agg_key_new | constructor].
  - destruct (key_cmp k (agg_key g)).
    + constructor; auto.
    + constructor; [now rewrite agg_key_new|]. constructor; auto.
    + constructor; auto.
Qed.

Lemma upsert_ascending k r groups :
  key_ascending groups -> key_ascending (upsert k r groups).
Proof.
  unfold key_ascending. induction 1 as [|g rest Hs IH Hg]; cbn [upsert].
  - repeat constructor.
  - destruct (key_cmp k (agg_key g)) eqn:E.
    + constructor; auto.
    + constructor; [constructor; auto|].
      constructor.
      * cbv beta. rewrite agg_key_new. exact E.
      * eapply Forall_impl; [|exact Hg]. intros x Hx. cbv beta in *.
        rewrite agg_key_new. eapply key_cmp_lt_trans; eauto.
    + constructor; auto.
      apply (upsert_keys (fun x => key_cmp (agg_key g) x = Lt)); auto.
      now apply key_cmp_gt_lt.
Qed.

Lemma upsert_key_in k' k r groups :
  In k' (map agg_key (upsert k r groups))
  <-> k' = k \/ In k' (map agg_key groups).
Proof.
  induction groups as [|g rest IH]; cbn [upsert map In].
  - rewrite agg_key_new. intuition congruence.
  - destruct (key_cmp k (agg_key g)) eqn:E; cbn [map In].
    + apply key_cmp_eq in E. rewrite agg_key_add, <- E. intuition congruence.
    + rewrite agg_key_new. intuition congruence.
    + rewrite IH. intuition congruence.
Qed.

Lemma groupby_fold_ascending period_of df : forall groups,
  key_ascending groups ->
  key_ascending
    (fold_left (fun groups r =>
                  match period_of r with
                  | Some p => upsert (f_bridgeId r, f_bridgeName r, p) r groups
                  | None => groups
                  end) df groups).
Proof.
  induction df as [|r df IH]; intros groups Hg; simpl; [exact Hg|].
  apply IH. destruct (period_of r); [apply upsert_ascending|]; exact Hg.
Qed.

Lemma groupby_fold_keys period_of k df : forall groups,
  In k (map agg_key
          (fold_left (fun groups r =>
                        match period_of r with
                        | Some p => upsert (f_bridgeId r, f_bridgeName r, p) r groups
                        | None => groups
                        end) df groups))
  <-> In k (map agg_key groups)
      \/ exists r, In r df /\ frame_key period_of r = Some k.
Proof.
  induction df as [|r df IH]; intros groups; cbn [fold_left].
  - split; [auto|]. intros [Hk|(r & [] & _)]. exact Hk.
  - rewrite IH.
    assert (Hstep :
      In k (map agg_key
              match period_of r with
              | Some p => upsert (f_bridgeId r, f_bridgeName r, p) r groups
              | None => groups
              end)
      <-> In k (map agg_key groups) \/ frame_key period_of r = Some k).
    { unfold frame_key. destruct (period_of r) as [p|]; cbn [option_map].
      - rewrite upsert_key_in. split.
        + intros [->|Hk]; auto.
        + intros [Hk|Hk]; auto. injection Hk as <-. auto.
      - split; auto. intros [Hk|Hk]; [exact Hk | discriminate Hk]. }
    rewrite Hstep. split.
    + intros [[Hk|Hk]|(r' & Hr' & Hk)]; auto.
      * right. exists r. split; [now left | exact Hk].
      * right. exists r'. split; [now right | exact Hk].
    + intros [Hk|(r' & [<-|Hr'] & Hk)]; auto.
      right. exists r'. split; assumption.
Qed.

Lemma ascending_nodup (table : list (agg_row P)) :
  key_ascending table -> NoDup (map agg_key table).
Proof.
  induction 1 as [|g rest Hs IH Hg]; simpl; constructor; auto.
  intros Hin. apply in_map_iff in Hin as (x & Hx & Hin).
  rewrite Forall_forall in Hg. specialize (Hg x Hin).
  rewrite Hx, key_cmp_refl in Hg. discriminate Hg.
Qed.

(** X11.  A table [groupby(...).agg(sum)] returns comes in strictly
    ascending order of (bridgeId, bridgeName, period): no key occurs twice.
    Its keys are those of the frame lines whose period is not NaN. *)
Theorem groups_are_sorted_and_distinct
    (period_of : frame_row -> option P) (df : list frame_row) :
  key_ascending (groupby_sum period_of df) /\
  NoDup (map agg_key (groupby_sum period_of df)) /\
  (forall k, In k (map agg_key (groupby_sum period_of df))
             <-> exists r, In r df /\ frame_key period_of r = Some k).
Proof.
  assert (Ha : key_ascending (groupby_sum period_of df)).
  { apply groupby_fold_ascending. constructor. }
  split; [exact Ha|]. split; [apply ascending_nodup, Ha|].
  intros k. unfold groupby_sum. rewrite groupby_fold_keys. simpl.
  split; [intros [[]|Hk]; exact Hk | auto].
Qed.

(** *** The sort is stable *)

Lemma tied_not_before (a x y : agg_row P) :
  tied a x = true -> tied a y = true -> row_before y x = false.
Proof.
  unfold tied. intros Hx Hy.
  apply andb_prop in Hx as [Hax Hxa]. apply andb_prop in Hy as [Hay Hya].
  apply negb_true_iff in Hax, Hxa, Hay, Hya.
  apply (not_after_trans x a y); assumption.
Qed.

Lemma insert_sorted_tied (a x : agg_row P) l :
  filter (tied a) (insert_sorted x l)
  = if tied a x then x :: filter (tied a) l else filter (tied a) l.
Proof.
  induction l as [|y l IH]; simpl.
  - destruct (tied a x); reflexivity.
  - destruct (row_before y x) eqn:E; simpl.
    + rewrite IH. destruct (tied a y) eqn:Ey; [|reflexivity].
      destruct (tied a x) eqn:Ex; [|reflexivity].
      rewrite (tied_not_before a x y Ex Ey) in E. discriminate E.
    + destruct (tied a x); reflexivity.
Qed.

Lemma sort_values_tied (a : agg_row P) l :
  filter (tied a) (sort_values l) = filter (tied a) l.
Proof.
  induction l as [|x l IH]; simpl; [reflexivity|].
  rewrite insert_sorted_tied, IH. reflexivity.
Qed.

(** X12.  [sort_values] rearranges the lines of a table into ascending
    order of period and, within a period, descending order of total with
    NaN last; lines it does not tell apart keep the order they had. *)
Theorem sort_values_is_stable (l : list (agg_row P)) :
  Permutation (sort_values l) l /\
  StronglySorted not_after (sort_values l) /\
  (forall a, filter (tied a) (sort_values l) = filter (tied a) l).
Proof.
  split; [apply sort_values_perm|].
  split; [apply sort_values_sorted|].
  intros a. apply sort_values_tied.
Qed.

(** *** The head of each period *)

Lemma in_period_same p (r x : agg_row P) :
  in_period p r = true -> same_period r x = in_period p x.
Proof.
  unfold in_period, same_period. intros Hr. apply peqb_eq in Hr. subst p.
  apply peqb_sym.
Qed.

Lemma group_count_period p (r : agg_row P) l :
  in_period p r = true -> group_count r l = rows_in_period p l.
Proof.
  intros Hr. unfold group_count, rows_in_period. do 2 f_equal.
  apply filter_ext. intros x. now apply in_period_same.
Qed.

Lemma rows_in_period_snoc p (x : agg_row P) l :
  rows_in_period p (l ++ [x])
  = rows_in_period p l + (if in_period p x then 1 else 0).
Proof.
  unfold rows_in_period. rewrite filter_app, length_app. simpl.
  destruct (in_period p x); simpl; lia.
Qed.

Lemma rows_in_period_perm p (l1 l2 : list (agg_row P)) :
  Permutation l1 l2 -> rows_in_period p l1 = rows_in_period p l2.
Proof.
  intros Hp. unfold rows_in_period. f_equal.
  apply Permutation_length. now apply filter_perm.
Qed.

Lemma head_from_prefix n whole p (l : list (agg_row P)) : forall seen,
  filter (in_period p) (head_from n whole seen l)
  = firstn (Z.to_nat (head_limit n p whole - rows_in_period p seen))
           (filter (in_period p) l).
Proof.
  induction l as [|x l IH]; intros seen; cbn [head_from].
  - simpl. now rewrite firstn_nil.
  - specialize (IH (seen ++ [x])). rewrite rows_in_period_snoc in IH.
    destruct (in_period p x) eqn:E.
    + rewrite (group_count_period p x seen E), (group_count_period p x whole E).
      fold (head_limit n p whole).
      pose proof (Z.ltb_spec (rows_in_period p seen) (head_limit n p whole)) as Hl.
      destruct Hl as [Hl|Hl]; cbn [filter]; rewrite E, IH.
      * replace (Z.to_nat (head_limit n p whole - rows_in_period p seen))
          with (S (Z.to_nat (head_limit n p whole - (rows_in_period p seen + 1))))
          by lia.
        reflexivity.
      * replace (Z.to_nat (head_limit n p whole - (rows_in_period p seen + 1)))
          with O by lia.
        replace (Z.to_nat (head_limit n p whole - rows_in_period p seen))
          with O by lia.
        reflexivity.
    + rewrite Z.add_0_r in IH.
      destruct (group_count x seen <? _); cbn [filter]; rewrite E; exact IH.
Qed.

(** X13.  Of every period, the top-N table holds the leading lines of the
    sorted table and nothing else: the first [n] of them for a non-negative
    [n], and all but the last [-n] for a negative one. *)
Theorem top_n_is_a_prefix (table : list (agg_row P)) (n : Z) (p : P) :
  filter (in_period p) (top_n_per_period table n)
  = firstn (Z.to_nat (head_limit n p table))
           (filter (in_period p) (sort_values table)) /\
  rows_in_period p (top_n_per_period table n)
  = Z.max 0 (Z.min (head_limit n p table) (rows_in_period p table)).
Proof.
  assert (Hl : head_limit n p (sort_values table) = head_limit n p table).
  { unfold head_limit.
    now rewrite (rows_in_period_perm p _ _ (sort_values_perm table)). }
  assert (Hf : filter (in_period p) (top_n_per_period table n)
               = firstn (Z.to_nat (head_limit n p table))
                        (filter (in_period p) (sort_values table))).
  { unfold top_n_per_period, head. rewrite head_from_prefix, Hl.
    unfold rows_in_period at 1. simpl. now rewrite Z.sub_0_r. }
  split; [exact Hf|].
  unfold rows_in_period at 1. rewrite Hf, length_firstn.
  rewrite <- (rows_in_period_perm p _ _ (sort_values_perm table)).
  unfold rows_in_period. lia.
Qed.

End Keys.

Import Scenario.

Lemma groups_are_sorted_and_distinct_witness :
  NoDup (map agg_key (groupby_sum f_month [line "2023-02"; line "2023-01";
                                           line "2023-02"])) /\
  map a_period (groupby_sum f_month [line "2023-02"; line "2023-01";
                                     line "2023-02"])
  = ["2023-01"; "2023-02"].
Proof.
  split.
  - exact (proj1 (proj2 (groups_are_sorted_and_distinct f_month
                           [line "2023-02"; line "2023-01"; line "2023-02"]))).
  - reflexivity.
Defined.

Lemma sort_values_is_stable_witness :
  map a_bridgeName
      (sort_values [agg "2023-01" 1 "A" 100; agg "2023-01" 2 "B" 300;
                    agg "2023-01" 3 "C" 100])
  = ["B"; "A"; "C"] /\
  filter (tied (agg "2023-01" 1 "A" 100))
         (sort_values [agg "2023-01" 1 "A" 100; agg "2023-01" 2 "B" 300;
                       agg "2023-01" 3 "C" 100])
  = filter (tied (agg "2023-01" 1 "A" 100))
           [agg "2023-01" 1 "A" 100; agg "2023-01" 2 "B" 300;
            agg "2023-01" 3 "C" 100].
Proof.
  split.
  - reflexivity.
  - exact (proj2 (proj2 (sort_values_is_stable
                           [agg "2023-01" 1 "A" 100; agg "2023-01" 2 "B" 300;
                            agg "2023-01" 3 "C" 100]))
                 (agg "2023-01" 1 "A" 100)).
Defined.

Lemma top_n_is_a_prefix_witness :
  rows_in_period "2023-01" (top_n_per_period table3 (-1))
  = Z.max 0 (Z.min (head_limit (-1) "2023-01" table3)
                   (rows_in_period "2023-01" table3)) /\
  head_limit (-1) "2023-01" table3 = 2.
Proof.
  split.
  - exact (proj2 (top_n_is_a_prefix table3 (-1) "2023-01")).
  - reflexivity.
Defined.

End TableFacts.

(** ** Shares, the window of months and the closing report *)

Module ReportFacts.
Import Float Py Data Frame Main Spec Props.
Import FrameFacts OrderFacts SortFacts ConservationFacts RankFacts ShareFacts.
Import TableFacts.

#[local] Arguments nanadd : simpl never.
#[local] Arguments zero : simpl never.

(** *** Shares of non-negative totals *)






Section Shares.
Context {P : Type} `{PeriodLaws P}.


End Shares.

(** *** The window of months *)

Lemma filter_months_window s e df r :
  In r (filter_months s e df) ->
  In r df /\
  (s = "" \/ exists m, f_month r = Some m /\ String.leb s m = true) /\
  (e = "" \/ exists m, f_month r = Some m /\ String.leb m e = true).
Proof.
  unfold filter_months. intros Hin.
  assert (He : (e = "" /\
                In r (if negb (String.eqb s "")
                      then filter (month_ge s) df else df)) \/
               (month_le e r = true /\
                In r (if negb (String.eqb s "")
                      then filter (month_ge s) df else df))).
  { destruct (String.eqb e "") eqn:Ee; simpl in Hin.
    - left. apply String.eqb_eq in Ee. auto.
    - right. apply filter_In in Hin as [Hin Hle]. auto. }
  assert (Hs : forall (Hin' : In r (if negb (String.eqb s "")
                                    then filter (month_ge s) df else df)),
             In r df /\
             (s = "" \/ exists m, f_month r = Some m /\ String.leb s m = true)).
  { intros Hin'. destruct (String.eqb s "") eqn:Es; simpl in Hin'.
    - apply String.eqb_eq in Es. auto.
    - apply filter_In in Hin' as [Hin' Hge]. split; [exact Hin'|]. right.
      unfold month_ge in Hge. destruct (f_month r) as [m|]; [eauto|discriminate]. }
  destruct He as [[-> Hin']|[Hle Hin']]; destruct (Hs Hin') as [Hdf Hst];
    repeat split; auto.
  right. unfold month_le in Hle.
  destruct (f_month r) as [m|]; [eauto|discriminate].
Qed.

Lemma prepare_frame_inv a rows r :
  In r (prepare_frame a rows) ->
  exists row,
    In row rows /\ f_bridgeId r = bridgeId row /\
    f_bridgeName r = bridgeName row /\
    f_month r = f_month (frame_of_row row) /\
    f_year r = f_year (frame_of_row row) /\
    (forall m, f_month r = Some m -> in_window a m).
Proof.
  unfold prepare_frame, clean_numeric, build_frame. intros Hin.
  apply in_map_iff in Hin as (r0 & <- & Hin).
  apply filter_months_window in Hin as (Hin & Hs & He).
  apply in_map_iff in Hin as (row & <- & Hrow).
  exists row. do 5 (split; [auto|]).
  intros m Hm. change (f_month (frame_of_row row) = Some m) in Hm. split.
  - destruct Hs as [Hs|(m' & Hm' & Hs)]; [now left|].
    right. congruence.
  - destruct He as [He|(m' & Hm' & He)]; [now left|].
    right. congruence.
Qed.

Lemma frame_key_inv {P : Type} `{Period P} (period_of : frame_row -> option P)
    r (g : agg_row P) :
  frame_key period_of r = Some (agg_key g) ->
  f_bridgeId r = a_bridgeId g /\ f_bridgeName r = a_bridgeName g /\
  period_of r = Some (a_period g).
Proof.
  unfold frame_key, agg_key. destruct (period_of r) as [p|]; simpl;
    [|discriminate].
  intros [= -> -> ->]. auto.
Qed.

Lemma group_has_line {P : Type} `{PeriodLaws P}
    (period_of : frame_row -> option P) df (g : agg_row P) :
  In g (groupby_sum period_of df) ->
  exists r, In r df /\ f_bridgeId r = a_bridgeId g /\
            f_bridgeName r = a_bridgeName g /\
            period_of r = Some (a_period g).
Proof.
  intros Hg.
  assert (Hk : In (agg_key g) (map agg_key (groupby_sum period_of df)))
    by now apply in_map.
  unfold groupby_sum in Hk. apply groupby_fold_keys in Hk as [[]|(r & Hr & Hk)].
  exists r. split; [exact Hr|]. now apply frame_key_inv.
Qed.

(** X15.  Every line of the monthly table and of the yearly table stems
    from a collected row of that bridge, dated in the period of the line
    and in a month inside the window asked for. *)
Theorem tables_stay_in_window (a : args) (rows : list daily_row) :
  let tables := aggregate_monthly_yearly (prepare_frame a rows) in
  (forall g, In g (fst tables) ->
     exists row,
       In row rows /\ bridgeId row = a_bridgeId g /\
       bridgeName row = a_bridgeName g /\
       f_month (frame_of_row row) = Some (a_period g) /\
       in_window a (a_period g)) /\
  (forall g, In g (snd tables) ->
     exists row m,
       In row rows /\ bridgeId row = a_bridgeId g /\
       bridgeName row = a_bridgeName g /\
       f_year (frame_of_row row) = Some (a_period g) /\
       f_month (frame_of_row row) = Some m /\ in_window a m).
Proof.
  intros tables. subst tables. unfold aggregate_monthly_yearly. cbn [fst snd].
  split; intros g Hg.
  - apply group_has_line in Hg as (r & Hr & Hi & Hn & Hp).
    apply prepare_frame_inv in Hr as (row & Hrow & Ei & En & Em & _ & Hw).
    exists row. split; [exact Hrow|]. split; [congruence|].
    split; [congruence|]. split; [congruence|]. apply Hw. exact Hp.
  - apply (Permutation_in _ (sort_values_perm _)) in Hg.
    apply group_has_line in Hg as (r & Hr & Hi & Hn & Hp).
    apply prepare_frame_inv in Hr as (row & Hrow & Ei & En & Em & Ey & Hw).
    assert (Hm : exists m, f_month r = Some m).
    { rewrite Em. rewrite Ey in Hp. unfold frame_of_row in *. simpl in *.
      destruct (Dates.to_datetime (date row)); simpl in *;
        [eexists; reflexivity | discriminate Hp]. }
    destruct Hm as (m & Hm). exists row, m.
    split; [exact Hrow|]. split; [congruence|]. split; [congruence|].
    split; [congruence|]. split; [congruence|]. apply Hw. exact Hm.
Qed.

(** *** The last active month *)

Lemma string_leb_refl s : String.leb s s = true.
Proof. unfold String.leb. now rewrite string_compare_refl. Qed.

Lemma string_ltb_leb a b : String.ltb a b = true -> String.leb a b = true.
Proof.
  unfold String.ltb, String.leb. destruct (String.compare a b); auto.
Qed.

Lemma string_nltb_leb a b : String.ltb a b = false -> String.leb b a = true.
Proof.
  unfold String.ltb, String.leb. rewrite (String.compare_antisym b a).
  destruct (String.compare a b); simpl; auto.
Qed.

Lemma string_leb_trans a b c :
  String.leb a b = true -> String.leb b c = true -> String.leb a c = true.
Proof.
  unfold String.leb.
  destruct (String.compare a b) eqn:Eab; try discriminate;
  destruct (String.compare b c) eqn:Ebc; try discriminate; intros _ _.
  - apply String.compare_eq_iff in Eab, Ebc. subst.
    now rewrite string_compare_refl.
  - apply String.compare_eq_iff in Eab. subst. now rewrite Ebc.
  - apply String.compare_eq_iff in Ebc. subst. now rewrite Eab.
  - now rewrite (string_compare_lt_trans _ _ _ Eab Ebc).
Qed.

Lemma last_active_fold l : forall best,
  match
    fold_left
      (fun best r =>
         if fltb zero (a_totalUSD r) then
           match best with
           | Some m => if String.ltb m (a_period r) then Some (a_period r)
                       else best
           | None => Some (a_period r)
           end
         else best)
      l best
  with
  | None => best = None /\ Forall (fun r => active r = false) l
  | Some m =>
      (best = Some m \/ exists r, In r l /\ active r = true /\ a_period r = m) /\
      (forall b, best = Some b -> String.leb b m = true) /\
      Forall (fun r => active r = true -> String.leb (a_period r) m = true) l
  end.
Proof.
  induction l as [|r l IH]; intros best; cbn [fold_left].
  - destruct best as [m|]; [|auto].
    split; [now left|]. split; [|constructor].
    intros b [= ->]. apply string_leb_refl.
  - match goal with
    | |- match fold_left _ _ ?b with _ => _ end => specialize (IH b)
    end.
    fold (active r) in *.
    destruct (fold_left _ l _) as [m|].
    + destruct IH as (Hw & Hb & Hl).
      assert (Hw' : forall x, (exists r0, In r0 l /\ active r0 = true /\
                                          a_period r0 = x) ->
                exists r0, In r0 (r :: l) /\ active r0 = true /\
                           a_period r0 = x).
      { intros x (r0 & H0 & H1 & H2). exists r0. split; [now right|auto]. }
      destruct (active r) eqn:Ea.
      * assert (Hr : forall x, Some (a_period r) = Some x \/
                       (exists r0, In r0 l /\ active r0 = true /\
                                   a_period r0 = x) ->
                  exists r0, In r0 (r :: l) /\ active r0 = true /\
                             a_period r0 = x).
        { intros x [[= <-]|Hx]; [|now apply Hw'].
          exists r. split; [now left|auto]. }
        destruct best as [b|].
        -- destruct (String.ltb b (a_period r)) eqn:El.
           ++ pose proof (Hb _ eq_refl) as Hpm.
              split; [right; now apply Hr|]. split.
              ** intros b' [= <-].
                 eapply string_leb_trans; [apply string_ltb_leb, El|exact Hpm].
              ** constructor; auto.
           ++ pose proof (Hb _ eq_refl) as Hbm.
              split; [destruct Hw as [Hw|Hw]; [now left|right; now apply Hw']|].
              split; [exact Hb|].
              constructor; auto. intros _.
              eapply string_leb_trans; [apply string_nltb_leb, El|exact Hbm].
        -- split; [right; now apply Hr|]. split; [discriminate|].
           constructor; auto.
      * split; [destruct Hw as [Hw|Hw]; [now left|right; now apply Hw']|].
        split; [exact Hb|].
        constructor; [intros Hx; congruence | exact Hl].
    + destruct IH as (Hn & Hl).
      destruct (active r) eqn:Ea.
      * destruct best as [b|]; [destruct (String.ltb b (a_period r))|];
          discriminate Hn.
      * split; [exact Hn|]. constructor; auto.
Qed.

(** X16.  The month the closing report calls the last active one is the
    greatest month among the lines of the monthly table with a positive
    total; there is none exactly when no line has a positive total. *)
Theorem last_active_month_is_latest (monthly : list (agg_row string)) :
  match last_active_month monthly with
  | None => Forall (fun r => active r = false) monthly
  | Some m =>
      (exists r, In r monthly /\ active r = true /\ a_period r = m) /\
      Forall (fun r => active r = true -> String.leb (a_period r) m = true)
             monthly
  end.
Proof.
  unfold last_active_month.
  pose proof (last_active_fold monthly None) as H.
  destruct (fold_left _ monthly None) as [m|].
  - destruct H as ([H|H] & _ & Hl); [discriminate H|]. split; assumption.
  - apply H.
Qed.

Import Scenario.


Lemma tables_stay_in_window_witness :
  exists row,
    In row [mk_daily 1 "A" "2023-01-01" (of_Z 1) (of_Z 2) (of_Z 3)
                     (of_Z (-1))] /\
    bridgeId row = 1 /\ bridgeName row = "A" /\
    f_month (frame_of_row row) = Some "2023-01" /\
    in_window args_top1 "2023-01".
Proof.
  apply (proj1 (tables_stay_in_window args_top1
                  [mk_daily 1 "A" "2023-01-01" (of_Z 1) (of_Z 2) (of_Z 3)
                            (of_Z (-1))])
               (mk_agg "2023-01" 1 "A" (of_Z 1) (of_Z 2) (of_Z 3) (of_Z (-1)))).
  left. qc_refl.
Defined.

End ReportFacts.

(** ** Dates: from the timestamp of a record to the columns of the frame *)

Module CalendarFacts.
Import PyStr Float Py Dates Data Collect Frame Spec Props.
Import CollectFacts.












Import Scenario.


End CalendarFacts.

(** ** Records: amounts, failures, and histories cut short *)

Module RecordFacts.
Import PyStr Float Py Dates Data Collect Spec Props.
Import CoerceFacts CollectFacts.

Lemma small_int_floats z :
  Z.abs z < overflow_threshold -> float_of_int z = Ok (of_Z z).
Proof.
  intros Hz. unfold float_of_int. apply Z.ltb_lt in Hz. now rewrite Hz.
Qed.

Lemma huge_int_overflows z :
  overflow_threshold <= Z.abs z -> float_of_int z = Raise OverflowError.
Proof.
  intros Hz. unfold float_of_int. apply Z.ltb_ge in Hz. now rewrite Hz.
Qed.

Lemma threshold_above_one : 1 < overflow_threshold.
Proof. vm_compute. reflexivity. Qed.

Lemma to_float_raises x e :
  to_float x = Raise e ->
  e = OverflowError /\ exists z, x = JInt z /\ overflow_threshold <= Z.abs z.
Proof.
  pose proof threshold_above_one as Ht.
  destruct x as [|b|z|f|s|items|fields]; cbn [to_float]; try discriminate.
  - destruct b; rewrite small_int_floats by (simpl; lia); discriminate.
  - unfold float_of_int. destruct (Z.abs z <? overflow_threshold) eqn:E;
      [discriminate|].
    intros [= <-]. apply Z.ltb_ge in E. eauto.
  - cbv zeta. destruct (String.eqb (strip s) ""); [discriminate|].
    destruct (first_float (candidates (strip s))); discriminate.
Qed.

(** X18.  [to_float] raises in one case only: an integer too large for a
    float, with [OverflowError].  Every other value, whatever its type or
    its text, is turned into a float. *)
Theorem to_float_raises_only_on_huge_int (x : json) :
  (forall e, to_float x = Raise e ->
     e = OverflowError /\
     exists z, x = JInt z /\ overflow_threshold <= Z.abs z) /\
  (forall z, x = JInt z -> overflow_threshold <= Z.abs z ->
     to_float x = Raise OverflowError) /\
  ((forall z, x = JInt z -> Z.abs z < overflow_threshold) ->
   exists f, to_float x = Ok f).
Proof.
  split; [apply to_float_raises|]. split.
  - intros z -> Hz. simpl. now apply huge_int_overflows.
  - intros Hsmall. destruct (to_float x) as [f|e] eqn:E; [eauto|].
    apply to_float_raises in E as (_ & z & -> & Hz).
    specialize (Hsmall z eq_refl). lia.
Qed.

(** X19.  Around an amount the guard [nz(..., 0)] changes nothing:
    [to_float] reads a missing or blank value as 0.0 by itself. *)
Theorem nz_changes_no_amount (v : json) :
  to_float (nz v (JInt 0)) = to_float v.
Proof.
  destruct v as [|b|z|f|s|items|fields]; try reflexivity.
  simpl. destruct (String.eqb (strip s) "") eqn:E; simpl.
  - reflexivity.
  - rewrite E. reflexivity.
Qed.


Lemma get_raises r key e :
  get r key = Raise e -> e = AttributeError /\ forall fields, r <> JObj fields.
Proof.
  destruct r; simpl; try (intros [= <-]; split; [reflexivity|discriminate]).
  destruct (assoc key fields); discriminate.
Qed.



(** X21.  A record that fails cuts the history of its bridge short: the
    rows of the records before it stay in the list, the records after it
    are not read.  Without a failure every record gives its row, in
    order. *)
Theorem bad_record_cuts_history names bid hist : forall rows,
  exists done,
    fst (append_rows names bid hist rows) = rows ++ done /\
    match snd (append_rows names bid hist rows) with
    | None =>
        Forall2 (fun r row => row_of_record names bid r = Ok row) hist done
    | Some e =>
        exists pre r post,
          hist = pre ++ r :: post /\
          Forall2 (fun r row => row_of_record names bid r = Ok row) pre done /\
          row_of_record names bid r = Raise e
    end.
Proof.
  induction hist as [|r hist IH]; intros rows; cbn [append_rows].
  - exists []. rewrite app_nil_r. split; [reflexivity | constructor].
  - destruct (row_of_record names bid r) as [row|e] eqn:Er.
    + destruct (IH (rows ++ [row])) as (done & Hd & Hm).
      exists (row :: done). rewrite Hd, <- app_assoc. split; [reflexivity|].
      destruct (snd (append_rows names bid hist (rows ++ [row]))) as [e|].
      * destruct Hm as (pre & r' & post & -> & Hpre & Hr').
        exists (r :: pre), r', post. repeat split; auto.
      * constructor; auto.
    + exists []. rewrite app_nil_r. split; [reflexivity|].
      exists [], r, hist. repeat split; auto.
Qed.

Import Scenario.

Lemma to_float_raises_only_on_huge_int_witness :
  to_float (JInt (2 ^ 1024)) = Raise OverflowError /\
  exists f, to_float (JStr "12,5") = Ok f.
Proof.
  split.
  - apply (proj1 (proj2 (to_float_raises_only_on_huge_int (JInt (2 ^ 1024))))
             (2 ^ 1024) eq_refl).
    vm_compute. discriminate.
  - apply (proj2 (proj2 (to_float_raises_only_on_huge_int (JStr "12,5")))).
    intros z Hz. discriminate Hz.
Defined.


End RecordFacts.

(** ** Catalogs that stop [main], and the last year of the report *)

Module CatalogErrorFacts.
Import Float Py Data IO Fetch Collect Frame Main Spec Props.
Import IOFacts MainFacts RecordFacts.
Local Open Scope io_scope.

(** Once the catalog is there, a failure of the loop over its entries
    leaves [main] as it is, with nothing done in between. *)
Lemma main_catalog_error net a w0 overview w1 e :
  fetch_bridges_overview net
    (w0 ++ [EMkdir (outdir a); EStdout MsgFetchingOverview])
  = (Return overview, w1) ->
  truthy overview = true ->
  (items <-- iterate overview ;; catalog_loop items [] [])%res = Raise e ->
  main net a w0 = (Fail (Exception e), w1).
Proof.
  intros Hf Ht He. unfold main, load_catalog.
  unfold bind at 1. unfold bind at 1. simpl.
  unfold bind at 1. simpl. rewrite <- app_assoc.
  unfold bind at 1. simpl. rewrite Hf, Ht. simpl.
  destruct (iterate overview) as [items|e0]; simpl.
  - unfold bind at 1. simpl. unfold bind at 1.
    rewrite He. reflexivity.
  - injection He as <-. reflexivity.
Qed.

Lemma get_ok_object b key v :
  get b key = Ok v -> exists fields, b = JObj fields.
Proof. destruct b; simpl; try discriminate. eauto. Qed.

Lemma display_of_object fields bid : exists s, display_of (JObj fields) bid = Ok s.
Proof.
  unfold display_of. simpl.
  repeat match goal with
         | |- context [assoc ?k fields] => destruct (assoc k fields)
         | |- context [negb (String.eqb ?s "")] =>
             destruct (negb (String.eqb s ""))
         end; eauto.
Qed.

(** The entry whose id cannot be read. *)
Lemma catalog_loop_raises items : forall ids names e,
  catalog_loop items ids names = Raise e ->
  exists pre b post,
    items = pre ++ b :: post /\
    Forall (fun b => exists idv bid, get b "id" = Ok idv /\ int_of idv = Ok bid)
           pre /\
    ((e = AttributeError /\ forall fields, b <> JObj fields) \/
     exists idv, get b "id" = Ok idv /\ int_of idv = Raise e).
Proof.
  induction items as [|b rest IH]; intros ids names e H; [discriminate H|].
  cbn [catalog_loop] in H.
  destruct (get b "id") as [idv|e0] eqn:Eg.
  - destruct (int_of idv) as [bid|e1] eqn:Ei.
    + destruct (get_ok_object _ _ _ Eg) as (fields & ->).
      destruct (display_of_object fields bid) as (disp & Ed). rewrite Ed in H.
      apply IH in H as (pre & b' & post & -> & Hpre & Hb').
      exists (JObj fields :: pre), b', post. repeat split; eauto.
    + injection H as <-. exists [], b, rest. repeat split; eauto.
  - injection H as <-. exists [], b, rest. repeat split; auto.
    left. eapply get_raises. exact Eg.
Qed.

(** X22.  A catalog that is not a list stops [main] with an exception, not
    with the exit status for an empty catalog: a non-empty object or
    string, whose elements have no [get], raises [AttributeError]; a number
    or [true], which cannot be iterated, raises [TypeError]. *)
Theorem malformed_catalog_crashes net a w0 overview w1 :
  fetch_bridges_overview net
    (w0 ++ [EMkdir (outdir a); EStdout MsgFetchingOverview])
  = (Return overview, w1) ->
  truthy overview = true ->
  (forall items, overview <> JArr items) ->
  exists e,
    main net a w0 = (Fail (Exception e), w1) /\
    match overview with
    | JObj _ | JStr _ => e = AttributeError
    | _ => e = TypeError
    end.
Proof.
  intros Hf Ht Hn.
  destruct overview as [|b|z|f|s|items|fields]; simpl in Ht;
    try discriminate Ht.
  - exists TypeError. split; [|reflexivity].
    apply (main_catalog_error _ _ _ _ _ _ Hf); [exact Ht | reflexivity].
  - exists TypeError. split; [|reflexivity].
    apply (main_catalog_error _ _ _ _ _ _ Hf); [exact Ht | reflexivity].
  - exists TypeError. split; [|reflexivity].
    apply (main_catalog_error _ _ _ _ _ _ Hf); [exact Ht | reflexivity].
  - exists AttributeError. split; [|reflexivity].
    apply (main_catalog_error _ _ _ _ _ _ Hf); [exact Ht|].
    destruct s as [|c s]; [discriminate Ht | reflexivity].
  - exfalso. exact (Hn items eq_refl).
  - exists AttributeError. split; [|reflexivity].
    apply (main_catalog_error _ _ _ _ _ _ Hf); [exact Ht|].
    destruct fields as [|[k v] fields]; [discriminate Ht | reflexivity].
Qed.

(** X23.  One entry of the catalog whose id cannot be read stops [main]
    before any history is asked for: the entry is no object
    ([AttributeError]), or [int] refuses its id. *)
Theorem bad_catalog_entry_aborts net a w0 items w1 e :
  fetch_bridges_overview net
    (w0 ++ [EMkdir (outdir a); EStdout MsgFetchingOverview])
  = (Return (JArr items), w1) ->
  catalog_loop items [] [] = Raise e ->
  main net a w0 = (Fail (Exception e), w1) /\
  exists pre b post,
    items = pre ++ b :: post /\
    Forall (fun b => exists idv bid, get b "id" = Ok idv /\ int_of idv = Ok bid)
           pre /\
    ((e = AttributeError /\ forall fields, b <> JObj fields) \/
     exists idv, get b "id" = Ok idv /\ int_of idv = Raise e).
Proof.
  intros Hf He. split.
  - apply (main_catalog_error _ _ _ _ _ _ Hf); [|exact He].
    destruct items; [discriminate He | reflexivity].
  - apply catalog_loop_raises in He. exact He.
Qed.

(** *** The last year *)

Lemma last_year_fold l : forall best,
  match
    fold_left
      (fun best (r : top_row Z) =>
         match best with
         | Some y => Some (Z.max y (a_period (t_agg r)))
         | None => Some (a_period (t_agg r))
         end)
      l best
  with
  | None => best = None /\ l = []
  | Some y =>
      (best = Some y \/ exists r, In r l /\ a_period (t_agg r) = y) /\
      (forall b, best = Some b -> b <= y) /\
      Forall (fun r => a_period (t_agg r) <= y) l
  end.
Proof.
  induction l as [|r l IH]; intros best; cbn [fold_left].
  - destruct best as [y|]; [|auto].
    split; [now left|]. split; [|constructor]. intros b [= ->]. lia.
  - match goal with
    | |- match fold_left _ _ ?b with _ => _ end => specialize (IH b)
    end.
    destruct (fold_left _ l _) as [y|].
    + destruct IH as (Hw & Hb & Hl).
      assert (Hr : a_period (t_agg r) <= y).
      { destruct best as [b|]; [specialize (Hb _ eq_refl); lia|].
        apply (Hb _ eq_refl). }
      split; [|split].
      * destruct Hw as [Hw|(r0 & H0 & H1)].
        -- destruct best as [b|].
           ++ injection Hw as Hw.
              destruct (Z.max_spec b (a_period (t_agg r))) as [[_ E]|[_ E]];
                rewrite E in Hw.
              ** right. exists r. split; [now left | exact Hw].
              ** left. now f_equal.
           ++ injection Hw as Hw. right. exists r. split; [now left | exact Hw].
        -- right. exists r0. split; [now right | exact H1].
      * intros b ->. specialize (Hb _ eq_refl). lia.
      * constructor; assumption.
    + destruct IH as (Hn & _). destruct best; discriminate Hn.
Qed.

(** X24.  The year the closing report calls the last one is the greatest
    year of the yearly top-N table; there is none exactly when that table
    is empty. *)
Theorem last_year_is_latest (top : list (top_row Z)) :
  match last_year top with
  | None => top = []
  | Some y =>
      (exists r, In r top /\ a_period (t_agg r) = y) /\
      Forall (fun r => a_period (t_agg r) <= y) top
  end.
Proof.
  unfold last_year. pose proof (last_year_fold top None) as H.
  destruct (fold_left _ top None) as [y|].
  - destruct H as ([H|H] & _ & Hl); [discriminate H|]. split; assumption.
  - apply H.
Qed.

Import Scenario.

Lemma malformed_catalog_crashes_witness :
  exists e,
    main (fun _ _ => Payload (JObj [("bridges", JObj [("a", JInt 1)])]))
         args_top1 []
    = (Fail (Exception e),
       [EMkdir "out"; EStdout MsgFetchingOverview; EGet catalog_request]) /\
    e = AttributeError.
Proof.
  apply (malformed_catalog_crashes
           (fun _ _ => Payload (JObj [("bridges", JObj [("a", JInt 1)])]))
           args_top1 [] (JObj [("a", JInt 1)])).
  - reflexivity.
  - reflexivity.
  - intros items. discriminate.
Defined.

Lemma bad_catalog_entry_aborts_witness :
  main (fun _ _ => Payload (catalog [bridge 1 "A"; JObj [("name", JStr "B")]]))
       args_top1 []
  = (Fail (Exception TypeError),
     [EMkdir "out"; EStdout MsgFetchingOverview; EGet catalog_request]).
Proof.
  apply (bad_catalog_entry_aborts
           (fun _ _ => Payload (catalog [bridge 1 "A"; JObj [("name", JStr "B")]]))
           args_top1 [] [bridge 1 "A"; JObj [("name", JStr "B")]]).
  - reflexivity.
  - reflexivity.
Defined.

End CatalogErrorFacts.

(** ** The sums of each group, and sorting twice *)

Module GroupFacts.
Import Float Py Data Frame Spec Props.
Import FrameFacts OrderFacts SortFacts ConservationFacts RankFacts TableFacts.

#[local] Arguments nanadd : simpl never.
#[local] Arguments zero : simpl never.

Section Groups.
Context {P : Type} `{PeriodLaws P}.
Variable period_of : frame_row -> option P.

Lemma has_key_spec k r :
  has_key period_of k r = true <-> frame_key period_of r = Some k.
Proof.
  unfold has_key, frame_key. destruct (period_of r) as [p|]; cbn [option_map].
  - destruct (key_cmp (f_bridgeId r, f_bridgeName r, p) k) eqn:E.
    + apply key_cmp_eq in E. rewrite E. split; reflexivity.
    + split; [discriminate|]. intros [= Hk]. rewrite Hk, key_cmp_refl in E.
      discriminate E.
    + split; [discriminate|]. intros [= Hk]. rewrite Hk, key_cmp_refl in E.
      discriminate E.
  - split; discriminate.
Qed.

Lemma has_key_false k r :
  frame_key period_of r <> Some k -> has_key period_of k r = false.
Proof.
  intros Hn. destruct (has_key period_of k r) eqn:E; [|reflexivity].
  apply has_key_spec in E. contradiction.
Qed.

(** Where a line of [upsert k r groups] comes from. *)
Lemma upsert_inv k r groups g' :
  key_ascending groups ->
  In g' (upsert k r groups) ->
  (g' = new_group k r /\ ~ In k (map agg_key groups)) \/
  (exists g, In g groups /\ agg_key g = k /\ g' = add_to_group g r) \/
  (In g' groups /\ agg_key g' <> k).
Proof.
  unfold key_ascending. induction 1 as [|g rest Hs IH Hg]; cbn [upsert].
  - intros [<-|[]]. left. split; [reflexivity|]. intros [].
  - assert (Hrest : forall x, In x rest -> key_cmp (agg_key g) (agg_key x) = Lt).
    { apply Forall_forall. exact Hg. }
    destruct (key_cmp k (agg_key g)) eqn:E.
    + apply key_cmp_eq in E. intros [<-|Hin].
      * right. left. exists g. split; [now left|]. auto.
      * right. right. split; [now right|]. intros Hk.
        specialize (Hrest _ Hin). rewrite Hk, <- E, key_cmp_refl in Hrest.
        discriminate Hrest.
    + intros [<-|Hin].
      * left. split; [reflexivity|]. intros [Hk|Hk].
        -- rewrite Hk, key_cmp_refl in E. discriminate E.
        -- apply in_map_iff in Hk as (x & Hx & Hin).
           specialize (Hrest _ Hin). rewrite Hx in Hrest.
           pose proof (key_cmp_lt_trans _ _ _ E Hrest) as Hkk.
           rewrite key_cmp_refl in Hkk. discriminate Hkk.
      * right. right. split; [exact Hin|]. intros Hk.
        destruct Hin as [<-|Hin].
        -- rewrite Hk, key_cmp_refl in E. discriminate E.
        -- specialize (Hrest _ Hin). rewrite Hk in Hrest.
           pose proof (key_cmp_lt_trans _ _ _ E Hrest) as Hkk.
           rewrite key_cmp_refl in Hkk. discriminate Hkk.
    + intros [<-|Hin].
      * right. right. split; [now left|]. intros Hk.
        rewrite Hk, key_cmp_refl in E. discriminate E.
      * destruct (IH Hin) as [[-> Hn]|[(g0 & Hg0 & Hk0 & ->)|[Hg0 Hk0]]].
        -- left. split; [reflexivity|]. intros [Hk|Hk]; [|contradiction].
           rewrite Hk, key_cmp_refl in E. discriminate E.
        -- right. left. exists g0. split; [now right|]. auto.
        -- right. right. split; [now right | exact Hk0].
Qed.

Variables (fcol : frame_row -> float) (acol : agg_row P -> float).
Hypothesis Hcol : summed fcol acol.

Let step (groups : list (agg_row P)) (r : frame_row) : list (agg_row P) :=
  match period_of r with
  | Some p => upsert (f_bridgeId r, f_bridgeName r, p) r groups
  | None => groups
  end.

Lemma group_sum_snoc k seen r :
  group_sum fcol period_of k (seen ++ [r])
  = if has_key period_of k r
    then nanadd (group_sum fcol period_of k seen) (fcol r)
    else group_sum fcol period_of k seen.
Proof.
  unfold group_sum, nansum. rewrite filter_app. cbn [filter].
  destruct (has_key period_of k r).
  - rewrite map_app, fold_left_app. reflexivity.
  - now rewrite app_nil_r.
Qed.

Lemma grouped_step groups seen r :
  grouped period_of fcol acol groups seen ->
  grouped period_of fcol acol (step groups r) (seen ++ [r]).
Proof.
  intros (Ha & Hk & Hs). unfold step.
  destruct (period_of r) as [p|] eqn:Ep.
  - set (k := (f_bridgeId r, f_bridgeName r, p)).
    assert (Hr : frame_key period_of r = Some k)
      by (unfold frame_key; rewrite Ep; reflexivity).
    split; [now apply upsert_ascending|]. split.
    + intros k'. rewrite upsert_key_in, Hk. split.
      * intros [->|(r0 & Hr0 & Hk0)].
        -- exists r. split; [apply in_or_app; right; now left | exact Hr].
        -- exists r0. split; [apply in_or_app; now left | exact Hk0].
      * intros (r0 & Hr0 & Hk0). apply in_app_or in Hr0 as [Hr0|[<-|[]]].
        -- right. eauto.
        -- left. congruence.
    + intros g' Hg'. rewrite group_sum_snoc.
      destruct (upsert_inv _ _ _ _ Ha Hg')
        as [[-> Hn]|[(g0 & Hg0 & Hk0 & ->)|[Hg0 Hk0]]].
      * rewrite agg_key_new.
        replace (has_key period_of k r) with true
          by (symmetry; now apply has_key_spec).
        rewrite (summed_new _ _ Hcol). f_equal.
        unfold group_sum.
        replace (filter (has_key period_of k) seen) with (@nil frame_row);
          [reflexivity|].
        symmetry. apply filter_none. apply Forall_forall. intros r0 Hr0.
        apply has_key_false. intros Hkr0. apply Hn. apply Hk. eauto.
      * rewrite agg_key_add, Hk0.
        replace (has_key period_of k r) with true
          by (symmetry; now apply has_key_spec).
        rewrite (summed_add _ _ Hcol), (Hs _ Hg0), Hk0. reflexivity.
      * rewrite has_key_false by congruence. apply Hs, Hg0.
  - split; [exact Ha|]. split.
    + intros k'. rewrite Hk. split.
      * intros (r0 & Hr0 & Hk0). exists r0.
        split; [apply in_or_app; now left|auto].
      * intros (r0 & Hr0 & Hk0). apply in_app_or in Hr0 as [Hr0|[<-|[]]]; eauto.
        unfold frame_key in Hk0. rewrite Ep in Hk0. discriminate Hk0.
    + intros g Hg. rewrite group_sum_snoc.
      rewrite has_key_false; [now apply Hs|].
      unfold frame_key. rewrite Ep. discriminate.
Qed.

Lemma grouped_fold df : forall groups seen,
  grouped period_of fcol acol groups seen ->
  grouped period_of fcol acol (fold_left step df groups) (seen ++ df).
Proof.
  induction df as [|r df IH]; intros groups seen Hg; cbn [fold_left].
  - now rewrite app_nil_r.
  - replace (seen ++ r :: df) with ((seen ++ [r]) ++ df)
      by (rewrite <- app_assoc; reflexivity).
    apply IH. now apply grouped_step.
Qed.

Lemma groupby_sum_grouped df :
  grouped period_of fcol acol (groupby_sum period_of df) df.
Proof.
  apply (grouped_fold df [] []). split; [constructor|]. split.
  - intros k. split; [intros [] | intros (r & [] & _)].
  - intros g [].
Qed.

End Groups.

(** X25.  Each line of a grouped table holds, in its four USD columns, the
    pandas sums of these columns over the frame lines of its own key
    (bridgeId, bridgeName, period), and of no other line. *)
Theorem group_sums_are_per_key {P : Type} `{PeriodLaws P}
    (period_of : frame_row -> option P) (df : list frame_row)
    (g : agg_row P) :
  In g (groupby_sum period_of df) ->
  a_depositUSD g = group_sum f_depositUSD period_of (agg_key g) df /\
  a_withdrawUSD g = group_sum f_withdrawUSD period_of (agg_key g) df /\
  a_totalUSD g = group_sum f_totalUSD period_of (agg_key g) df /\
  a_netUSD g = group_sum f_netUSD period_of (agg_key g) df.
Proof.
  intros Hg. repeat split.
  - apply (groupby_sum_grouped period_of _ _ (summed_deposit P) df), Hg.
  - apply (groupby_sum_grouped period_of _ _ (summed_withdraw P) df), Hg.
  - apply (groupby_sum_grouped period_of _ _ (summed_total P) df), Hg.
  - apply (groupby_sum_grouped period_of _ _ (summed_net P) df), Hg.
Qed.

Section Resorting.
Context {P : Type} `{PeriodLaws P}.

Lemma insert_sorted_front (x : agg_row P) l :
  Forall (not_after x) l -> insert_sorted x l = x :: l.
Proof.
  intros Hl. destruct l as [|y l]; [reflexivity|].
  inversion Hl as [|? ? Hy _]; subst. unfold not_after in Hy.
  cbn [insert_sorted]. now rewrite Hy.
Qed.

Lemma sort_values_sorted_id (l : list (agg_row P)) :
  StronglySorted not_after l -> sort_values l = l.
Proof.
  induction 1 as [|x l Hs IH Hx]; [reflexivity|].
  cbn [sort_values]. rewrite IH. now apply insert_sorted_front.
Qed.

Lemma head_from_sorted (R : agg_row P -> agg_row P -> Prop) n whole l :
  forall seen,
  StronglySorted R l -> StronglySorted R (head_from n whole seen l).
Proof.
  induction l as [|x l IH]; intros seen Hs; cbn [head_from]; [constructor|].
  inversion Hs as [|? ? Hl Hx]; subst.
  destruct (group_count x seen <? _); [|now apply IH].
  constructor; [now apply IH|].
  apply Forall_forall. intros y Hy. apply head_from_incl in Hy.
  rewrite Forall_forall in Hx. now apply Hx.
Qed.

(** X26.  Sorting a sorted table changes nothing, so the second sort
    [main] applies to the yearly table is idle; and a top-N table, cut from
    a sorted table, is itself sorted. *)
Theorem resorting_changes_nothing (table : list (agg_row P)) (n : Z) :
  sort_values (sort_values table) = sort_values table /\
  top_n_per_period (sort_values table) n = top_n_per_period table n /\
  StronglySorted not_after (top_n_per_period table n).
Proof.
  assert (Hid : sort_values (sort_values table) = sort_values table)
    by apply sort_values_sorted_id, sort_values_sorted.
  split; [exact Hid|]. split.
  - unfold top_n_per_period. now rewrite Hid.
  - unfold top_n_per_period, head. apply head_from_sorted, sort_values_sorted.
Qed.

End Resorting.

Import Scenario.

Lemma group_sums_are_per_key_witness :
  a_totalUSD (agg "2023-01" 1 "A" 0)
  = group_sum f_totalUSD f_month (1, "A", "2023-01")
      [line "2023-01"; line "2023-02"; line "2023-01"].
Proof.
  refine (proj1 (proj2 (proj2
            (group_sums_are_per_key f_month
               [line "2023-01"; line "2023-02"; line "2023-01"]
               (agg "2023-01" 1 "A" 0) _)))).
  left. qc_refl.
Defined.

Lemma resorting_changes_nothing_witness :
  map a_bridgeName (top_n_per_period (sort_values table3) 2) = ["B"; "C"] /\
  top_n_per_period (sort_values table3) 2 = top_n_per_period table3 2.
Proof.
  split.
  - reflexivity.
  - exact (proj1 (proj2 (resorting_changes_nothing table3 2))).
Defined.

End GroupFacts.

(** ** What [main] asks the service *)

Module RequestFacts.
Import Float Py Data IO Fetch Collect Frame Main Spec Props.
Import IOFacts FetchFacts.
Local Open Scope io_scope.

Lemma expected_sleep d : expected (ESleep d).
Proof. exact I. Qed.

Section Requests.
Variable net : network.

Lemma expected_http_get url p :
  known_request (get_request url p) -> emits expected (http_get net url p).
Proof.
  intros Hr w. unfold http_get.
  exists [EGet (get_request url p)].
  destruct (net _ _); (split; [reflexivity|]);
    (constructor; [exact Hr | constructor]).
Qed.

Lemma expected_retry_loop url p max_retries attempts :
  known_request (get_request url p) ->
  forall delay last,
  emits expected (retry_loop net url p max_retries attempts delay last).
Proof.
  intros Hr. induction attempts as [|n rest IH]; intros delay last; simpl.
  - apply emits_raise.
  - apply emits_bind; [apply emits_attempt, expected_http_get, Hr|].
    intros [body|e]; [apply emits_ret|].
    destruct (n =? max_retries); [apply emits_raise|].
    apply emits_bind; [apply emits_sleep, expected_sleep|]. intros _. apply IH.
Qed.

Lemma catalog_request_known : known_request (get_request BRIDGES_URL None).
Proof. left. reflexivity. Qed.

Lemma history_request_known bid :
  known_request (get_request BRIDGE_VOLUME_URL (Some [("id", bid)])).
Proof. right. exists bid. reflexivity. Qed.

Lemma expected_fetch_bridge_daily_all bid :
  emits expected (fetch_bridge_daily_all net bid).
Proof.
  unfold fetch_bridge_daily_all, http_get_json.
  apply emits_bind; [apply expected_retry_loop, history_request_known|].
  intros data. destruct data; try apply emits_raise.
  destruct items; [apply emits_raise|].
  apply emits_bind; [apply emits_lift|].
  intros [|]; [apply emits_ret | apply emits_raise].
Qed.

Lemma expected_collect_loop names delay_ms total ids :
  forall i rows,
  emits expected (collect_loop net names delay_ms total i ids rows).
Proof.
  induction ids as [|bid ids IH]; intros i rows; simpl.
  - apply emits_ret.
  - apply emits_bind; [apply emits_emit; exact I|]. intros _.
    apply emits_bind; [apply emits_attempt, expected_fetch_bridge_daily_all|].
    intros loaded. apply emits_bind.
    + destruct loaded as [hist|e].
      * destruct (append_rows names bid hist rows) as [rows1 [e|]].
        -- apply emits_bind; [apply emits_emit; exact I|]. intros _.
           apply emits_ret.
        -- apply emits_ret.
      * apply emits_bind; [apply emits_emit; exact I|]. intros _.
        apply emits_ret.
    + intros rows'.
      apply emits_bind; [apply emits_pace, expected_sleep|]. intros _. apply IH.
Qed.

Ltac emits_step :=
  first [ apply emits_ret | apply emits_raise | apply emits_exit
        | apply emits_lift | (apply emits_emit; exact I)
        | (apply emits_bind; [|intros ?]) ].

Lemma expected_fetch_bridges_overview :
  emits expected (fetch_bridges_overview net).
Proof.
  unfold fetch_bridges_overview, http_get_json.
  apply emits_bind; [apply expected_retry_loop, catalog_request_known|].
  intros data. destruct data; try apply emits_raise.
  destruct (assoc _ _); [apply emits_ret | apply emits_raise].
Qed.

(** What [main] does with the catalog it has fetched emits nothing
    unexpected. *)
Lemma expected_catalog_loop_part a overview :
  emits expected
    (if negb (truthy overview) then
       print_err MsgCatalogFailed ;; exit EXIT_NO_CATALOG
     else
       items <- lift (iterate overview) ;;
       cat <- lift (catalog_loop items [] []) ;;
       let '(ids_all, names) := cat in
       if negb (max_bridges a =? 0) && (0 <? max_bridges a) then
         print (MsgLimit (max_bridges a)) ;;
         ret (firstn (Z.to_nat (max_bridges a)) ids_all, names)
       else ret (ids_all, names)).
Proof.
  destruct (negb (truthy overview)).
  - unfold print_err. repeat emits_step.
  - apply emits_bind; [apply emits_lift|]. intros items.
    apply emits_bind; [apply emits_lift|]. intros [ids names].
    destruct (_ && _); unfold print; repeat emits_step.
Qed.

Lemma expected_report a monthly mt yt : emits expected (report a monthly mt yt).
Proof.
  unfold report, print.
  apply emits_bind; [destruct (last_active_month monthly); emits_step|].
  intros _.
  apply emits_bind; [destruct (last_year yt); emits_step|].
  intros _. emits_step.
Qed.

Lemma expected_aggregate_and_write a rows :
  emits expected (aggregate_and_write a rows).
Proof.
  unfold aggregate_and_write, aggregate_monthly_yearly, write_file, print.
  cbv iota beta zeta.
  do 8 (apply emits_bind; [apply emits_emit; exact I|]; intros _).
  apply expected_report.
Qed.

(** After the catalog, [main] emits nothing unexpected. *)
Lemma expected_after_catalog a (cat : list Z * name_map) :
  emits expected
    (let '(ids_all, names) := cat in
     rows <- collect_daily_rows net ids_all names (delay_ms a) ;;
     save_csv (outdir a) (daily_csv a) rows ;;
     print (MsgSaved (daily_csv a)) ;;
     match rows with
     | [] => print_err MsgNoRows ;; exit EXIT_NO_ROWS
     | _ :: _ => aggregate_and_write a rows
     end).
Proof.
  destruct cat as [ids names].
  apply emits_bind; [apply expected_collect_loop|]. intros rows.
  unfold save_csv, mkdir, write_file, print, print_err.
  apply emits_bind; [repeat emits_step|]. intros _.
  apply emits_bind; [emits_step|]. intros _.
  destruct rows; [repeat emits_step | apply expected_aggregate_and_write].
Qed.

(** A turn of the retry loop starts with its request. *)
Lemma retry_loop_first url p max_retries n rest delay last w :
  known_request (get_request url p) ->
  exists s,
    snd (retry_loop net url p max_retries (n :: rest) delay last w)
    = (w ++ [EGet (get_request url p)]) ++ s /\
    Forall expected s.
Proof.
  intros Hr. cbn [retry_loop]. unfold bind at 1, attempt, http_get.
  destruct (net (requests_made w) _) as [d|body].
  - destruct (n =? max_retries).
    + exists []. rewrite app_nil_r. split; [reflexivity | constructor].
    + assert (He : emits expected
                (sleep delay ;;
                 retry_loop net url p max_retries rest
                            (fmin (fmul delay (of_Z 2)) (of_Z 8))
                            (Some (TransportError d)))).
      { apply emits_bind; [apply emits_sleep, expected_sleep|].
        intros _. apply expected_retry_loop, Hr. }
      apply He.
  - exists []. rewrite app_nil_r. split; [reflexivity | constructor].
Qed.

Lemma bind_emit {B} e (k : unit -> M B) w :
  bind (emit e) k w = k tt (w ++ [e]).
Proof. reflexivity. Qed.

Lemma bind_world_prefix {A B} (m : M A) (k : A -> M B) w W :
  (exists s, snd (m w) = W ++ s /\ Forall expected s) ->
  (forall a, emits expected (k a)) ->
  exists s, snd (bind m k w) = W ++ s /\ Forall expected s.
Proof.
  intros (s & Hs & Hq) Hk. unfold bind.
  destruct (m w) as [[a|f] w1]; simpl in Hs; subst w1.
  - destruct (Hk a (W ++ s)) as (s' & Hs' & Hq').
    exists (s ++ s'). rewrite Hs', app_assoc.
    split; [reflexivity | now apply Forall_app].
  - exists s. split; [reflexivity | exact Hq].
Qed.

(** X27.  Every run of [main] starts by creating the output directory,
    announcing the catalog and asking for it; and whatever follows, every
    request it sends is the catalog request or the history request of some
    bridge, with the timeout and the user agent of the script. *)
Theorem requests_are_the_known_ones a w0 :
  exists s,
    snd (main net a w0)
    = w0 ++ [EMkdir (outdir a); EStdout MsgFetchingOverview;
             EGet catalog_request] ++ s /\
    forall r, In (EGet r) s ->
      req_timeout r = 90 /\
      req_user_agent r = "defillama-bridges-topn/1.0 (+no-tracking)" /\
      (req_url r = BRIDGES_URL /\ req_params r = None \/
       exists bid, req_url r = BRIDGE_VOLUME_URL /\
                   req_params r = Some [("id", bid)]).
Proof.
  assert (H : exists s,
            snd (main net a w0)
            = (((w0 ++ [EMkdir (outdir a)]) ++ [EStdout MsgFetchingOverview])
                 ++ [EGet catalog_request]) ++ s /\
            Forall expected s).
  { unfold main. apply bind_world_prefix;
      [|intros cat; apply expected_after_catalog].
    unfold load_catalog, mkdir, print.
    rewrite bind_emit. cbv beta. rewrite bind_emit. cbv beta.
    apply bind_world_prefix; [|intros ov; apply expected_catalog_loop_part].
    unfold fetch_bridges_overview, http_get_json.
    apply bind_world_prefix.
    - rewrite range_cons by (unfold DEFAULT_MAX_RETRIES; lia).
      apply retry_loop_first, catalog_request_known.
    - intros data. destruct data; try apply emits_raise.
      destruct (assoc _ _); [apply emits_ret | apply emits_raise]. }
  destruct H as (s & Hs & Hq). exists s. split.
  - rewrite Hs, <- !app_assoc. reflexivity.
  - intros r Hr. rewrite Forall_forall in Hq. specialize (Hq _ Hr).
    destruct Hq as [->|(bid & ->)].
    + repeat split. left. split; reflexivity.
    + repeat split. right. exists bid. split; reflexivity.
Qed.

End Requests.

Import Scenario.

Lemma requests_are_the_known_ones_witness :
  exists s,
    snd (main net_AB args_top1 [])
    = [] ++ [EMkdir "out"; EStdout MsgFetchingOverview; EGet catalog_request]
         ++ s.
Proof.
  destruct (requests_are_the_known_ones net_AB args_top1 []) as (s & Hs & _).
  exists s. exact Hs.
Defined.

End RequestFacts.

